(** * AuditCue integration: Slack-to-Gmail notification relay

    A shallow embedding of the Go sources of the relay, followed by the
    proofs of its specified properties.  The modules follow the packages
    of the repository and of the libraries it calls:

    - [time], [base64], [json], [http], [strings]: the parts of the Go
      standard library the code relies on;
    - [utils]: pkg/utils, the JSON responders;
    - [auth]: internal/auth, the state-token store, the credential
      manager and the two authorization handlers;
    - [slack]: internal/slack, recipient resolution and the webhook
      handler;
    - [database]: internal/database, the redaction of the connection
      string and the team table;
    - [gmail]: internal/gmail, [SendEmail] with its two retry loops;
    - [pool]: the goroutines of [getUserEmails] as a transition system
      over interleavings;
    - [server]: cmd/server, the handlers wired together as in [main];
    - [wire], [scenario], [saving]: the webhook wire format and concrete
      runs.

    Conventions.  Go strings are [string]; instants and durations are
    integers counting nanoseconds, as in package [time]; a Go [error] is
    the text of its message; maps are [gmap]s.  Every call that leaves
    the process (network, file system, random source, clock) is an
    explicit argument holding the outcome of that call.  Logging is left
    out. *)

From Stdlib Require Import ZArith Ascii String Strings.Byte.
From stdpp Require Import base option list strings pretty gmap fin_maps.

Open Scope Z_scope.

(** Go's [error]: the message a non-nil error prints. *)
Abbreviation error := string (only parsing).

(** ** package time *)
Module time.

Definition Nanosecond : Z := 1.
Definition Second : Z := 1000000000 * Nanosecond.
Definition Minute : Z := 60 * Second.

(** [t.After(u)] *)
Definition After (t u : Z) : bool := bool_decide (u < t).

(** [t.Add(d)] *)
Definition Add (t d : Z) : Z := t + d.

End time.

(** ** encoding/base64, URL alphabet with padding *)
Module base64.

Definition encodeURL : string :=
  "ABCDEFGHIJKLMNOPQRSTUVWXYZabcdefghijklmnopqrstuvwxyz0123456789-_".

Definition StdPadding : ascii := "="%char.

Definition digit (v : N) : ascii :=
  default StdPadding (String.get (N.to_nat (N.land v 63)) encodeURL).

Definition val (b : byte) : N := Byte.to_N b.

(** [URLEncoding.EncodeToString]: three source bytes give four digits,
    a trailing group of one or two bytes is padded with [=]. *)
Fixpoint EncodeToString (src : list byte) : string :=
  match src with
  | [] => ""
  | [a] =>
      let v := N.shiftl (val a) 16 in
      String (digit (N.shiftr v 18)) (String (digit (N.shiftr v 12))
        (String StdPadding (String StdPadding "")))
  | [a; b] =>
      let v := N.lor (N.shiftl (val a) 16) (N.shiftl (val b) 8) in
      String (digit (N.shiftr v 18)) (String (digit (N.shiftr v 12))
        (String (digit (N.shiftr v 6)) (String StdPadding "")))
  | a :: b :: c :: rest =>
      let v := N.lor (N.lor (N.shiftl (val a) 16) (N.shiftl (val b) 8)) (val c) in
      String (digit (N.shiftr v 18)) (String (digit (N.shiftr v 12))
        (String (digit (N.shiftr v 6)) (String (digit v)
          (EncodeToString rest))))
  end.

End base64.

(** ** encoding/json: what [Unmarshal] stores in an [interface{}] *)
Module json.

(** A number is kept as its literal: the code never looks into one. *)
#[local] Set Warnings "-register-all".
Inductive value :=
| Null
| Bool (b : bool)
| Number (literal : string)
| Str (s : string)
| Array (l : list value)
| Object (m : gmap string value).

(** [m[key]] on a [map[string]interface{}]: a missing key yields the nil
    interface, which is also what a JSON [null] decodes to. *)
Definition index (m : gmap string value) (key : string) : value :=
  default Null (m !! key).

End json.

(** ** net/http and pkg/utils *)
Module http.

Definition StatusOK : Z := 200.
Definition StatusTemporaryRedirect : Z := 307.
Definition StatusBadRequest : Z := 400.
Definition StatusNotFound : Z := 404.
Definition StatusMethodNotAllowed : Z := 405.
Definition StatusInternalServerError : Z := 500.

Definition MethodPost : string := "POST".

(** What a handler wrote to its [ResponseWriter]: nothing but the
    status, a text, the encoding of a [map[string]string], or the
    [Location] of a redirect. *)
Inductive Payload :=
| NoBody
| Text (s : string)
| JSON (data : gmap string string)
| Location (url : string).

Record Response := mkResponse {
  StatusCode : Z;
  Body : Payload
}.

Definition LF : string := String (ascii_of_nat 10) "".

(** [http.Error(w, error, code)] *)
Definition Error (err : string) (code : Z) : Response :=
  {| StatusCode := code; Body := Text (err +:+ LF) |}.

(** [http.Redirect(w, r, url, code)] *)
Definition Redirect (url : string) (code : Z) : Response :=
  {| StatusCode := code; Body := Location url |}.

End http.

Module utils.

(** [RespondJSON] with a [map[string]string] as data. *)
Definition RespondJSON (statusCode : Z) (data : gmap string string) : http.Response :=
  {| http.StatusCode := statusCode; http.Body := http.JSON data |}.

Definition RespondError (statusCode : Z) (message : string) : http.Response :=
  RespondJSON statusCode {[ "error" := message ]}.

End utils.

(** ** internal/auth *)
Module auth.

(** *** OAuth state tokens (state.go) *)

Record OAuthState := mkOAuthState {
  os_UserID : string;
  os_Expiry : Z
}.

(** The [states] field of [OAuthStateStore]; the mutex makes each
    method one atomic transition of this map. *)
Abbreviation OAuthStateStore := (gmap string OAuthState) (only parsing).

Definition NewOAuthStateStore : OAuthStateStore := ∅.

(** [cleanupExpiredStates]: every entry with [now.After(data.Expiry)]
    is deleted. *)
Definition cleanupExpiredStates (now : Z) (states : OAuthStateStore)
  : OAuthStateStore :=
  filter (λ kv, time.After now (os_Expiry kv.2) = false) states.

(** [GenerateState].  [rnd] is what [rand.Read] delivered ([inl] the 32
    bytes, [inr] its error), [now] the clock when the expiry is
    computed and [now'] the clock read by the cleanup. *)
Definition GenerateState (rnd : list byte + error) (now now' : Z)
    (userID : string) (states : OAuthStateStore)
  : (string * option error) * OAuthStateStore :=
  match rnd with
  | inr err => (("", Some err), states)
  | inl b =>
      let state := base64.EncodeToString b in
      let states := <[state := {| os_UserID := userID;
                                  os_Expiry := time.Add now (15 * time.Minute) |}]> states in
      let states := cleanupExpiredStates now' states in
      ((state, None), states)
  end.

(** [ValidateState] at clock reading [now]. *)
Definition ValidateState (now : Z) (state : string) (states : OAuthStateStore)
  : (string * bool) * OAuthStateStore :=
  match states !! state with
  | None => (("", false), states)
  | Some stateData =>
      if time.After now (os_Expiry stateData)
      then (("", false), delete state states)
      else ((os_UserID stateData, true), delete state states)
  end.

(** A history of calls on one store. *)
Inductive StoreCall :=
| CallGenerate (rnd : list byte + error) (now now' : Z) (userID : string)
| CallValidate (now : Z) (state : string).

Definition call_step (states : OAuthStateStore) (c : StoreCall) : OAuthStateStore :=
  match c with
  | CallGenerate rnd now now' userID => (GenerateState rnd now now' userID states).2
  | CallValidate now state => (ValidateState now state states).2
  end.

Definition run_calls (cs : list StoreCall) (states : OAuthStateStore) : OAuthStateStore :=
  foldl call_step states cs.

(** The token value a call puts into the store, if any. *)
Definition issued (c : StoreCall) : option string :=
  match c with
  | CallGenerate (inl b) _ _ _ => Some (base64.EncodeToString b)
  | _ => None
  end.

(** *** Credentials (credentials.go) *)

Record UserCredentials := mkUserCredentials {
  uc_UserID : string;
  uc_GmailClientID : string;
  uc_GmailSecret : string;
  uc_GmailRefreshToken : string;
  uc_SlackBotToken : string
}.

(** The [credentials] field of [CredentialsManager]. *)
Abbreviation Credentials := (gmap string UserCredentials) (only parsing).

(** How the snapshot write of one [SaveCredentials] call ends. *)
Inductive Persist :=
| Persisted
| MarshalFails (err : error)
| WriteFails (err : error).

(** [CredentialsManager.SaveCredentials]: the map is updated first, the
    snapshot is written afterwards. *)
Definition SaveCredentials (io : Persist) (creds : UserCredentials)
    (credentials : Credentials) : option error * Credentials :=
  let credentials := <[uc_UserID creds := creds]> credentials in
  match io with
  | MarshalFails err => (Some ("error serializing credentials: " +:+ err), credentials)
  | WriteFails err => (Some ("error writing credentials file: " +:+ err), credentials)
  | Persisted => (None, credentials)
  end.

Definition zeroUserCredentials : UserCredentials := mkUserCredentials "" "" "" "" "".

Definition GetCredentials (credentials : Credentials) (userID : string)
  : UserCredentials * option error :=
  match credentials !! userID with
  | None => (zeroUserCredentials, Some ("no credentials found for user " +:+ userID))
  | Some creds => (creds, None)
  end.

Definition GetSlackToken (credentials : Credentials) (userID : string)
  : string * option error :=
  match GetCredentials credentials userID with
  | (_, Some err) => ("", Some err)
  | (creds, None) => (uc_SlackBotToken creds, None)
  end.

(** The OAuth client a Gmail service handle is built from. *)
Record GmailClient := mkGmailClient {
  gc_ClientID : string;
  gc_ClientSecret : string;
  gc_RefreshToken : string
}.

(** [GetGmailService]; [newService] is how [gmail.NewService] ends. *)
Definition GetGmailService (newService : option error)
    (credentials : Credentials) (userID : string) : GmailClient + error :=
  match GetCredentials credentials userID with
  | (_, Some err) => inr ("failed to get credentials: " +:+ err)
  | (creds, None) =>
      match newService with
      | Some err => inr ("unable to create Gmail service: " +:+ err)
      | None => inl {| gc_ClientID := uc_GmailClientID creds;
                       gc_ClientSecret := uc_GmailSecret creds;
                       gc_RefreshToken := uc_GmailRefreshToken creds |}
      end
  end.

(** *** Handlers (handlers.go) *)

Record SaveUserCredentialsRequest := mkSaveUserCredentialsRequest {
  rq_UserID : string;
  rq_GmailClientID : string;
  rq_GmailSecret : string;
  rq_SlackBotToken : string;
  rq_SlackTeamID : string
}.

(** The mutable part of [Handler]: the credential map behind
    [CredManager] and the map behind [StateStore]. *)
Record Handler := mkHandler {
  CredManager : Credentials;
  StateStore : OAuthStateStore;
  RedirectURL : string;
  SuccessURL : string;
  (** whether the [RegisterTeam] callback is non-nil *)
  HasRegisterTeam : bool
}.

(** [oauth2.Config] as both handlers fill it. *)
Record Config := mkConfig {
  cf_ClientID : string;
  cf_ClientSecret : string;
  cf_RedirectURL : string;
  cf_Scopes : list string
}.

(** Outcomes of the calls [Handler.SaveCredentials] makes outside the
    process. *)
Record SaveEnv := mkSaveEnv {
  env_persist : Persist;
  env_registerTeam : option error;
  env_rnd : list byte + error;
  env_now : Z;
  env_now' : Z
}.

Record SaveRun := mkSaveRun {
  sv_response : http.Response;
  sv_handler : Handler;
  (** the team mapping handed to [RegisterTeam], if it was called *)
  sv_registered : option (string * string)
}.

Section SaveCredentialsHandler.
(** [config.AuthCodeURL(state, oauth2.AccessTypeOffline)] of package
    oauth2. *)
Variable AuthCodeURL : Config → string → string.

Definition with_creds (h : Handler) (c : Credentials) : Handler :=
  {| CredManager := c; StateStore := StateStore h;
     RedirectURL := RedirectURL h; SuccessURL := SuccessURL h;
     HasRegisterTeam := HasRegisterTeam h |}.

Definition with_states (h : Handler) (s : OAuthStateStore) : Handler :=
  {| CredManager := CredManager h; StateStore := s;
     RedirectURL := RedirectURL h; SuccessURL := SuccessURL h;
     HasRegisterTeam := HasRegisterTeam h |}.

(** The tail of the handler, from "Generate Gmail OAuth URL" on. *)
Definition issueAuthURL (env : SaveEnv) (req : SaveUserCredentialsRequest)
    (h : Handler) (registered : option (string * string)) : SaveRun :=
  let config := {| cf_ClientID := rq_GmailClientID req;
                   cf_ClientSecret := rq_GmailSecret req;
                   cf_RedirectURL := RedirectURL h;
                   cf_Scopes := ["https://www.googleapis.com/auth/gmail.send"] |} in
  match GenerateState (env_rnd env) (env_now env) (env_now' env) (rq_UserID req) (StateStore h) with
  | ((_, Some _), states) =>
      mkSaveRun (utils.RespondError http.StatusInternalServerError
                   "Error generating OAuth state")
                (with_states h states) registered
  | ((state, None), states) =>
      let authURL := AuthCodeURL config state in
      mkSaveRun (utils.RespondJSON http.StatusOK {[ "auth_url" := authURL ]})
                (with_states h states) registered
  end.

(** [Handler.SaveCredentials].  [method] is [r.Method]; [decoded] is
    what decoding the request body into the request struct gave. *)
Definition Handler_SaveCredentials (env : SaveEnv) (method : string)
    (decoded : SaveUserCredentialsRequest + error) (h : Handler) : SaveRun :=
  if decide (method ≠ http.MethodPost) then
    mkSaveRun (utils.RespondError http.StatusMethodNotAllowed "Method not allowed") h None
  else
    match decoded with
    | inr _ =>
        mkSaveRun (utils.RespondError http.StatusBadRequest "Invalid request body") h None
    | inl req =>
        let userCreds := {| uc_UserID := rq_UserID req;
                            uc_GmailClientID := rq_GmailClientID req;
                            uc_GmailSecret := rq_GmailSecret req;
                            uc_GmailRefreshToken := "";
                            uc_SlackBotToken := rq_SlackBotToken req |} in
        match SaveCredentials (env_persist env) userCreds (CredManager h) with
        | (Some _, credentials) =>
            mkSaveRun (utils.RespondError http.StatusInternalServerError
                         "Error saving credentials")
                      (with_creds h credentials) None
        | (None, credentials) =>
            let h := with_creds h credentials in
            if decide (rq_SlackTeamID req ≠ "" ∧ HasRegisterTeam h = true) then
              let registered := Some (rq_SlackTeamID req, rq_UserID req) in
              match env_registerTeam env with
              | Some _ =>
                  mkSaveRun (utils.RespondError http.StatusInternalServerError
                               "Error registering integration")
                            h registered
              | None => issueAuthURL env req h registered
              end
            else issueAuthURL env req h None
        end
    end.

End SaveCredentialsHandler.

(** Outcomes of the calls [GmailOAuthCallback] makes outside the process:
    the clock read by [ValidateState], the code exchange (the refresh
    token of the returned token, or the error) and the snapshot write. *)
Record CallbackEnv := mkCallbackEnv {
  cb_now : Z;
  cb_exchange : string + error;
  cb_persist : Persist
}.

(** [Handler.GmailOAuthCallback] up to the call of [config.Exchange]
    (handlers.go:121-151); [state] is the query parameter.  The handler
    answers at once, or goes on to the exchange holding [userCreds], the
    copy of the record it read under the read lock. *)
Definition callbackUntilExchange (now : Z) (state : string) (h : Handler)
  : (http.Response + UserCredentials) * Handler :=
  match ValidateState now state (StateStore h) with
  | ((_, false), states) =>
      (inl (http.Error "Invalid state parameter" http.StatusBadRequest),
       with_states h states)
  | ((userID, true), states) =>
      let h := with_states h states in
      match GetCredentials (CredManager h) userID with
      | (_, Some _) => (inl (http.Error "User not found" http.StatusNotFound), h)
      | (userCreds, None) => (inr userCreds, h)
      end
  end.

(** [Handler.GmailOAuthCallback] from the return of [config.Exchange]
    on (handlers.go:160-185), with the copy [userCreds] read before.
    No lock is held across the exchange, which may take up to ten
    seconds: [h] is the handler as other requests have left it by
    then. *)
Definition callbackAfterExchange (exchange : string + error) (persist : Persist)
    (userCreds : UserCredentials) (h : Handler) : http.Response * Handler :=
  match exchange with
  | inr _ =>
      (http.Error "Failed to authenticate with Google. Please try again."
         http.StatusInternalServerError, h)
  | inl refreshToken =>
      if decide (refreshToken ≠ "") then
        let userCreds := {| uc_UserID := uc_UserID userCreds;
                            uc_GmailClientID := uc_GmailClientID userCreds;
                            uc_GmailSecret := uc_GmailSecret userCreds;
                            uc_GmailRefreshToken := refreshToken;
                            uc_SlackBotToken := uc_SlackBotToken userCreds |} in
        match SaveCredentials persist userCreds (CredManager h) with
        | (Some _, credentials) =>
            (http.Error "Error saving token" http.StatusInternalServerError,
             with_creds h credentials)
        | (None, credentials) =>
            (http.Redirect (SuccessURL h) http.StatusTemporaryRedirect,
             with_creds h credentials)
        end
      else (http.Redirect (SuccessURL h) http.StatusTemporaryRedirect, h)
  end.

(** [Handler.GmailOAuthCallback] when no other request is served while
    its exchange is pending; [code] is the query parameter handed to
    the exchange. *)
Definition GmailOAuthCallback (env : CallbackEnv) (state code : string) (h : Handler)
  : http.Response * Handler :=
  match callbackUntilExchange (cb_now env) state h with
  | (inl response, h) => (response, h)
  | (inr userCreds, h) =>
      callbackAfterExchange (cb_exchange env) (cb_persist env) userCreds h
  end.

(** *** Notions used to state further properties *)

(** Every record is stored under the identifier it carries. *)
Definition well_keyed (credentials : Credentials) : Prop :=
  ∀ userID creds, credentials !! userID = Some creds → uc_UserID creds = userID.

(** A call that leaves alone a pending token [state] expiring at
    [expiry]: it does not present the token, and if it issues one, that
    is another value and its cleanup runs no later than [expiry]. *)
Definition spares (state : string) (expiry : Z) (c : StoreCall) : Prop :=
  match c with
  | CallGenerate (inl b) _ now' _ => base64.EncodeToString b ≠ state ∧ now' ≤ expiry
  | CallGenerate (inr _) _ _ _ => True
  | CallValidate _ presented => presented ≠ state
  end.

End auth.

(** ** internal/slack *)
Module slack.
Import auth.

(** *** Wire types (models.go) *)

(** Modelled from the spec: the declaration of [SlackChallenge] is not
    among the sources; the verification payload is
    [{type:"url_verification", challenge:string}] and the handler reads
    the fields [Type] and [Challenge]. *)
Record SlackChallenge := mkSlackChallenge {
  sc_Type : string;
  sc_Challenge : string
}.

(** Modelled from the spec: the declaration of [SlackEvent] is not among
    the sources; the event payload is [{type, team_id, event:{type,
    channel, user, text, subtype?, bot_id?}}] and the handler reads
    exactly these fields. *)
Record InnerEvent := mkInnerEvent {
  ev_Type : string;
  ev_Channel : string;
  ev_User : string;
  ev_Text : string;
  ev_Subtype : string;
  ev_BotID : string
}.

Record SlackEvent := mkSlackEvent {
  se_Type : string;
  se_TeamID : string;
  se_Event : InnerEvent
}.

(** *** The service (service.go) *)

(** How one Slack Web API round trip ends: [CallFails] when building the
    request, sending it, reading the reply or decoding it returned an
    error (an expired deadline is one of these); otherwise the decoded
    [map[string]interface{}]. *)
Inductive ApiReply :=
| CallFails (err : error)
| CallReturns (result : gmap string json.value).

(** A Go function either returns or panics (failed type assertion
    without the comma-ok form). *)
Inductive outcome (A : Type) :=
| Returns (a : A)
| Panics.
Arguments Returns {A} a.
Arguments Panics {A}.

(** The local struct of [getUserEmails]. *)
Record emailResult := mkEmailResult {
  er_userID : string;
  er_email : string;
  er_err : option error
}.

(** Invocations of the collaborators, in program order (goroutines in
    launch order). *)
Inductive Call :=
| TeamLookup (teamID : string)
| EmailLookup (ownerID slackUserID : string)
| MemberListing (userID channelID : string).

(** Everything outside the process that recipient resolution talks to.
    [member_info i] answers the lookup made by the goroutine with loop
    index [i]; [arrival] is the order in which the goroutines' results
    come out of [resultChan]; [admitted] picks, among the lookups of
    the goroutines launched, those that had been made when a panic
    ended the run (a goroutine waiting for its semaphore token has made
    none). *)
Record Net := mkNet {
  sender_info : string → ApiReply;
  member_info : nat → string → ApiReply;
  conversations_members : string → ApiReply;
  arrival : list emailResult → list emailResult;
  admitted : list Call → list Call
}.

(** Every goroutine sends one result and the channel is drained after
    all have finished: what arrives is a rearrangement of what was
    sent (this is [collects_every_result] below, proved on the
    goroutines themselves). *)
Definition arrival_complete (net : Net) : Prop :=
  ∀ results, arrival net results ≡ₚ results.


Definition maxUsers : nat := 50.

Section Service.
(** [fmt]'s [%v] on a decoded JSON value. *)
Variable Sprint : json.value → string.
Variable credentials : Credentials.

(** [getUserEmail], given the answer [reply] of users.info. *)
Definition getUserEmail (reply : string → ApiReply) (ownerID slackUserID : string)
  : outcome (string * option error) :=
  match GetSlackToken credentials ownerID with
  | (_, Some err) => Returns ("", Some ("failed to get Slack token: " +:+ err))
  | (slackToken, None) =>
      match reply slackUserID with
      | CallFails err => Returns ("", Some err)
      | CallReturns result =>
          match json.index result "ok" with
          | json.Bool false =>
              Returns ("", Some ("failed to fetch user info: "
                                   +:+ Sprint (json.index result "error")))
          | json.Bool true =>
              match json.index result "user" with
              | json.Object user =>
                  match json.index user "profile" with
                  | json.Object profile =>
                      match json.index profile "email" with
                      | json.Str email => Returns (email, None)
                      | _ => Returns ("", None)
                      end
                  | _ => Returns ("", Some "profile object not found")
                  end
              | _ => Returns ("", Some "user object not found")
              end
          | _ => Panics
          end
      end
  end.

(** The launch loop up to the first failing [id.(string)]: the
    identifiers a goroutine was started for, and whether the loop ran
    to its end. *)
Fixpoint launch (userIDs : list json.value) : list string * bool :=
  match userIDs with
  | [] => ([], true)
  | json.Str slackUserID :: rest =>
      let '(started, complete) := launch rest in (slackUserID :: started, complete)
  | _ :: _ => ([], false)
  end.

(** The goroutine body once it holds its token: the lookup it makes,
    and the result it sends unless the lookup panics. *)
Definition worker (net : Net) (ownerID : string) (i : nat) (slackUserID : string)
  : list Call * outcome emailResult :=
  ([EmailLookup ownerID slackUserID],
   match getUserEmail (member_info net i) ownerID slackUserID with
   | Panics => Panics
   | Returns (email, err) =>
       Returns {| er_userID := slackUserID; er_email := email; er_err := err |}
   end).

Fixpoint all_return {A} (os : list (outcome A)) : outcome (list A) :=
  match os with
  | [] => Returns []
  | Panics :: _ => Panics
  | Returns a :: rest =>
      match all_return rest with
      | Panics => Panics
      | Returns l => Returns (a :: l)
      end
  end.

(** The collecting loop over [resultChan]. *)
Fixpoint collect (results : list emailResult) (emails : list string) : list string :=
  match results with
  | [] => emails
  | result :: rest =>
      match er_err result with
      | Some _ => collect rest emails
      | None =>
          if decide (er_email result ≠ "")
          then collect rest (emails ++ [er_email result])
          else collect rest emails
      end
  end.

(** [getUserEmails]: the lookups made, and what the call yields.  When
    every goroutine has sent its result, each has made its lookup; when
    the launch loop or a lookup panics, the run ends with the lookups
    made by then. *)
Definition getUserEmails (net : Net) (ownerID : string) (userIDs : list json.value)
  : list Call * outcome (list string * option error) :=
  let '(started, complete) := launch userIDs in
  let ran := imap (worker net ownerID) started in
  let lookups := concat (ran.*1) in
  if complete then
    match all_return (ran.*2) with
    | Panics => (admitted net lookups, Panics)
    | Returns results => (lookups, Returns (collect (arrival net results) [], None))
    end
  else (admitted net lookups, Panics).

(** [GetChannelMembers]. *)
Definition GetChannelMembers (net : Net) (userID channelID : string)
  : list Call * outcome (list string * option error) :=
  match GetSlackToken credentials userID with
  | (_, Some err) => ([], Returns ([], Some ("failed to get Slack token: " +:+ err)))
  | (slackToken, None) =>
      match conversations_members net channelID with
      | CallFails err => ([], Returns ([], Some err))
      | CallReturns result =>
          match json.index result "ok" with
          | json.Bool false =>
              ([], Returns ([], Some ("failed to fetch members: "
                                        +:+ Sprint (json.index result "error"))))
          | json.Bool true =>
              match json.index result "members" with
              | json.Array userIDs =>
                  let userIDs :=
                    if decide (maxUsers < length userIDs)%nat
                    then take maxUsers userIDs else userIDs in
                  getUserEmails net userID userIDs
              | _ => ([], Returns ([], Some "members array not found or invalid format"))
              end
          | _ => ([], Panics)
          end
      end
  end.

End Service.

(** *** Notions used to state the properties of the service *)

(** The address a result contributes to the list, if any. *)
Definition published (r : emailResult) : option string :=
  match er_err r with
  | Some _ => None
  | None => if decide (er_email r ≠ "") then Some (er_email r) else None
  end.

(** A reply on which [getUserEmail] returns: the round trip failed, or
    the decoded reply carries a boolean under ["ok"]. *)
Definition answers (reply : ApiReply) : Prop :=
  match reply with
  | CallFails _ => True
  | CallReturns result => ∃ ok, json.index result "ok" = json.Bool ok
  end.

(** The two request structs take their [Type] from the same key of
    the payload. *)
Definition same_type_key {Bytes : Type}
    (Unmarshal_SlackChallenge : Bytes → SlackChallenge + error)
    (Unmarshal_SlackEvent : Bytes → SlackEvent + error) : Prop :=
  ∀ body challenge event,
    Unmarshal_SlackChallenge body = inl challenge →
    Unmarshal_SlackEvent body = inl event →
    sc_Type challenge = se_Type event.

(** *** The webhook handler (handler.go) *)

(** The arguments of the [SendEmail] call made in the background
    goroutine. *)
Record Mail := mkMail {
  m_userID : string;
  m_to : string;
  m_subject : string;
  m_messageText : string
}.

(** One execution of [HandleWebhook]: the response written ([None] when
    the handler goroutine panicked before writing one), the
    collaborators invoked, the final value of the local [recipients]
    and the mail handed to the background goroutine. *)
Record Run := mkRun {
  response : option http.Response;
  calls : list Call;
  recipients : list string;
  background : option Mail
}.

Definition respond (r : http.Response) (cs : list Call) : Run :=
  {| response := Some r; calls := cs; recipients := []; background := None |}.

Definition LF : string := http.LF.

(** [strings.Join] *)
Definition Join (elems : list string) (sep : string) : string :=
  String.concat sep elems.

(** The loop that drops the sender from [emails]. *)
Fixpoint excludeSender (senderEmail : string) (emails : list string)
    (recipients : list string) : list string :=
  match emails with
  | [] => recipients
  | email :: rest =>
      if decide (email ≠ senderEmail ∧ email ≠ "")
      then excludeSender senderEmail rest (recipients ++ [email])
      else excludeSender senderEmail rest recipients
  end.

Section Handler.
Variable Sprint : json.value → string.

(** The request body as read from the wire, and [json.Unmarshal] of it
    into each of the two structs. *)
Variable Bytes : Type.
Variable Unmarshal_SlackChallenge : Bytes → SlackChallenge + error.
Variable Unmarshal_SlackEvent : Bytes → SlackEvent + error.

(** [Handler]: the credential map its two services share, and the team
    mapping function. *)
Variable credentials : Credentials.
Variable GetUserIDForTeam : string → option string.

(** The branch taken for a message event of a mapped team. *)
Definition processMessage (net : Net) (event : SlackEvent) (userID : string)
    (done : list Call) : Run :=
  let channelID := ev_Channel (se_Event event) in
  let senderSlackID := ev_User (se_Event event) in
  let done := done ++ [EmailLookup userID senderSlackID] in
  match getUserEmail Sprint credentials (sender_info net) userID senderSlackID with
  | Panics => mkRun None done [] None
  | Returns (senderEmail, _) =>
      let '(lookups, got) := GetChannelMembers Sprint credentials net userID channelID in
      let done := done ++ [MemberListing userID channelID] ++ lookups in
      match got with
      | Panics => mkRun None done [] None
      | Returns (_, Some err) =>
          respond (utils.RespondError http.StatusInternalServerError
                     "Error fetching users") done
      | Returns (emails, None) =>
          let recipients := excludeSender senderEmail emails [] in
          if decide (length recipients = 0%nat) then
            mkRun (Some (http.mkResponse http.StatusOK
                           (http.Text "No recipients to send email to")))
                  done recipients None
          else
            let subject := "New Slack Message in Channel" in
            let message :=
              "New Slack message received in channel from user "
                +:+ ev_User (se_Event event) +:+ ":" +:+ LF +:+ LF
                +:+ ev_Text (se_Event event) in
            let recipientsStr := Join recipients "," in
            mkRun (Some (http.mkResponse http.StatusOK
                           (http.Text "Message received and processing")))
                  done recipients
                  (Some (mkMail userID recipientsStr subject message))
      end
  end.

Definition unhandled (done : list Call) : Run :=
  respond (http.mkResponse http.StatusOK (http.Text "Event received")) done.

(** The handler from "If not a challenge, try parsing as a normal
    event" on. *)
Definition handleEvent (net : Net) (body : Bytes) : Run :=
  match Unmarshal_SlackEvent body with
  | inr _ => respond (utils.RespondError http.StatusBadRequest "Invalid event JSON") []
  | inl event =>
      if decide (se_Type event = "event_callback") then
        if decide (se_TeamID event = "") then
          respond (utils.RespondError http.StatusBadRequest "No team ID in event") []
        else
          let done := [TeamLookup (se_TeamID event)] in
          match GetUserIDForTeam (se_TeamID event) with
          | None =>
              respond (utils.RespondError http.StatusNotFound "Integration not found")
                      done
          | Some userID =>
              if decide (ev_Type (se_Event event) = "message") then
                if decide (ev_BotID (se_Event event) ≠ ""
                           ∨ ev_Subtype (se_Event event) = "message_changed"
                           ∨ ev_Subtype (se_Event event) = "bot_message")
                then respond (http.mkResponse http.StatusOK http.NoBody) done
                else processMessage net event userID done
              else unhandled done
          end
      else unhandled []
  end.

(** [HandleWebhook]; [read] is the result of [io.ReadAll(r.Body)]. *)
Definition HandleWebhook (net : Net) (read : Bytes + error) : Run :=
  match read with
  | inr _ => respond (utils.RespondError http.StatusBadRequest "Invalid request") []
  | inl body =>
      match Unmarshal_SlackChallenge body with
      | inl challenge =>
          if decide (sc_Type challenge = "url_verification") then
            respond (utils.RespondJSON http.StatusOK
                       {[ "challenge" := sc_Challenge challenge ]}) []
          else handleEvent net body
      | inr _ => handleEvent net body
      end
  end.

End Handler.

End slack.

(** ** package strings *)
Module strings.

(** [strings.ReplaceAll(s, old, new)] for an [old] of one character. *)
Fixpoint ReplaceAll (s : string) (old : ascii) (new : string) : string :=
  match s with
  | EmptyString => ""
  | String c rest =>
      if decide (c = old) then new +:+ ReplaceAll rest old new
      else String c (ReplaceAll rest old new)
  end.

Fixpoint contains (cutset : string) (c : ascii) : bool :=
  match cutset with
  | EmptyString => false
  | String d rest => bool_decide (c = d) || contains rest c
  end.

(** [strings.TrimRight(s, cutset)] *)
Fixpoint TrimRight (s : string) (cutset : string) : string :=
  match s with
  | EmptyString => ""
  | String c rest =>
      match TrimRight rest cutset with
      | EmptyString => if contains cutset c then "" else String c ""
      | kept => String c kept
      end
  end.

(** Every character of [s] satisfies [P]. *)
Fixpoint every (P : ascii → bool) (s : string) : bool :=
  match s with
  | EmptyString => true
  | String c rest => P c && every P rest
  end.

(** [strings.Index(s, substr)]: the index of the first occurrence of
    [substr] in [s], -1 if there is none. *)
Fixpoint Index (s substr : string) : Z :=
  if String.prefix substr s then 0
  else match s with
       | EmptyString => -1
       | String _ rest =>
           let i := Index rest substr in if i <? 0 then -1 else i + 1
       end.

(** [len(s)] *)
Definition len (s : string) : Z := Z.of_nat (String.length s).

Fixpoint drop (n : nat) (s : string) : string :=
  match n, s with
  | O, _ => s
  | S n, String _ rest => drop n rest
  | S _, EmptyString => ""
  end.

Fixpoint take (n : nat) (s : string) : string :=
  match n, s with
  | O, _ => ""
  | S n, String c rest => String c (take n rest)
  | S _, EmptyString => ""
  end.

(** The slice expression [s[lo:hi]]; [None] is the run-time panic for
    indices out of range. *)
Definition slice (s : string) (lo hi : Z) : option string :=
  if (0 <=? lo) && (lo <=? hi) && (hi <=? len s)
  then Some (take (Z.to_nat (hi - lo)) (drop (Z.to_nat lo) s))
  else None.

End strings.

(** ** Package database (store.go) *)
Module database.

(** [redactConnectionString]; [s[lo:]] is [s[lo:len(s)]] and [s[:hi]] is
    [s[0:hi]].  [None] is a slice-bounds panic. *)
Definition redactConnectionString (connStr : string) : option string :=
  let redacted := connStr in
  let idx := strings.Index connStr "://" in
  if 0 <? idx then
    tail ← strings.slice connStr idx (strings.len connStr);
    let atIdx := strings.Index tail "@" in
    if 0 <? atIdx then
      userPass ← strings.slice connStr (idx + 3) (idx + atIdx);
      let passIdx := strings.Index userPass ":" in
      if 0 <? passIdx then
        head ← strings.slice connStr 0 (idx + 3 + passIdx + 1);
        rest ← strings.slice connStr (idx + atIdx) (strings.len connStr);
        Some (head +:+ "********" +:+ rest)
      else Some redacted
    else Some redacted
  else Some redacted.

(** The rows of table [integrations]: [user_id] by [slack_team_id], the
    column declared UNIQUE in [initSchema]. *)
Definition Table : Type := gmap string string.

(** [RegisterIntegration]: the upsert on [slack_team_id]; [exec] is the
    error of [DB.Exec], if any. *)
Definition RegisterIntegration (exec : option error) (slackTeamID userID : string)
    (integrations : Table) : option error * Table :=
  match exec with
  | Some err => (Some err, integrations)
  | None => (None, <[slackTeamID := userID]> integrations)
  end.

(** [GetUserIDForTeam]; [query] is the error of [QueryRow(...).Scan]
    other than [sql.ErrNoRows], if any.  [None] is [("", false)]. *)
Definition GetUserIDForTeam (query : option error) (slackTeamID : string)
    (integrations : Table) : option string :=
  match query with
  | Some _ => None
  | None => integrations !! slackTeamID
  end.

End database.

(** ** internal/gmail *)
Module gmail.
Import auth.

(** What [SendEmail] does outside the process, in program order. *)
Inductive Event :=
| GetService (attempt : Z)
| Sleep (d : Z)
| GetProfile
| Send (attempt : Z) (raw : string).

(** Outcomes of the calls to Google: [gmail.NewService] within the
    [attempt]-th [GetGmailService], the profile request (the address
    found), and the [attempt]-th submission of [raw] (the message
    identifier). *)
Record Google := mkGoogle {
  newService : Z → option error;
  getProfile : string + error;
  send : Z → string → string + error
}.

(** How [SendEmail] ends: it returns nil, returns an error, or
    dereferences a nil pointer. *)
Inductive result :=
| Nil
| Err (err : error)
| NilDereference.

Section Retry.
Context {A : Type}.
(** the call under retry and the event it leaves in the trace *)
Variable call : Z → A + error.
Variable event : Z → Event.

(** Both retry loops of [SendEmail] have this body:
    [for attempt := 1; attempt <= 3; attempt++].  The state is the
    pair of variables assigned by the call ([srv]/[response] and
    [err]), [backoff] and the trace; [fuel] bounds the number of
    loop tests. *)
Fixpoint loop (fuel : nat) (attempt backoff : Z)
    (vars : option A * option error) (trace : list Event)
  : (option A * option error) * list Event :=
  match fuel with
  | O => (vars, trace)
  | S fuel =>
      if attempt <=? 3 then
        let trace := trace ++ [event attempt] in
        match call attempt with
        | inl a => ((Some a, None), trace)
        | inr err =>
            if attempt <? 3
            then loop fuel (attempt + 1) (backoff * 2) (None, Some err)
                      (trace ++ [Sleep backoff])
            else loop fuel (attempt + 1) backoff (None, Some err) trace
        end
      else (vars, trace)
  end.

(** Four loop tests are all that [attempt <= 3] allows from 1. *)
Definition retry : (option A * option error) * list Event :=
  loop 4 1 (1 * time.Second) (None, None) [].

End Retry.

Definition CRLF : string := String (ascii_of_nat 13) (String (ascii_of_nat 10) "").
Definition DQUOTE : string := String (ascii_of_nat 34) "".

(** The [fmt.Sprintf] that builds the message. *)
Definition message (fromEmail to subject messageText : string) : string :=
  "From: " +:+ fromEmail +:+ CRLF +:+
  "To: " +:+ to +:+ CRLF +:+
  "Subject: " +:+ subject +:+ CRLF +:+
  "MIME-Version: 1.0" +:+ CRLF +:+
  "Content-Type: text/plain; charset=" +:+ DQUOTE +:+ "UTF-8" +:+ DQUOTE +:+ CRLF +:+ CRLF +:+
  messageText.

Definition encode (msg : string) : string :=
  let encodedMsg := base64.EncodeToString (list_byte_of_string msg) in
  let encodedMsg := strings.ReplaceAll encodedMsg "+" "-" in
  let encodedMsg := strings.ReplaceAll encodedMsg "/" "_" in
  strings.TrimRight encodedMsg "=".

(** [Service.SendEmail] *)
Definition SendEmail (g : Google) (credentials : Credentials)
    (userID to subject messageText : string) : result * list Event :=
  let '((srv, err), trace) :=
    retry (λ attempt, GetGmailService (newService g attempt) credentials userID)
          GetService in
  match err with
  | Some err => (Err ("unable to retrieve Gmail service after retries: " +:+ err), trace)
  | None =>
      match srv with
      | None => (NilDereference, trace)
      | Some _ =>
          let trace := trace ++ [GetProfile] in
          match getProfile g with
          | inr err => (Err ("unable to get user profile: " +:+ err), trace)
          | inl fromEmail =>
              let encodedMsg := encode (message fromEmail to subject messageText) in
              let '((response, err), sending) :=
                retry (λ attempt, send g attempt encodedMsg)
                      (λ attempt, Send attempt encodedMsg) in
              let trace := trace ++ sending in
              match err with
              | Some err => (Err ("unable to send email after retries: " +:+ err), trace)
              | None =>
                  match response with
                  | None => (NilDereference, trace)
                  | Some _ => (Nil, trace)
                  end
              end
          end
      end
  end.

(** *** The retry policy in the words of the specification *)

(** At most three attempts; one second before the second attempt, two
    seconds before the third. *)
Definition policy (event : Z → Event) (attempts : nat) : list Event :=
  match attempts with
  | 1%nat => [event 1]
  | 2%nat => [event 1; Sleep (1 * time.Second); event 2]
  | _ => [event 1; Sleep (1 * time.Second); event 2; Sleep (2 * time.Second); event 3]
  end.

(** The first attempt of [call] that succeeds is the [n]-th. *)
Definition first_success {A} (call : Z → A + error) (n : nat) : Prop :=
  (∃ a, call (Z.of_nat n) = inl a) ∧
  ∀ k, 1 ≤ k < Z.of_nat n → ∃ err, call k = inr err.

(** All three attempts of [call] fail. *)
Definition exhausted {A} (call : Z → A + error) : Prop :=
  ∀ k, 1 ≤ k ≤ 3 → ∃ err, call k = inr err.

End gmail.

(** ** The goroutines of [getUserEmails]

    The fan-out of [getUserEmails] as a transition system over
    interleavings: the launch loop, one goroutine per identifier, the
    goroutine that closes [resultChan], and the collecting loop.  A send
    on a buffered channel is enabled while the buffer has room, a receive
    while it holds an element. *)
Module pool.
Import slack.

(** Where a launched goroutine stands.  Its call of [getUserEmail] is
    taken to return. *)
Inductive pc :=
| Waiting    (** at [semaphore <- struct{}{}] *)
| Calling    (** token placed, inside [getUserEmail] *)
| Returned   (** [getUserEmail] has returned, at [resultChan <- ...] *)
| Sent       (** result sent, at the deferred [<-semaphore] *)
| Released   (** token taken back, at the deferred [wg.Done()] *)
| Finished.

#[global] Instance pc_eq_dec : EqDecision pc.
Proof. solve_decision. Defined.

Record state := mkState {
  pending : list string;          (** identifiers the launch loop has yet to reach *)
  goroutines : list pc;           (** the goroutines launched, by loop index *)
  semaphore : nat;                (** elements buffered in [semaphore] *)
  resultChan : list emailResult;  (** elements buffered in [resultChan] *)
  wg : nat;                       (** the [WaitGroup] counter *)
  closed : bool;                  (** [resultChan] is closed *)
  emails : list string;           (** the slice built by the collecting loop *)
  returned : bool                 (** [getUserEmails] has returned *)
}.

(** [make(chan struct{}, 5)] *)
Definition limit : nat := 5.

Definition init (userIDs : list string) : state :=
  {| pending := userIDs; goroutines := []; semaphore := 0; resultChan := [];
     wg := 0; closed := false; emails := []; returned := false |}.

Definition move (i : nat) (p : pc) (s : state) : state :=
  {| pending := pending s; goroutines := <[i := p]> (goroutines s);
     semaphore := semaphore s; resultChan := resultChan s; wg := wg s;
     closed := closed s; emails := emails s; returned := returned s |}.

(** The lookups in flight: goroutines inside [getUserEmail]. *)
Definition in_flight (s : state) : nat :=
  length (filter (λ p, p = Calling) (goroutines s)).

(** A goroutine between its send on [semaphore] and its receive from
    it. *)
Definition holds_token (p : pc) : bool :=
  match p with
  | Calling | Returned | Sent => true
  | _ => false
  end.

Definition holders (l : list pc) : nat :=
  length (filter (λ p, holds_token p = true) l).

Definition bit (b : bool) : nat := if b then 1%nat else 0%nat.

(** The tokens in the channel are exactly those of the goroutines
    between acquire and release, and the buffer is never over its
    capacity. *)
Definition token_invariant (s : state) : Prop :=
  holders (goroutines s) = semaphore s ∧ (semaphore s ≤ limit)%nat.

(** A goroutine whose result has been sent. *)
Definition has_sent (p : pc) : bool :=
  match p with
  | Sent | Released | Finished => true
  | _ => false
  end.

(** The goroutines that have not run to their end. *)
Definition unfinished (l : list pc) : nat :=
  length (filter (λ p, p ≠ Finished) l).

(** The steps a goroutine has left, counting the receive of its result
    by the collecting loop. *)
Definition work (p : pc) : nat :=
  match p with
  | Waiting => 6
  | Calling => 5
  | Returned => 4
  | Sent => 2
  | Released => 1
  | Finished => 0
  end.

(** The number of steps left to the whole function: seven per
    identifier not yet launched (its launch and the work of its
    goroutine), the work of the goroutines, one receive per buffered
    result, the close and the return. *)
Definition remaining (s : state) : nat :=
  7 * length (pending s) + sum_list_with work (goroutines s)
    + length (resultChan s) + bit (negb (closed s)) + bit (negb (returned s)).

Section Steps.
(** the identifiers passed to [getUserEmails], and the result the
    goroutine with loop index [i] obtains from [getUserEmail] *)
Variable userIDs : list string.
Variable lookup : nat → emailResult.

Inductive step : state → state → Prop :=
(** the launch loop: [wg.Add(1)] and the [go] statement *)
| step_launch s slackUserID rest :
    pending s = slackUserID :: rest →
    step s {| pending := rest; goroutines := goroutines s ++ [Waiting];
              semaphore := semaphore s; resultChan := resultChan s;
              wg := S (wg s); closed := closed s; emails := emails s;
              returned := returned s |}
(** [semaphore <- struct{}{}]: enabled while fewer than [limit] tokens
    are buffered *)
| step_acquire s i :
    goroutines s !! i = Some Waiting →
    (semaphore s < limit)%nat →
    step s {| pending := pending s; goroutines := <[i := Calling]> (goroutines s);
              semaphore := S (semaphore s); resultChan := resultChan s;
              wg := wg s; closed := closed s; emails := emails s;
              returned := returned s |}
(** [getUserEmail] returns *)
| step_return s i :
    goroutines s !! i = Some Calling →
    step s (move i Returned s)
(** [resultChan <- emailResult{...}] on a channel made with capacity
    [len(userIDs)] *)
| step_send s i :
    goroutines s !! i = Some Returned →
    (length (resultChan s) < length userIDs)%nat →
    step s {| pending := pending s; goroutines := <[i := Sent]> (goroutines s);
              semaphore := semaphore s; resultChan := resultChan s ++ [lookup i];
              wg := wg s; closed := closed s; emails := emails s;
              returned := returned s |}
(** the deferred [<-semaphore] *)
| step_release s i tokens :
    goroutines s !! i = Some Sent →
    semaphore s = S tokens →
    step s {| pending := pending s; goroutines := <[i := Released]> (goroutines s);
              semaphore := tokens; resultChan := resultChan s;
              wg := wg s; closed := closed s; emails := emails s;
              returned := returned s |}
(** the deferred [wg.Done()] *)
| step_done s i n :
    goroutines s !! i = Some Released →
    wg s = S n →
    step s {| pending := pending s; goroutines := <[i := Finished]> (goroutines s);
              semaphore := semaphore s; resultChan := resultChan s;
              wg := n; closed := closed s; emails := emails s;
              returned := returned s |}
(** the closing goroutine, started after the launch loop: [wg.Wait()]
    has returned, [close(resultChan)] *)
| step_close s :
    pending s = [] → wg s = 0%nat → closed s = false →
    step s {| pending := pending s; goroutines := goroutines s;
              semaphore := semaphore s; resultChan := resultChan s;
              wg := wg s; closed := true; emails := emails s;
              returned := returned s |}
(** one iteration of [for result := range resultChan] *)
| step_receive s result rest :
    pending s = [] → returned s = false →
    resultChan s = result :: rest →
    step s {| pending := pending s; goroutines := goroutines s;
              semaphore := semaphore s; resultChan := rest;
              wg := wg s; closed := closed s;
              emails := collect [result] (emails s);
              returned := returned s |}
(** the range loop ends on the closed, drained channel; the function
    returns [emails] *)
| step_exit s :
    pending s = [] → returned s = false →
    resultChan s = [] → closed s = true →
    step s {| pending := pending s; goroutines := goroutines s;
              semaphore := semaphore s; resultChan := resultChan s;
              wg := wg s; closed := closed s; emails := emails s;
              returned := true |}.

Definition reachable (s : state) : Prop := rtc step (init userIDs) s.

(** The results of the goroutines of [l] that have sent theirs, [l]
    holding the goroutines with loop indices from [i] on. *)
Fixpoint sent_results (i : nat) (l : list pc) : list emailResult :=
  match l with
  | [] => []
  | p :: l =>
      if has_sent p then lookup i :: sent_results (S i) l
      else sent_results (S i) l
  end.

(** What the collecting loop relies on: every identifier is pending or
    has its goroutine; the [WaitGroup] counts the goroutines that are not
    finished; the channel is closed only after the launch loop has ended
    and all goroutines have finished; the function returns only on a
    closed, drained channel; and what has been received so far, with
    what is buffered, is what has been sent. *)
Definition collection_invariant (s : state) : Prop :=
  (length (goroutines s) + length (pending s) = length userIDs)%nat ∧
  wg s = unfinished (goroutines s) ∧
  (closed s = true → pending s = [] ∧ wg s = 0%nat) ∧
  (returned s = true → closed s = true ∧ resultChan s = []) ∧
  ∃ received,
    emails s = collect received [] ∧
    received ++ resultChan s ≡ₚ sent_results 0 (goroutines s).

End Steps.

End pool.

(** ** Command server (main.go): the handlers wired together *)
Module server.
Import auth slack.

(** What the handlers created in [main] share: the handler of package
    auth (with the credentials manager also held by the Slack and Gmail
    services) and the integration store. *)
Record State := mkState {
  authHandler : Handler;
  integrations : database.Table
}.

Section Wiring.
Variable AuthCodeURL : Config → string → string.
Variable Sprint : json.value → string.
Variable Bytes : Type.
Variable Unmarshal_SlackChallenge : Bytes → SlackChallenge + error.
Variable Unmarshal_SlackEvent : Bytes → SlackEvent + error.

(** [authHandler.SaveCredentials] with [RegisterTeam] set to
    [integrationStore.RegisterIntegration]. *)
Definition SaveCredentials (env : SaveEnv) (method : string)
    (decoded : SaveUserCredentialsRequest + error) (s : State)
  : http.Response * State :=
  let run := Handler_SaveCredentials AuthCodeURL env method decoded (authHandler s) in
  (sv_response run,
   {| authHandler := sv_handler run;
      integrations :=
        match sv_registered run with
        | Some (slackTeamID, userID) =>
            (database.RegisterIntegration (env_registerTeam env) slackTeamID userID
               (integrations s)).2
        | None => integrations s
        end |}).

(** [slackHandler.HandleWebhook] with the team lookup set to
    [integrationStore.GetUserIDForTeam]. *)
Definition HandleWebhook (query : option error) (s : State) (net : Net)
    (read : Bytes + error) : Run :=
  slack.HandleWebhook Sprint Bytes Unmarshal_SlackChallenge Unmarshal_SlackEvent
    (CredManager (authHandler s))
    (λ slackTeamID, database.GetUserIDForTeam query slackTeamID (integrations s))
    net read.

End Wiring.

End server.

(** ** The webhook wire format *)
Module wire.
Import slack.

(** The request body after lexing: [None] when the bytes are not a JSON
    document. *)
Definition Bytes : Type := option json.value.

(** Modelled from the spec: [json.Unmarshal] of one string-typed struct
    field whose tag is [key].  A missing key or [null] leaves the zero
    value, a JSON string is stored, any other value is a type error. *)
Definition field (m : gmap string json.value) (key : string) : string + error :=
  match json.index m key with
  | json.Null => inl ""
  | json.Str s => inl s
  | _ => inr ("json: cannot unmarshal into Go struct field " +:+ key +:+ " of type string")
  end.

Definition syntax_error : error := "invalid character looking for beginning of value".
Definition type_error : error := "json: cannot unmarshal into Go value of type struct".

Definition bind {A B} (x : A + error) (k : A → B + error) : B + error :=
  match x with inl a => k a | inr e => inr e end.

Notation "'try' x := y 'in' z" := (bind y (λ x, z))
  (at level 10, x name, y at level 100, z at level 200, only parsing).

(** Modelled from the spec: the verification payload
    [{type, challenge}]. *)
Definition Unmarshal_SlackChallenge (body : Bytes) : SlackChallenge + error :=
  match body with
  | None => inr syntax_error
  | Some json.Null => inl (mkSlackChallenge "" "")
  | Some (json.Object m) =>
      try type := field m "type" in
      try challenge := field m "challenge" in
      inl (mkSlackChallenge type challenge)
  | Some _ => inr type_error
  end.

Definition zeroInnerEvent : InnerEvent := mkInnerEvent "" "" "" "" "" "".

Definition Unmarshal_InnerEvent (v : json.value) : InnerEvent + error :=
  match v with
  | json.Null => inl zeroInnerEvent
  | json.Object m =>
      try type := field m "type" in
      try channel := field m "channel" in
      try user := field m "user" in
      try text := field m "text" in
      try subtype := field m "subtype" in
      try bot_id := field m "bot_id" in
      inl (mkInnerEvent type channel user text subtype bot_id)
  | _ => inr type_error
  end.

(** Modelled from the spec: the event payload
    [{type, team_id, event:{type, channel, user, text, subtype?, bot_id?}}]. *)
Definition Unmarshal_SlackEvent (body : Bytes) : SlackEvent + error :=
  match body with
  | None => inr syntax_error
  | Some json.Null => inl (mkSlackEvent "" "" zeroInnerEvent)
  | Some (json.Object m) =>
      try type := field m "type" in
      try team_id := field m "team_id" in
      try event := Unmarshal_InnerEvent (json.index m "event") in
      inl (mkSlackEvent type team_id event)
  | Some _ => inr type_error
  end.

(** [fmt]'s [%v] on the values Slack puts under ["error"]: a string, or
    nothing; other values are not rendered. *)
Definition Sprint (v : json.value) : string :=
  match v with
  | json.Str s => s
  | json.Bool true => "true"
  | json.Bool false => "false"
  | json.Null => "<nil>"
  | _ => "?"
  end.

End wire.

(** ** Scenarios

    The running example of the specification: team T1 is owned by owner1;
    channel C1 has the members U1, U2, U3; U1 writes "hi". *)
Module scenario.
Import auth slack.

Definition credentials : gmap string UserCredentials :=
  {[ "owner1" := mkUserCredentials "owner1" "cid" "sec" "1//rt" "xoxb-1" ]}.

Definition GetUserIDForTeam (teamID : string) : option string :=
  if decide (teamID = "T1") then Some "owner1" else None.

(** users.info answering with a profile that carries [email]. *)
Definition profile (email : string) : ApiReply :=
  CallReturns {[ "ok" := json.Bool true;
                 "user" := json.Object
                   {[ "profile" := json.Object {[ "email" := json.Str email ]} ]} ]}.

Definition members (ids : list string) : ApiReply :=
  CallReturns {[ "ok" := json.Bool true;
                 "members" := json.Array (json.Str <$> ids) ]}.

(** The directory of the specification's scenario. *)
Definition directory (slackUserID : string) : ApiReply :=
  if decide (slackUserID = "U1") then profile "a@x.com"
  else if decide (slackUserID = "U2") then profile "b@x.com"
  else if decide (slackUserID = "U3") then profile ""
  else CallFails "user_not_found".

Definition net : Net :=
  {| sender_info := directory;
     member_info := λ _, directory;
     conversations_members := λ _, members ["U1"; "U2"; "U3"];
     arrival := λ results, results;
     admitted := take 5 |}.

(** A directory in which U2 and U3 publish the same address, with the
    results arriving in reverse launch order. *)
Definition shared (slackUserID : string) : ApiReply :=
  if decide (slackUserID = "U1") then profile "a@x.com"
  else profile "b@x.com".

Definition net_shared : Net :=
  {| sender_info := shared;
     member_info := λ _, shared;
     conversations_members := λ _, members ["U1"; "U2"; "U3"];
     arrival := reverse;
     admitted := take 5 |}.

(** A directory in which the lookup of U2 fails and U3 has no address. *)
Definition flaky (slackUserID : string) : ApiReply :=
  if decide (slackUserID = "U2") then CallFails "context deadline exceeded"
  else directory slackUserID.

Definition net_flaky : Net :=
  {| sender_info := directory;
     member_info := λ _, flaky;
     conversations_members := λ _, members ["U1"; "U2"; "U3"; "U2"];
     arrival := reverse;
     admitted := take 5 |}.

Definition inner (type : string) (extra : gmap string json.value) : json.value :=
  json.Object ({[ "type" := json.Str type; "channel" := json.Str "C1";
                  "user" := json.Str "U1"; "text" := json.Str "hi" ]} ∪ extra).

Definition callback (team_id : json.value) (event : json.value) : wire.Bytes :=
  Some (json.Object {[ "type" := json.Str "event_callback";
                       "team_id" := team_id; "event" := event ]}).

Definition message_event : wire.Bytes := callback (json.Str "T1") (inner "message" ∅).

Definition bot_event : wire.Bytes :=
  callback (json.Str "T1") (inner "message" {[ "bot_id" := json.Str "B1" ]}).

Definition unmapped_event : wire.Bytes := callback (json.Str "T9") (inner "message" ∅).

(** A reaction event that carries no team identifier. *)
Definition teamless_reaction : wire.Bytes := callback json.Null (inner "reaction_added" ∅).

Definition reaction_event : wire.Bytes := callback (json.Str "T1") (inner "reaction_added" ∅).

Definition verification (challenge : string) : wire.Bytes :=
  Some (json.Object {[ "type" := json.Str "url_verification";
                       "challenge" := json.Str challenge ]}).

(** A channel of sixty members, none of whom publishes an address
    other than U1 and U2. *)
Definition uid (n : nat) : string := "U" +:+ pretty n.

Definition crowd : list string := uid <$> seq 0 60.

Definition crowd_listing : gmap string json.value :=
  {[ "ok" := json.Bool true; "members" := json.Array (json.Str <$> crowd) ]}.

Definition net_crowd : Net :=
  {| sender_info := directory;
     member_info := λ _, directory;
     conversations_members := λ _, CallReturns crowd_listing;
     arrival := reverse;
     admitted := take 5 |}.

(** Two goroutines launched for a channel of three; the first is inside
    its lookup, the second waits for a token. *)
Definition two_launched : pool.state :=
  {| pool.pending := ["U3"]; pool.goroutines := [pool.Calling; pool.Waiting];
     pool.semaphore := 1; pool.resultChan := []; pool.wg := 2;
     pool.closed := false; pool.emails := []; pool.returned := false |}.

(** users.info answering U2 with a document that has no ["ok"]. *)
Definition untyped (slackUserID : string) : ApiReply :=
  if decide (slackUserID = "U2") then CallReturns ∅ else directory slackUserID.

Definition net_untyped : Net :=
  {| sender_info := directory;
     member_info := λ _, untyped;
     conversations_members := λ _, members ["U1"; "U2"; "U3"];
     arrival := λ results, results;
     admitted := take 5 |}.

(** The sixty-member channel with that answer for U2. *)
Definition net_crowd_untyped : Net :=
  {| sender_info := directory;
     member_info := λ _, untyped;
     conversations_members := λ _, CallReturns crowd_listing;
     arrival := reverse;
     admitted := take 5 |}.

(** The lookup results of the two-member channel [U1; U2], and the state
    in which [getUserEmails] has returned after U2's result arrived
    first. *)
Definition pair_lookup (i : nat) : emailResult :=
  match i with
  | O => mkEmailResult "U1" "a@x.com" None
  | _ => mkEmailResult "U2" "b@x.com" None
  end.

Definition pair_done : pool.state :=
  {| pool.pending := []; pool.goroutines := [pool.Finished; pool.Finished];
     pool.semaphore := 0; pool.resultChan := []; pool.wg := 0;
     pool.closed := true; pool.emails := ["b@x.com"; "a@x.com"];
     pool.returned := true |}.

(** Both goroutines of [U1; U2] launched, the second inside its lookup. *)
Definition two_of_two : pool.state :=
  {| pool.pending := []; pool.goroutines := [pool.Waiting; pool.Calling];
     pool.semaphore := 1; pool.resultChan := []; pool.wg := 2;
     pool.closed := false; pool.emails := []; pool.returned := false |}.

(** Six goroutines launched, five of them inside their lookup. *)
Definition five_calling : pool.state :=
  {| pool.pending := [];
     pool.goroutines := replicate 5 pool.Calling ++ [pool.Waiting];
     pool.semaphore := 5; pool.resultChan := []; pool.wg := 6;
     pool.closed := false; pool.emails := []; pool.returned := false |}.

(** Google refusing the service twice, then accepting every request but
    the submissions. *)
Definition google_down : gmail.Google :=
  {| gmail.newService :=
       λ attempt, if attempt <? 3 then Some "oauth2: cannot fetch token" else None;
     gmail.getProfile := inl "owner1@x.com";
     gmail.send := λ _ _, inr "googleapi: Error 503" |}.

(** Google accepting the second submission. *)
Definition google_slow : gmail.Google :=
  {| gmail.newService := λ _, None;
     gmail.getProfile := inl "owner1@x.com";
     gmail.send := λ attempt _,
       if attempt <? 2 then inr "googleapi: Error 503" else inl "18c1f0" |}.

(** A payload of another outer kind. *)
Definition rate_limited : wire.Bytes :=
  Some (json.Object {[ "type" := json.Str "app_rate_limited";
                       "team_id" := json.Str "T1" ]}).

(** users.info failing for the sender, and answering for the members. *)
Definition net_sender_down : Net :=
  {| sender_info := λ _, CallFails "ratelimited";
     member_info := λ _, directory;
     conversations_members := λ _, members ["U1"; "U2"; "U3"];
     arrival := λ results, results;
     admitted := take 5 |}.

(** A channel whose only member is the sender. *)
Definition net_alone : Net :=
  {| sender_info := directory;
     member_info := λ _, directory;
     conversations_members := λ _, members ["U1"];
     arrival := λ results, results;
     admitted := take 5 |}.

(** conversations.members failing. *)
Definition net_unlisted : Net :=
  {| sender_info := directory;
     member_info := λ _, directory;
     conversations_members := λ _, CallFails "channel_not_found";
     arrival := λ results, results;
     admitted := take 5 |}.

(** The handler wired as in [main], on the wire format above. *)
Definition HandleWebhook (net : Net) (body : wire.Bytes) : Run :=
  slack.HandleWebhook wire.Sprint wire.Bytes wire.Unmarshal_SlackChallenge
    wire.Unmarshal_SlackEvent credentials GetUserIDForTeam net (inl body).

End scenario.

(** A concrete run: owner1 has completed authorization (refresh token
    "1//rt"), then submits the phase-1 form again. *)
Module saving.
Import auth.

Definition AuthCodeURL (c : Config) (state : string) : string :=
  "https://accounts.google.com/o/oauth2/auth?client_id=" +:+ cf_ClientID c
    +:+ "&state=" +:+ state.

Definition old : UserCredentials :=
  mkUserCredentials "owner1" "cid" "sec" "1//rt" "xoxb-1".

Definition h0 : Handler :=
  {| CredManager := {[ "owner1" := old ]}; StateStore := NewOAuthStateStore;
     RedirectURL := "https://relay.example/oauth/callback";
     SuccessURL := "https://relay.example/success";
     HasRegisterTeam := true |}.

Definition req : SaveUserCredentialsRequest :=
  mkSaveUserCredentialsRequest "owner1" "cid2" "sec2" "xoxb-2" "T1".

Definition env : SaveEnv :=
  mkSaveEnv Persisted None (inl [Byte.x01; Byte.x02; Byte.x03]) 0 0.

(** The whole story from an empty installation: phase 1, the callback
    that stores the refresh token, and phase 1 once more. *)
Definition fresh : Handler :=
  {| CredManager := ∅; StateStore := NewOAuthStateStore;
     RedirectURL := "https://relay.example/oauth/callback";
     SuccessURL := "https://relay.example/success";
     HasRegisterTeam := true |}.

Definition first : Handler :=
  sv_handler (Handler_SaveCredentials AuthCodeURL env "POST" (inl req) fresh).

Definition authorized : http.Response * Handler :=
  GmailOAuthCallback (mkCallbackEnv 60 (inl "1//rt") Persisted) "AQID" "4/code" first.

(** The callback of [first] as far as its code exchange, and owner1
    submitting the form again, with another bot token, while that
    exchange is pending. *)
Definition pending : (http.Response + UserCredentials) * Handler :=
  callbackUntilExchange 60 "AQID" first.

Definition meanwhile : Handler :=
  sv_handler
    (Handler_SaveCredentials AuthCodeURL
       (mkSaveEnv Persisted None (inl [Byte.x04; Byte.x05; Byte.x06]) 30 30) "POST"
       (inl (mkSaveUserCredentialsRequest "owner1" "cid2" "sec2" "xoxb-3" "T1"))
       pending.2).

(** The server as [main] starts it on an empty installation. *)
Definition started : server.State :=
  {| server.authHandler := fresh; server.integrations := ∅ |}.

Definition again : Handler :=
  sv_handler (Handler_SaveCredentials AuthCodeURL env "POST" (inl req) authorized.2).

End saving.

(** * Properties *)

(** ** The state-token store *)
Section StateTokens.
Import auth.
Implicit Types (states : gmap string OAuthState) (state : string) (now : Z).

Lemma ValidateState_absent now state states :
  states !! state = None →
  ValidateState now state states = (("", false), states).
Proof. intros H. unfold ValidateState. by rewrite H. Qed.

(** Whatever the outcome, the presented token is gone afterwards. *)
Lemma ValidateState_consumes now state states :
  (ValidateState now state states).2 !! state = None.
Proof.
  unfold ValidateState.
  destruct (states !! state) as [d|] eqn:E; [|done].
  destruct (time.After now (os_Expiry d)); apply lookup_delete_eq.
Qed.

Lemma cleanupExpiredStates_absent now state states :
  states !! state = None → cleanupExpiredStates now states !! state = None.
Proof.
  intros H. unfold cleanupExpiredStates.
  apply map_lookup_filter_None. left. exact H.
Qed.

(** A call that does not issue [state] leaves it absent. *)
Lemma call_step_absent c state states :
  issued c ≠ Some state →
  states !! state = None → call_step states c !! state = None.
Proof.
  intros Hc Hs. destruct c as [[b|e] now now' uid | now st]; simpl in *.
  - apply cleanupExpiredStates_absent.
    rewrite lookup_insert_ne; [done | congruence].
  - done.
  - unfold ValidateState.
    destruct (states !! st) as [d|] eqn:E; [|done].
    destruct (decide (st = state)) as [->|Hne]; [congruence|].
    destruct (time.After now (os_Expiry d)); simpl; by rewrite lookup_delete_ne.
Qed.

Lemma run_calls_absent cs state states :
  Forall (λ c, issued c ≠ Some state) cs →
  states !! state = None → run_calls cs states !! state = None.
Proof.
  unfold run_calls. intros Hcs. revert states.
  induction Hcs as [|c cs Hc _ IH]; intros states Hs; [done|].
  simpl. apply IH. by apply call_step_absent.
Qed.

(** C2. A state token validates successfully at most once: once
    [ValidateState] has accepted a token, every later validation of the
    same token value is rejected, at whatever clock reading it happens
    and whatever calls were made on the store in between, provided the
    random source did not issue that very value anew. *)
Theorem ValidateState_at_most_once now state states userID states' :
  ValidateState now state states = ((userID, true), states') →
  ∀ cs now',
    Forall (λ c, issued c ≠ Some state) cs →
    ValidateState now' state (run_calls cs states')
      = (("", false), run_calls cs states').
Proof.
  intros Hv cs now' Hcs.
  apply ValidateState_absent, run_calls_absent; [done|].
  pose proof (ValidateState_consumes now state states) as Hgone.
  by rewrite Hv in Hgone.
Qed.

Lemma ValidateState_at_most_once_witness :
  let b := [Byte.x01; Byte.x02; Byte.x03] in
  let s1 := (GenerateState (inl b) 0 0 "owner1" NewOAuthStateStore).2 in
  let s2 := (ValidateState 5 "AQID" s1).2 in
  ValidateState 5 "AQID" s1 = (("owner1", true), s2) ∧
  ValidateState 9 "AQID"
      (run_calls [CallValidate 6 "AQID"; CallGenerate (inl [Byte.x09]) 7 7 "owner2"] s2)
    = (("", false),
       run_calls [CallValidate 6 "AQID"; CallGenerate (inl [Byte.x09]) 7 7 "owner2"] s2).
Proof.
  intros b s1 s2. split; [vm_compute; reflexivity|].
  apply (ValidateState_at_most_once 5 "AQID" s1 "owner1" s2).
  - vm_compute; reflexivity.
  - repeat constructor; vm_compute; congruence.
Defined.

(** C8. A token whose expiry instant lies before the clock reading of
    the validation is reported invalid although it is still in the
    store (it was never consumed), and its entry is removed. *)
Theorem ValidateState_expired now state states stateData :
  states !! state = Some stateData →
  os_Expiry stateData < now →
  ValidateState now state states = (("", false), delete state states).
Proof.
  intros Hs Hexp. unfold ValidateState, time.After. rewrite Hs.
  by rewrite bool_decide_eq_true_2.
Qed.

Lemma ValidateState_expired_witness :
  let s1 := (GenerateState (inl [Byte.x01; Byte.x02; Byte.x03]) 0 0 "owner1"
               NewOAuthStateStore).2 in
  ValidateState (15 * time.Minute + 1) "AQID" s1 = (("", false), delete "AQID" s1).
Proof.
  intros s1.
  apply (ValidateState_expired _ _ _ (mkOAuthState "owner1" (15 * time.Minute))).
  - vm_compute; reflexivity.
  - vm_compute; reflexivity.
Defined.

(** The same at the level of issuance: a token presented later than
    fifteen minutes after it was issued is rejected and absent
    afterwards, whether or not the cleanup already removed it. *)
Lemma GenerateState_then_late rnd now now' userID states state states1 now2 :
  GenerateState rnd now now' userID states = ((state, None), states1) →
  now + 15 * time.Minute < now2 →
  (ValidateState now2 state states1).1 = ("", false) ∧
  (ValidateState now2 state states1).2 !! state = None.
Proof.
  intros Hg Hlate. split; [|apply ValidateState_consumes].
  destruct rnd as [b|e]; simpl in Hg; [|congruence].
  injection Hg as <- <-.
  unfold ValidateState.
  destruct (cleanupExpiredStates now' _ !! _) as [d|] eqn:E; [|done].
  unfold cleanupExpiredStates in E.
  apply map_lookup_filter_Some in E as [E _].
  rewrite lookup_insert_eq in E. injection E as <-. simpl.
  unfold time.After, time.Add. by rewrite bool_decide_eq_true_2.
Qed.

(** Before expiry the first validation succeeds and returns the user
    the token was issued for. *)
Lemma ValidateState_fresh now state states stateData :
  states !! state = Some stateData →
  now ≤ os_Expiry stateData →
  ValidateState now state states
    = ((os_UserID stateData, true), delete state states).
Proof.
  intros Hs Hexp. unfold ValidateState, time.After. rewrite Hs.
  rewrite bool_decide_eq_false_2; [done | lia].
Qed.

End StateTokens.

(** ** Credentials and the phase-1 handler *)
Section CredentialSaving.
Import auth.
Variable AuthCodeURL : Config → string → string.
Implicit Types (h : Handler) (env : SaveEnv) (req : SaveUserCredentialsRequest).

Lemma SaveCredentials_lookup io creds credentials :
  (SaveCredentials io creds credentials).2 !! uc_UserID creds = Some creds.
Proof. destruct io; simpl; apply lookup_insert_eq. Qed.

Lemma SaveCredentials_frame io creds credentials userID :
  userID ≠ uc_UserID creds →
  (SaveCredentials io creds credentials).2 !! userID = credentials !! userID.
Proof. intros Hne. destruct io; simpl; by rewrite lookup_insert_ne. Qed.

Lemma issueAuthURL_creds env req h registered :
  CredManager (sv_handler (issueAuthURL AuthCodeURL env req h registered))
    = CredManager h.
Proof.
  unfold issueAuthURL.
  destruct (GenerateState _ _ _ _ _) as [[state [err|]] states]; reflexivity.
Qed.

(** What a well-formed phase-1 request leaves in the credential map,
    whichever way the snapshot write, the team registration and the
    token generation end. *)
Lemma Handler_SaveCredentials_stores env req h :
  CredManager (sv_handler
      (Handler_SaveCredentials AuthCodeURL env http.MethodPost (inl req) h))
    = <[rq_UserID req :=
          {| uc_UserID := rq_UserID req;
             uc_GmailClientID := rq_GmailClientID req;
             uc_GmailSecret := rq_GmailSecret req;
             uc_GmailRefreshToken := "";
             uc_SlackBotToken := rq_SlackBotToken req |}]> (CredManager h).
Proof.
  unfold Handler_SaveCredentials.
  destruct (decide (http.MethodPost ≠ http.MethodPost)) as [Hm|_]; [done|].
  destruct (env_persist env); simpl; try reflexivity.
  destruct (decide _); [destruct (env_registerTeam env)|];
    rewrite ?issueAuthURL_creds; reflexivity.
Qed.

(** C10. For a user who already holds a stored Gmail refresh token, a
    further phase-1 save (a POST whose body decodes) replaces the whole
    stored record by one built from the request alone, whose
    [GmailRefreshToken] is empty: the earlier refresh token is erased,
    not kept. *)
Theorem SaveCredentials_erases_refresh_token env method decoded req h old :
  CredManager h !! rq_UserID req = Some old →
  uc_GmailRefreshToken old ≠ "" →
  method = http.MethodPost →
  decoded = inl req →
  ∃ stored,
    CredManager (sv_handler (Handler_SaveCredentials AuthCodeURL env method decoded h))
      !! rq_UserID req = Some stored ∧
    stored = {| uc_UserID := rq_UserID req;
                uc_GmailClientID := rq_GmailClientID req;
                uc_GmailSecret := rq_GmailSecret req;
                uc_GmailRefreshToken := "";
                uc_SlackBotToken := rq_SlackBotToken req |} ∧
    uc_GmailRefreshToken stored = "" ∧
    uc_GmailRefreshToken stored ≠ uc_GmailRefreshToken old.
Proof.
  intros Hold Htok -> ->.
  rewrite Handler_SaveCredentials_stores, lookup_insert_eq.
  eexists; repeat split; simpl; congruence.
Qed.

End CredentialSaving.

Lemma SaveCredentials_erases_refresh_token_witness :
  ∃ stored,
    auth.CredManager (auth.sv_handler
        (auth.Handler_SaveCredentials saving.AuthCodeURL saving.env
           "POST" (inl saving.req) saving.h0))
      !! "owner1" = Some stored ∧
    stored = auth.mkUserCredentials "owner1" "cid2" "sec2" "" "xoxb-2" ∧
    auth.uc_GmailRefreshToken stored = "" ∧
    auth.uc_GmailRefreshToken stored ≠ "1//rt".
Proof.
  apply (SaveCredentials_erases_refresh_token saving.AuthCodeURL
           saving.env "POST" (inl saving.req) saving.req
           saving.h0 saving.old).
  - vm_compute; reflexivity.
  - vm_compute; congruence.
  - reflexivity.
  - reflexivity.
Defined.

(** Phase 1, then the callback, then phase 1 again: the callback stored
    the refresh token, the second phase 1 left none. *)
Example reauthorization :
  saving.authorized.1 = http.Redirect "https://relay.example/success" 307 ∧
  auth.uc_GmailRefreshToken <$> auth.CredManager saving.authorized.2 !! "owner1"
    = Some "1//rt" ∧
  auth.uc_GmailRefreshToken <$> auth.CredManager saving.again !! "owner1" = Some "".
Proof. repeat split; vm_compute; reflexivity. Qed.

(** The callback consumes its state: presented again, it is refused. *)
Example callback_replayed :
  (auth.GmailOAuthCallback (auth.mkCallbackEnv 61 (inl "1//rt") auth.Persisted)
     "AQID" "4/code" saving.authorized.2).1
    = http.Error "Invalid state parameter" 400.
Proof. vm_compute; reflexivity. Qed.

(** ** Recipient resolution *)
Section Resolution.
Import auth slack.
Variable Sprint : json.value → string.
Variable credentials : gmap string UserCredentials.
Implicit Types (net : Net) (results : list emailResult) (emails : list string).

Lemma collect_omap results emails :
  collect results emails = emails ++ omap published results.
Proof.
  revert emails. induction results as [|r rest IH]; intros emails; simpl.
  - by rewrite app_nil_r.
  - unfold published at 1. destruct (er_err r); [apply IH|].
    case_decide; rewrite IH; [|done]. by rewrite <- app_assoc.
Qed.

Lemma published_nonempty r e : published r = Some e → e ≠ "".
Proof.
  unfold published. destruct (er_err r); [done|].
  case_decide; [|done]. congruence.
Qed.

Lemma launch_strings (ids : list string) : launch (json.Str <$> ids) = (ids, true).
Proof.
  induction ids as [|id ids IH]; [done|].
  rewrite fmap_cons. simpl. by rewrite IH.
Qed.

Lemma getUserEmail_returns reply ownerID slackUserID :
  answers (reply slackUserID) →
  ∃ email err,
    getUserEmail Sprint credentials reply ownerID slackUserID = Returns (email, err).
Proof.
  unfold getUserEmail, answers.
  destruct (GetSlackToken credentials ownerID) as [tok [e|]]; [eauto|].
  destruct (reply slackUserID) as [e|result]; [eauto|].
  intros [[] ->]; [|eauto].
  destruct (json.index result "user") as [| | | | |user]; eauto.
  destruct (json.index user "profile") as [| | | | |prof]; eauto.
  destruct (json.index prof "email"); eauto.
Qed.

(** A lookup that returns an error returns no address with it. *)
Lemma getUserEmail_error reply ownerID slackUserID email err :
  getUserEmail Sprint credentials reply ownerID slackUserID = Returns (email, Some err) →
  email = "".
Proof.
  unfold getUserEmail.
  destruct (GetSlackToken credentials ownerID) as [tok [e|]]; [congruence|].
  destruct (reply slackUserID) as [e|result]; [congruence|].
  destruct (json.index result "ok") as [|[]| | | |]; try congruence.
  destruct (json.index result "user") as [| | | | |user]; try congruence.
  destruct (json.index user "profile") as [| | | | |prof]; try congruence.
  destruct (json.index prof "email"); congruence.
Qed.

Lemma all_return_imap_aux {A} (f : nat → string → outcome A) (ids : list string) :
  (∀ i id, ids !! i = Some id → ∃ a, f i id = Returns a) →
  ∃ l, all_return (imap f ids) = Returns l ∧ length l = length ids.
Proof.
  revert f. induction ids as [|id ids IH]; intros f Hf; simpl.
  - by exists [].
  - destruct (Hf 0%nat id eq_refl) as [a ->].
    destruct (IH (f ∘ S)) as (l & -> & Hl).
    { intros i x Hi. apply (Hf (S i)). exact Hi. }
    exists (a :: l). simpl. by rewrite Hl.
Qed.

(** When the join succeeds, the [i]-th result is what the [i]-th call
    returned. *)
Lemma all_return_imap_inv {A} (f : nat → string → outcome A) (ids : list string) l :
  all_return (imap f ids) = Returns l →
  length l = length ids ∧
  ∀ i id, ids !! i = Some id → ∃ a, f i id = Returns a ∧ l !! i = Some a.
Proof.
  revert f l. induction ids as [|id ids IH]; intros f l; simpl.
  - intros [= <-]. split; [done|]. intros i id Hi. by destruct i.
  - destruct (f 0%nat id) as [a|] eqn:Ha; [|done].
    destruct (all_return (imap (f ∘ S) ids)) as [l'|] eqn:Hl'; [|done].
    intros [= <-]. destruct (IH _ _ Hl') as [Hlen Hnth]. split; [simpl; by rewrite Hlen|].
    intros [|i] x Hi; simpl in Hi.
    + injection Hi as <-. by exists a.
    + destruct (Hnth i x Hi) as (r & Hr & Hlook). by exists r.
Qed.

(** One panic is enough for the join to panic. *)
Lemma all_return_panics {A} (os : list (outcome A)) i :
  os !! i = Some Panics → all_return os = Panics.
Proof.
  revert i. induction os as [|o os IH]; intros [|i] Hi; simpl in *; try done.
  - by injection Hi as ->.
  - destruct o; [|done]. by rewrite (IH i Hi).
Qed.

(** Every goroutine makes the lookup of its own identifier, and no
    other. *)
Lemma worker_lookups net ownerID (ids : list string) :
  concat ((imap (worker Sprint credentials net ownerID) ids).*1)
    = EmailLookup ownerID <$> ids.
Proof.
  rewrite fmap_imap.
  assert (H : ∀ f : nat → string → list Call,
            (∀ i id, f i id = [EmailLookup ownerID id]) →
            concat (imap f ids) = EmailLookup ownerID <$> ids).
  { induction ids as [|id ids IH]; intros f Hf; [done|].
    rewrite imap_cons, fmap_cons. simpl. rewrite Hf. simpl. f_equal.
    apply IH. intros i x. apply Hf. }
  apply H. done.
Qed.

Lemma worker_results net ownerID (ids : list string) :
  (imap (worker Sprint credentials net ownerID) ids).*2
    = imap (λ i id, (worker Sprint credentials net ownerID i id).2) ids.
Proof. by rewrite fmap_imap. Qed.

Lemma launch_complete userIDs started :
  launch userIDs = (started, true) → userIDs = json.Str <$> started.
Proof.
  revert started. induction userIDs as [|id rest IH]; intros started; simpl.
  - by intros [= <-].
  - destruct id; try done. destruct (launch rest) as [started' complete].
    intros [= <- ->]. change (json.Str <$> s :: started')
      with (json.Str s :: (json.Str <$> started')). f_equal. by apply IH.
Qed.


Lemma workers_return net ownerID (ids : list string) :
  (∀ i id, ids !! i = Some id → answers (member_info net i id)) →
  ∃ results,
    all_return ((imap (worker Sprint credentials net ownerID) ids).*2) = Returns results
    ∧ length results = length ids.
Proof.
  intros H. rewrite worker_results. apply all_return_imap_aux. intros i id Hi.
  unfold worker. simpl.
  destruct (getUserEmail_returns (member_info net i) ownerID id (H i id Hi))
    as (email & err & ->). eauto.
Qed.

(** The results the goroutines send on a run that returns: the [i]-th is
    what the lookup of the [i]-th identifier returned. *)
Lemma workers_sent net ownerID (ids : list string) results :
  all_return ((imap (worker Sprint credentials net ownerID) ids).*2) = Returns results →
  length results = length ids ∧
  ∀ i id, ids !! i = Some id →
    ∃ email err,
      getUserEmail Sprint credentials (member_info net i) ownerID id
        = Returns (email, err) ∧
      results !! i = Some (mkEmailResult id email err).
Proof.
  rewrite worker_results. intros [Hlen Hnth]%all_return_imap_inv.
  split; [done|]. intros i id Hi.
  destruct (Hnth i id Hi) as (r & Hr & Hlook). unfold worker in Hr. simpl in Hr.
  destruct (getUserEmail _ _ _ _ _) as [[email err]|]; [|done].
  injection Hr as <-. by exists email, err.
Qed.

(** What a run of [getUserEmails] that returns has done: every entry was
    a string, a lookup was made for each, and the list returned is
    collected from the results of exactly these lookups. *)
Lemma getUserEmails_returns_inv net ownerID userIDs calls emails err :
  getUserEmails Sprint credentials net ownerID userIDs = (calls, Returns (emails, err)) →
  ∃ ids results,
    userIDs = json.Str <$> ids ∧
    calls = EmailLookup ownerID <$> ids ∧
    length results = length ids ∧
    (∀ i id, ids !! i = Some id →
       ∃ email e,
         getUserEmail Sprint credentials (member_info net i) ownerID id
           = Returns (email, e) ∧
         results !! i = Some (mkEmailResult id email e)) ∧
    emails = collect (arrival net results) [] ∧
    err = None.
Proof.
  unfold getUserEmails. destruct (launch userIDs) as [started [|]] eqn:Hlaunch; [|done].
  destruct (all_return _) as [results|] eqn:Hres; [|done].
  intros [= <- <- <-]. exists started, results.
  destruct (workers_sent _ _ _ _ Hres) as [Hlen Hnth].
  split_and!; try done.
  - by apply launch_complete.
  - apply worker_lookups.
Qed.

(** [getUserEmails] has no path that returns a non-nil error. *)
Lemma getUserEmails_nil_error net ownerID userIDs emails err :
  (getUserEmails Sprint credentials net ownerID userIDs).2 = Returns (emails, err) →
  err = None.
Proof.
  unfold getUserEmails. destruct (launch userIDs) as [started [|]]; [|done].
  destruct (all_return _); simpl; congruence.
Qed.


(** Lookups that return, with or without an error, are tolerated: the
    call makes one lookup per identifier, returns a nil error, and the
    list it returns holds exactly the non-empty addresses of the
    lookups that returned without error, one per such lookup. *)
Lemma getUserEmails_skips_failures net ownerID (ids : list string) :
  arrival_complete net →
  (∀ i id, ids !! i = Some id → answers (member_info net i id)) →
  ∃ results emails,
    length results = length ids ∧
    (∀ i id, ids !! i = Some id →
       ∃ email e,
         getUserEmail Sprint credentials (member_info net i) ownerID id
           = Returns (email, e) ∧
         results !! i = Some (mkEmailResult id email e)) ∧
    getUserEmails Sprint credentials net ownerID (json.Str <$> ids)
      = (EmailLookup ownerID <$> ids, Returns (emails, None)) ∧
    emails ≡ₚ omap published results ∧
    "" ∉ emails.
Proof.
  intros Harr Hans.
  destruct (workers_return net ownerID ids Hans) as (results & Hres & _).
  destruct (workers_sent _ _ _ _ Hres) as [Hlen Hnth].
  exists results, (omap published (arrival net results)).
  split_and!; try done.
  - unfold getUserEmails. rewrite launch_strings. cbv zeta.
    rewrite Hres, worker_lookups, collect_omap. done.
  - by rewrite (Harr results).
  - intros Hin. apply list_elem_of_omap in Hin as (r & _ & Hr).
    by apply published_nonempty in Hr.
Qed.

(** C7. A users.info reply that is a JSON document without a boolean
    under ["ok"] is not tolerated: the unchecked [result["ok"].(bool)]
    panics in the goroutine of that member, and [getUserEmails] returns
    nothing, whatever the lookups of the other members give. *)
Theorem getUserEmails_untyped_reply_panics net ownerID (ids : list string)
    i id tok result :
  GetSlackToken credentials ownerID = (tok, None) →
  ids !! i = Some id →
  member_info net i id = CallReturns result →
  (∀ ok, json.index result "ok" ≠ json.Bool ok) →
  (getUserEmails Sprint credentials net ownerID (json.Str <$> ids)).2 = Panics.
Proof.
  intros Htok Hi Hreply Hok. unfold getUserEmails. rewrite launch_strings. cbv zeta.
  rewrite (all_return_panics _ i); [done|].
  rewrite worker_results, list_lookup_imap, Hi. simpl. f_equal.
  unfold getUserEmail. rewrite Htok, Hreply.
  destruct (json.index result "ok") as [|ok| | | |]; try done.
  by destruct (Hok ok).
Qed.



End Resolution.

(** ** The webhook handler *)
Section Webhook.
Import auth slack.
Variable Sprint : json.value → string.
Variable Bytes : Type.
Variable Unmarshal_SlackChallenge : Bytes → SlackChallenge + error.
Variable Unmarshal_SlackEvent : Bytes → SlackEvent + error.
Variable credentials : gmap string UserCredentials.
Variable GetUserIDForTeam : string → option string.

#[local] Abbreviation HandleWebhook :=
  (HandleWebhook Sprint Bytes Unmarshal_SlackChallenge Unmarshal_SlackEvent
     credentials GetUserIDForTeam).
#[local] Abbreviation handleEvent :=
  (handleEvent Sprint Bytes Unmarshal_SlackEvent credentials GetUserIDForTeam).
#[local] Abbreviation processMessage := (processMessage Sprint credentials).

(** C3. A payload that decodes as a challenge with type
    "url_verification" is answered with status 200 and a JSON body whose
    only field, "challenge", holds the payload's challenge string
    unchanged; no collaborator is invoked, no recipient is resolved and
    no mail is dispatched. *)
Theorem challenge_echoed net body challenge :
  Unmarshal_SlackChallenge body = inl challenge →
  sc_Type challenge = "url_verification" →
  ∃ data,
    HandleWebhook net (inl body)
      = {| response := Some {| http.StatusCode := 200; http.Body := http.JSON data |};
           calls := []; recipients := []; background := None |} ∧
    data !! "challenge" = Some (sc_Challenge challenge) ∧
    dom data = {[ "challenge" ]}.
Proof.
  intros Hdec Htype. exists {[ "challenge" := sc_Challenge challenge ]}.
  unfold HandleWebhook. rewrite Hdec. rewrite decide_True by done.
  split; [reflexivity|]. split; [apply lookup_singleton_eq|].
  apply dom_singleton_L.
Qed.

Lemma not_challenge net body event :
  same_type_key Unmarshal_SlackChallenge Unmarshal_SlackEvent →
  Unmarshal_SlackEvent body = inl event →
  se_Type event ≠ "url_verification" →
  HandleWebhook net (inl body) = handleEvent net body.
Proof.
  intros Hkey Hev Hty. unfold HandleWebhook.
  destruct (Unmarshal_SlackChallenge body) as [c|e] eqn:Hc; [|done].
  case_decide as Hc'; [|done].
  rewrite (Hkey _ _ _ Hc Hev) in Hc'. done.
Qed.

(** C4 (amended). For a payload whose outer kind is "event_callback"
    and whose inner kind is not "message", the handler resolves no
    recipient and dispatches nothing; the only collaborator it may
    invoke is the team mapping.  It answers 200 "Event received" when
    the team identifier is present and mapped, 400 when the team
    identifier is empty and 404 when the team is not mapped: the team
    checks come before the check of the inner kind. *)
Theorem non_message_callback net body event :
  same_type_key Unmarshal_SlackChallenge Unmarshal_SlackEvent →
  Unmarshal_SlackEvent body = inl event →
  se_Type event = "event_callback" →
  ev_Type (se_Event event) ≠ "message" →
  let run := HandleWebhook net (inl body) in
  background run = None ∧
  recipients run = [] ∧
  (∀ c, c ∈ calls run → c = TeamLookup (se_TeamID event)) ∧
  response run = Some
    (if decide (se_TeamID event = "") then
       utils.RespondError http.StatusBadRequest "No team ID in event"
     else match GetUserIDForTeam (se_TeamID event) with
          | None => utils.RespondError http.StatusNotFound "Integration not found"
          | Some _ => http.mkResponse http.StatusOK (http.Text "Event received")
          end).
Proof.
  intros Hkey Hev Hty Hinner run. unfold run.
  rewrite (not_challenge net body event Hkey Hev) by (rewrite Hty; done).
  unfold handleEvent. rewrite Hev. rewrite decide_True by done.
  destruct (decide (se_TeamID event = "")) as [Ht|Ht]; simpl.
  - repeat split. intros c Hc. by apply elem_of_nil in Hc.
  - destruct (GetUserIDForTeam (se_TeamID event)) as [userID|]; simpl.
    + rewrite decide_False by done. simpl. repeat split.
      intros c Hc. by apply list_elem_of_singleton in Hc.
    + repeat split. intros c Hc. by apply list_elem_of_singleton in Hc.
Qed.

Lemma excludeSender_filter senderEmail emails acc :
  excludeSender senderEmail emails acc
    = acc ++ filter (λ e, e ≠ senderEmail ∧ e ≠ "") emails.
Proof.
  revert acc. induction emails as [|e emails IH]; intros acc; simpl.
  - by rewrite app_nil_r.
  - rewrite filter_cons. case_decide; rewrite IH; [|done].
    by rewrite <- app_assoc.
Qed.

(** A mail is only ever dispatched from [processMessage]. *)
Lemma dispatch_from_processMessage net read mail :
  background (HandleWebhook net read) = Some mail →
  ∃ body event userID,
    read = inl body ∧
    Unmarshal_SlackEvent body = inl event ∧
    GetUserIDForTeam (se_TeamID event) = Some userID ∧
    ev_Type (se_Event event) = "message" ∧
    HandleWebhook net read
      = processMessage net event userID [TeamLookup (se_TeamID event)].
Proof.
  unfold HandleWebhook. destruct read as [body|e]; [|done].
  assert (Hev : ∀ run, background run = Some mail → run = handleEvent net body →
    ∃ event userID, Unmarshal_SlackEvent body = inl event ∧
      GetUserIDForTeam (se_TeamID event) = Some userID ∧
      ev_Type (se_Event event) = "message" ∧
      run = processMessage net event userID [TeamLookup (se_TeamID event)]).
  { intros run Hbg ->. revert Hbg. unfold handleEvent.
    destruct (Unmarshal_SlackEvent body) as [event|e]; [|done].
    destruct (decide (se_Type event = "event_callback")); [|discriminate].
    destruct (decide (se_TeamID event = "")); [discriminate|].
    destruct (GetUserIDForTeam (se_TeamID event)) as [userID|] eqn:Hu; [|discriminate].
    destruct (decide (ev_Type (se_Event event) = "message")); [|discriminate].
    destruct (decide _); [discriminate|]. eauto 10. }
  destruct (Unmarshal_SlackChallenge body) as [c|e].
  - case_decide; [done|]. intros Hbg.
    destruct (Hev _ Hbg eq_refl) as (event & userID & ? & ? & ? & ?). eauto 10.
  - intros Hbg.
    destruct (Hev _ Hbg eq_refl) as (event & userID & ? & ? & ? & ?). eauto 10.
Qed.

(** C1 (amended). Whenever the handler dispatches a mail, the recipient
    list it passes on is the list of addresses returned by the member
    resolution, in the order they arrived and each as often as it
    arrived (duplicates are kept), without the entries equal to the
    address resolved for the sender; so the addresses in it are those
    of the members minus the sender's, and it never contains the
    sender's resolved address.  The mail's To field is that list joined
    by commas. *)
Theorem recipients_exclude_sender net read mail :
  background (HandleWebhook net read) = Some mail →
  ∃ body event userID senderEmail senderErr lookups emails,
    read = inl body ∧
    Unmarshal_SlackEvent body = inl event ∧
    GetUserIDForTeam (se_TeamID event) = Some userID ∧
    getUserEmail Sprint credentials (sender_info net) userID (ev_User (se_Event event))
      = Returns (senderEmail, senderErr) ∧
    GetChannelMembers Sprint credentials net userID (ev_Channel (se_Event event))
      = (lookups, Returns (emails, None)) ∧
    recipients (HandleWebhook net read)
      = filter (λ e, e ≠ senderEmail ∧ e ≠ "") emails ∧
    m_to mail = Join (recipients (HandleWebhook net read)) "," ∧
    (∀ e, e ∈ recipients (HandleWebhook net read)
          ↔ e ∈ emails ∧ e ≠ senderEmail ∧ e ≠ "") ∧
    senderEmail ∉ recipients (HandleWebhook net read).
Proof.
  intros Hbg.
  destruct (dispatch_from_processMessage net read mail Hbg)
    as (body & event & userID & -> & Hev & Hteam & _ & Hrun).
  rewrite Hrun in Hbg |- *. clear Hrun. revert Hbg. unfold processMessage.
  destruct (getUserEmail _ _ _ _ _) as [[senderEmail senderErr]|] eqn:Hsender; [|done].
  destruct (GetChannelMembers _ _ _ _ _) as [lookups got] eqn:Hmem.
  destruct got as [[emails [err|]]|]; try done.
  case_decide as Hlen; [done|]. simpl. intros [= <-]. simpl.
  exists body, event, userID, senderEmail, senderErr, lookups, emails.
  rewrite excludeSender_filter. simpl.
  split_and!; try done.
  - intros e. rewrite list_elem_of_filter. tauto.
  - rewrite list_elem_of_filter. tauto.
Qed.

End Webhook.

(** ** The wire format and the scenarios of the specification *)
Section Scenarios.
Import auth slack.

Lemma wire_same_type_key :
  same_type_key wire.Unmarshal_SlackChallenge wire.Unmarshal_SlackEvent.
Proof.
  intros [[| | | | |m]|] challenge event; simpl; try discriminate.
  - by intros [= <-] [= <-].
  - unfold wire.bind.
    destruct (wire.field m "type") as [t|]; [|discriminate].
    destruct (wire.field m "challenge"); [|discriminate]. intros [= <-].
    destruct (wire.field m "team_id"); [|discriminate].
    destruct (wire.Unmarshal_InnerEvent _); [|discriminate].
    by intros [= <-].
Qed.

Lemma reverse_complete (net : Net) :
  arrival net = reverse → arrival_complete net.
Proof. intros H results. rewrite H. apply reverse_Permutation. Qed.

(** Scenario 1 of the specification: U1 is excluded as the sender, U3
    as publishing no address. *)
Example scenario_message :
  recipients (scenario.HandleWebhook scenario.net scenario.message_event) = ["b@x.com"] ∧
  background (scenario.HandleWebhook scenario.net scenario.message_event)
    = Some {| m_userID := "owner1"; m_to := "b@x.com";
              m_subject := "New Slack Message in Channel";
              m_messageText := "New Slack message received in channel from user U1:"
                                 +:+ LF +:+ LF +:+ "hi" |}.
Proof. split; vm_compute; reflexivity. Qed.

(** Scenario 2: a bot message is acknowledged and nothing is resolved
    or dispatched. *)
Example scenario_bot :
  scenario.HandleWebhook scenario.net scenario.bot_event
    = {| response := Some (http.mkResponse 200 http.NoBody);
         calls := [TeamLookup "T1"]; recipients := []; background := None |}.
Proof. vm_compute; reflexivity. Qed.

(** Scenario 3: an unmapped team is answered with 404 and nothing is
    resolved. *)
Example scenario_unmapped :
  scenario.HandleWebhook scenario.net scenario.unmapped_event
    = {| response := Some (utils.RespondError 404 "Integration not found");
         calls := [TeamLookup "T9"]; recipients := []; background := None |}.
Proof. vm_compute; reflexivity. Qed.

End Scenarios.

Lemma challenge_echoed_witness :
  ∃ data,
    scenario.HandleWebhook scenario.net (scenario.verification "3eZbrw1aB")
      = {| slack.response := Some {| http.StatusCode := 200; http.Body := http.JSON data |};
           slack.calls := []; slack.recipients := []; slack.background := None |} ∧
    data !! "challenge" = Some "3eZbrw1aB" ∧
    dom data = {[ "challenge" ]}.
Proof.
  apply (challenge_echoed wire.Sprint wire.Bytes wire.Unmarshal_SlackChallenge
           wire.Unmarshal_SlackEvent scenario.credentials scenario.GetUserIDForTeam
           scenario.net (scenario.verification "3eZbrw1aB")
           (slack.mkSlackChallenge "url_verification" "3eZbrw1aB")).
  - vm_compute; reflexivity.
  - reflexivity.
Defined.

(** C4 as stated fails: a callback whose inner kind is "reaction_added"
    and which carries no team identifier is answered with 400, not with a
    success status. *)
Lemma non_message_callback_without_team_rejected :
  ∃ event r,
    wire.Unmarshal_SlackEvent scenario.teamless_reaction = inl event ∧
    slack.se_Type event = "event_callback" ∧
    slack.ev_Type (slack.se_Event event) ≠ "message" ∧
    slack.response (scenario.HandleWebhook scenario.net scenario.teamless_reaction) = Some r ∧
    http.StatusCode r = http.StatusBadRequest ∧
    http.StatusCode r ≠ http.StatusOK.
Proof.
  eexists _, _. split; [vm_compute; reflexivity|]. simpl.
  split; [reflexivity|]. split; [discriminate|].
  split; [vm_compute; reflexivity|]. split; [reflexivity|]. discriminate.
Qed.

Lemma non_message_callback_witness :
  let run := scenario.HandleWebhook scenario.net scenario.reaction_event in
  slack.background run = None ∧
  slack.recipients run = [] ∧
  (∀ c, c ∈ slack.calls run → c = slack.TeamLookup "T1") ∧
  slack.response run = Some (http.mkResponse 200 (http.Text "Event received")).
Proof.
  apply (non_message_callback wire.Sprint wire.Bytes wire.Unmarshal_SlackChallenge
           wire.Unmarshal_SlackEvent scenario.credentials scenario.GetUserIDForTeam
           scenario.net scenario.reaction_event
           (slack.mkSlackEvent "event_callback" "T1"
              (slack.mkInnerEvent "reaction_added" "C1" "U1" "hi" "" ""))).
  - exact wire_same_type_key.
  - vm_compute; reflexivity.
  - reflexivity.
  - simpl; discriminate.
Defined.

(** C1 as stated fails: when U2 and U3 publish the same address, the
    list handed to the dispatch holds that address twice; it is not
    duplicate free and no rearrangement of the deduplicated,
    sender-excluded set of member addresses. *)
Lemma recipients_keep_duplicates :
  let run := scenario.HandleWebhook scenario.net_shared scenario.message_event in
  slack.recipients run = ["b@x.com"; "b@x.com"] ∧
  slack.m_to <$> slack.background run = Some "b@x.com,b@x.com" ∧
  ¬ NoDup (slack.recipients run) ∧
  ¬ slack.recipients run ≡ₚ
      filter (λ e, e ≠ "a@x.com") (remove_dups ["a@x.com"; "b@x.com"; "b@x.com"]).
Proof.
  assert (H : slack.recipients
                (scenario.HandleWebhook scenario.net_shared scenario.message_event)
              = ["b@x.com"; "b@x.com"]) by (vm_compute; reflexivity).
  simpl. rewrite H. split; [reflexivity|].
  split; [vm_compute; reflexivity|]. split.
  - intros Hnd. apply NoDup_cons in Hnd as [Hnot _].
    apply Hnot. apply list_elem_of_here.
  - intros Hp. apply Permutation_length in Hp. vm_compute in Hp. discriminate.
Qed.

Lemma recipients_exclude_sender_witness :
  ∃ body event userID senderEmail senderErr lookups emails,
    @inl wire.Bytes string scenario.message_event = inl body ∧
    wire.Unmarshal_SlackEvent body = inl event ∧
    scenario.GetUserIDForTeam (slack.se_TeamID event) = Some userID ∧
    slack.getUserEmail wire.Sprint scenario.credentials (slack.sender_info scenario.net)
        userID (slack.ev_User (slack.se_Event event))
      = slack.Returns (senderEmail, senderErr) ∧
    slack.GetChannelMembers wire.Sprint scenario.credentials scenario.net userID
        (slack.ev_Channel (slack.se_Event event))
      = (lookups, slack.Returns (emails, None)) ∧
    slack.recipients (scenario.HandleWebhook scenario.net scenario.message_event)
      = filter (λ e, e ≠ senderEmail ∧ e ≠ "") emails ∧
    slack.m_to (slack.mkMail "owner1" "b@x.com" "New Slack Message in Channel"
                  ("New Slack message received in channel from user U1:"
                     +:+ slack.LF +:+ slack.LF +:+ "hi"))
      = slack.Join
          (slack.recipients (scenario.HandleWebhook scenario.net scenario.message_event)) "," ∧
    (∀ e, e ∈ slack.recipients (scenario.HandleWebhook scenario.net scenario.message_event)
          ↔ e ∈ emails ∧ e ≠ senderEmail ∧ e ≠ "") ∧
    senderEmail ∉ slack.recipients
                    (scenario.HandleWebhook scenario.net scenario.message_event).
Proof.
  apply (recipients_exclude_sender wire.Sprint wire.Bytes wire.Unmarshal_SlackChallenge
           wire.Unmarshal_SlackEvent scenario.credentials scenario.GetUserIDForTeam
           scenario.net (inl scenario.message_event)).
  vm_compute; reflexivity.
Defined.



(** The sixty-member channel: lookups for U0 to U49 only, and the two
    addresses found among them. *)
Example crowd_resolution :
  let run := slack.GetChannelMembers wire.Sprint scenario.credentials
               scenario.net_crowd "owner1" "C1" in
  length scenario.crowd = 60%nat ∧
  length run.1 = 50%nat ∧
  last run.1 = Some (slack.EmailLookup "owner1" "U49") ∧
  run.2 = slack.Returns (["b@x.com"; "a@x.com"], None).
Proof. repeat split; vm_compute; reflexivity. Qed.

Lemma flaky_answers i id : slack.answers (slack.member_info scenario.net_flaky i id).
Proof.
  simpl. unfold scenario.flaky, scenario.directory, scenario.profile.
  repeat case_decide; simpl; try done; by exists true.
Qed.

Lemma getUserEmails_untyped_reply_panics_witness :
  (slack.getUserEmails wire.Sprint scenario.credentials scenario.net_untyped "owner1"
     (json.Str <$> ["U1"; "U2"; "U3"])).2 = slack.Panics.
Proof.
  apply (getUserEmails_untyped_reply_panics wire.Sprint scenario.credentials
           scenario.net_untyped "owner1" ["U1"; "U2"; "U3"] 1%nat "U2" "xoxb-1" ∅).
  - vm_compute; reflexivity.
  - reflexivity.
  - reflexivity.
  - intros ok. vm_compute. discriminate.
Defined.

(** Without the untyped reply the same channel resolves: U1 publishes
    an address, which the panic of U2's lookup keeps from being
    returned. *)
Example typed_channel_resolves :
  (slack.getUserEmails wire.Sprint scenario.credentials scenario.net "owner1"
     (json.Str <$> ["U1"; "U2"; "U3"])).2
    = slack.Returns (["a@x.com"; "b@x.com"], None).
Proof. vm_compute; reflexivity. Qed.

(** In that run two of the four lookups fail and one finds no address:
    the call still returns, with the one address found. *)
Example flaky_resolution :
  slack.getUserEmails wire.Sprint scenario.credentials scenario.net_flaky "owner1"
      (json.Str <$> ["U1"; "U2"; "U3"; "U2"])
    = (slack.EmailLookup "owner1" <$> ["U1"; "U2"; "U3"; "U2"],
       slack.Returns (["a@x.com"], None)).
Proof. vm_compute; reflexivity. Qed.

(** The unchecked type assertions are the one way out of the service
    that is neither a result nor an error: a reply without a boolean
    ["ok"], or a member that is not a string, ends [getUserEmails] in a
    panic. *)
Example untyped_reply_panics :
  slack.getUserEmails wire.Sprint scenario.credentials scenario.net_untyped "owner1"
      (json.Str <$> ["U1"; "U2"; "U3"])
    = (slack.EmailLookup "owner1" <$> ["U1"; "U2"; "U3"], slack.Panics).
Proof. vm_compute; reflexivity. Qed.

(** In the sixty-member channel the same reply ends the run with the
    lookups of the five goroutines that held a token. *)
Example crowd_panics :
  slack.GetChannelMembers wire.Sprint scenario.credentials scenario.net_crowd_untyped
      "owner1" "C1"
    = (slack.EmailLookup "owner1" <$> ["U0"; "U1"; "U2"; "U3"; "U4"], slack.Panics).
Proof. vm_compute; reflexivity. Qed.

Example untyped_member_panics :
  slack.getUserEmails wire.Sprint scenario.credentials scenario.net "owner1"
      [json.Str "U1"; json.Number "7"; json.Str "U3"]
    = ([slack.EmailLookup "owner1" "U1"], slack.Panics).
Proof. vm_compute; reflexivity. Qed.

(** ** Delivery with retries *)
Section Delivery.
Import auth gmail.

(** Unfold the loop and evaluate the attempt counter. *)
Ltac run_loop :=
  unfold retry; simpl;
  change (1 + 1 + 1) with 3; change (1 + 1) with 2.

Lemma retry_first {A} (call : Z → A + error) event a :
  call 1 = inl a → retry call event = ((Some a, None), policy event 1).
Proof. intros H. run_loop. by rewrite H. Qed.

Lemma retry_second {A} (call : Z → A + error) event e1 a :
  call 1 = inr e1 → call 2 = inl a →
  retry call event = ((Some a, None), policy event 2).
Proof. intros H1 H2. run_loop. by rewrite H1, H2. Qed.

Lemma retry_third {A} (call : Z → A + error) event e1 e2 a :
  call 1 = inr e1 → call 2 = inr e2 → call 3 = inl a →
  retry call event = ((Some a, None), policy event 3).
Proof. intros H1 H2 H3. run_loop. by rewrite H1, H2, H3. Qed.

Lemma retry_exhausted {A} (call : Z → A + error) event e1 e2 e3 :
  call 1 = inr e1 → call 2 = inr e2 → call 3 = inr e3 →
  retry call event = ((None, Some e3), policy event 3).
Proof. intros H1 H2 H3. run_loop. by rewrite H1, H2, H3. Qed.

(** More fuel than the four loop tests changes nothing. *)
Lemma loop_fuel {A} (call : Z → A + error) event fuel :
  loop call event (4 + fuel) 1 (1 * time.Second) (None, None) [] = retry call event.
Proof.
  run_loop.
  destruct (call 1); [done|]. destruct (call 2); [done|].
  destruct (call 3); [done|]. by destruct fuel.
Qed.

(** What one retry loop does, by the first attempt that succeeds. *)
Lemma retry_policy {A} (call : Z → A + error) event :
  (∃ err, exhausted call ∧ retry call event = ((None, Some err), policy event 3)) ∨
  (∃ n a, (1 ≤ n ≤ 3)%nat ∧ first_success call n ∧
          retry call event = ((Some a, None), policy event n)).
Proof.
  destruct (call 1) as [a|e1] eqn:H1.
  { right. exists 1%nat, a. split; [lia|]. split; [|by apply retry_first].
    split; [eauto|]. intros k Hk. lia. }
  destruct (call 2) as [a|e2] eqn:H2.
  { right. exists 2%nat, a. split; [lia|]. split; [|by eapply retry_second].
    split; [eauto|]. intros k Hk. assert (k = 1) as -> by lia. eauto. }
  destruct (call 3) as [a|e3] eqn:H3.
  { right. exists 3%nat, a. split; [lia|]. split; [|by eapply retry_third].
    split; [eauto|]. intros k Hk.
    assert (k = 1 ∨ k = 2) as [-> | ->] by lia; eauto. }
  left. exists e3. split; [|by eapply retry_exhausted].
  intros k Hk. assert (k = 1 ∨ k = 2 ∨ k = 3) as [-> | [-> | ->]] by lia; eauto.
Qed.

(** C6. In [SendEmail] the acquisition of the Gmail service and the
    submission of the message are each attempted at most three times,
    the submission with three attempts of its own however many the
    acquisition used; in each loop one second passes before the second
    attempt and two seconds before the third, and nothing is awaited
    after the third; when all three attempts of a loop fail, the call
    returns an error. *)
Theorem SendEmail_retry_policy g credentials userID to subject messageText :
  let acquire := λ attempt, GetGmailService (newService g attempt) credentials userID in
  let run := SendEmail g credentials userID to subject messageText in
  (exhausted acquire ∧ run.2 = policy GetService 3 ∧ ∃ err, run.1 = Err err) ∨
  ∃ n1, (1 ≤ n1 ≤ 3)%nat ∧ first_success acquire n1 ∧
    ((∃ err, getProfile g = inr err ∧
             run.2 = policy GetService n1 ++ [GetProfile] ∧ ∃ err', run.1 = Err err') ∨
     ∃ fromEmail, getProfile g = inl fromEmail ∧
       let raw := encode (message fromEmail to subject messageText) in
       let submit := λ attempt, send g attempt raw in
       ((exhausted submit ∧
         run.2 = policy GetService n1 ++ [GetProfile] ++ policy (λ a, Send a raw) 3 ∧
         ∃ err, run.1 = Err err) ∨
        ∃ n2, (1 ≤ n2 ≤ 3)%nat ∧ first_success submit n2 ∧
          run.2 = policy GetService n1 ++ [GetProfile] ++ policy (λ a, Send a raw) n2 ∧
          run.1 = Nil)).
Proof.
  intros acquire run. unfold run, SendEmail. fold acquire.
  destruct (retry_policy acquire GetService)
    as [(err & Hex & ->) | (n1 & srv & Hn1 & Hfirst & ->)].
  { left. simpl. eauto. }
  right. exists n1. split; [done|]. split; [done|].
  destruct (getProfile g) as [fromEmail|err].
  2:{ left. exists err. simpl. eauto. }
  right. exists fromEmail. split; [done|]. cbv zeta.
  set (raw := encode (message fromEmail to subject messageText)).
  set (submit := λ attempt, send g attempt raw).
  destruct (retry_policy submit (λ a, Send a raw))
    as [(err & Hex & ->) | (n2 & response & Hn2 & Hfirst2 & ->)].
  { left. simpl. rewrite <- app_assoc. eauto. }
  right. exists n2. simpl. rewrite <- app_assoc. eauto.
Qed.

(** The service arrives at the third attempt, all three submissions
    fail: five delays in all, and the error of the last submission. *)
Example delivery_exhausted :
  let raw := encode (message "owner1@x.com" "b@x.com" "S" "hi") in
  SendEmail scenario.google_down scenario.credentials "owner1" "b@x.com" "S" "hi"
    = (Err "unable to send email after retries: googleapi: Error 503",
       [GetService 1; Sleep (1 * time.Second); GetService 2; Sleep (2 * time.Second);
        GetService 3; GetProfile;
        Send 1 raw; Sleep (1 * time.Second); Send 2 raw; Sleep (2 * time.Second);
        Send 3 raw]).
Proof. vm_compute; reflexivity. Qed.

Example delivery_second_try :
  let raw := encode (message "owner1@x.com" "b@x.com" "S" "hi") in
  SendEmail scenario.google_slow scenario.credentials "owner1" "b@x.com" "S" "hi"
    = (Nil, [GetService 1; GetProfile; Send 1 raw; Sleep (1 * time.Second); Send 2 raw]).
Proof. vm_compute; reflexivity. Qed.

(** An owner without stored credentials: three attempts, two delays,
    no request to Google. *)
Example delivery_without_credentials :
  SendEmail scenario.google_slow scenario.credentials "owner2" "b@x.com" "S" "hi"
    = (Err ("unable to retrieve Gmail service after retries: "
              +:+ "failed to get credentials: no credentials found for user owner2"),
       [GetService 1; Sleep (1 * time.Second); GetService 2; Sleep (2 * time.Second);
        GetService 3]).
Proof. vm_compute; reflexivity. Qed.

(** A retry loop leaves its two variables in one of two shapes: a value
    and no error, or an error and no value. *)
Lemma retry_vars {A} (call : Z → A + error) event :
  (∃ err, (retry call event).1 = (None, Some err)) ∨
  (∃ a, (retry call event).1 = (Some a, None)).
Proof.
  destruct (retry_policy call event) as [(err & _ & ->) | (n & a & _ & _ & ->)]; eauto.
Qed.

(** X26. [SendEmail] never dereferences a nil service or response:
    after either retry loop the error is nil only when the loop left a
    value behind. *)
Lemma SendEmail_no_nil_dereference g credentials userID to subject messageText :
  (SendEmail g credentials userID to subject messageText).1 ≠ NilDereference.
Proof.
  unfold SendEmail.
  destruct (retry _ GetService) as [[srv err] trace] eqn:Hacq.
  destruct (retry_vars (λ attempt, GetGmailService (newService g attempt) credentials userID)
              GetService) as [[e He] | [a Ha]];
    rewrite Hacq in *; simplify_eq/=; [done|].
  destruct (getProfile g) as [fromEmail|e]; [|done].
  destruct (retry _ (λ attempt, Send attempt _)) as [[response err] sending] eqn:Hsend.
  destruct (retry_vars (λ attempt, send g attempt
                          (encode (message fromEmail to subject messageText)))
              (λ attempt, Send attempt (encode (message fromEmail to subject messageText))))
    as [[e He] | [r Hr]];
    rewrite Hsend in *; simplify_eq/=; done.
Qed.

End Delivery.


(** ** Bounded fan-out *)
Section Pool.
Import slack pool.
Variable userIDs : list string.
Variable lookup : nat → emailResult.

#[local] Abbreviation step := (step userIDs lookup).
#[local] Abbreviation reachable := (reachable userIDs lookup).

Lemma holders_app l k : holders (l ++ k) = (holders l + holders k)%nat.
Proof. unfold holders. by rewrite filter_app, length_app. Qed.

Lemma holders_cons p l : holders (p :: l) = (bit (holds_token p) + holders l)%nat.
Proof.
  unfold holders. rewrite filter_cons.
  destruct (decide (holds_token p = true)) as [H|H];
    destruct (holds_token p); simpl; congruence.
Qed.

(** Moving one goroutine changes the number of holders by the
    difference of the two positions. *)
Lemma holders_insert l i p q :
  l !! i = Some p →
  (holders (<[i := q]> l) + bit (holds_token p)
     = holders l + bit (holds_token q))%nat.
Proof.
  revert i. induction l as [|x l IH]; intros [|i] Hi; simplify_eq/=.
  - rewrite !holders_cons. lia.
  - rewrite !holders_cons. specialize (IH i Hi). lia.
Qed.

Lemma in_flight_le_holders s : (in_flight s ≤ holders (goroutines s))%nat.
Proof.
  unfold in_flight, holders.
  induction (goroutines s) as [|p l IH]; [done|].
  rewrite !filter_cons. destruct p; simpl; repeat case_decide; simpl; try done; lia.
Qed.

Lemma token_invariant_init : token_invariant (init userIDs).
Proof. split; [reflexivity | unfold limit; simpl; lia]. Qed.

Lemma token_invariant_step s s' :
  token_invariant s → step s s' → token_invariant s'.
Proof.
  intros [Hh Hcap] Hstep. unfold token_invariant.
  destruct Hstep as [s u rest Hp | s i Hi Hroom | s i Hi | s i Hi Hroom
                    | s i tokens Hi Htok | s i n Hi Hn | s | s r rest | s]; simpl;
    try (split; [exact Hh | exact Hcap]).
  - rewrite holders_app. change (holders [Waiting]) with 0%nat. split; lia.
  - pose proof (holders_insert _ _ _ Calling Hi) as H. simpl in H. split; lia.
  - pose proof (holders_insert _ _ _ Returned Hi) as H. simpl in H. split; lia.
  - pose proof (holders_insert _ _ _ Sent Hi) as H. simpl in H. split; lia.
  - pose proof (holders_insert _ _ _ Released Hi) as H. simpl in H. split; lia.
  - pose proof (holders_insert _ _ _ Finished Hi) as H. simpl in H. split; lia.
Qed.

Lemma token_invariant_reachable s : reachable s → token_invariant s.
Proof.
  intros Hr.
  apply (rtc_ind_r (R := step) token_invariant (init userIDs)); [| |exact Hr].
  - apply token_invariant_init.
  - intros y z _ Hstep IH. by eapply token_invariant_step.
Qed.

(** C9. In every state the goroutines of [getUserEmails] can reach,
    under any interleaving and for any number of identifiers, at most
    five of them are inside [getUserEmail]. *)
Theorem at_most_five_in_flight s :
  reachable s → (in_flight s ≤ 5)%nat.
Proof.
  intros Hr. destruct (token_invariant_reachable s Hr) as [Hh Hcap].
  pose proof (in_flight_le_holders s). unfold limit in Hcap. lia.
Qed.

(** With five lookups in flight no further goroutine can enter. *)
Lemma sixth_waits s s' i :
  reachable s → in_flight s = 5%nat →
  goroutines s !! i = Some Waiting →
  step s s' → goroutines s' !! i = Some Waiting.
Proof.
  intros Hr Hfive Hi Hstep.
  destruct (token_invariant_reachable s Hr) as [Hh Hcap].
  pose proof (in_flight_le_holders s) as Hle. unfold limit in *.
  destruct Hstep as [s u rest Hp | s j Hj Hroom | s j Hj | s j Hj Hroom
                    | s j tokens Hj Htok | s j n Hj Hn | s | s r rest | s]; simpl;
    unfold limit in *; try done; try lia;
    try (destruct (decide (j = i)) as [->|]; [congruence|];
         by rewrite list_lookup_insert_ne).
  by apply lookup_app_l_Some.
Qed.

(** *** What the collecting loop receives *)

#[local] Abbreviation sent_results := (sent_results lookup).
#[local] Abbreviation collection_invariant := (collection_invariant userIDs lookup).

Lemma unfinished_cons p l :
  unfinished (p :: l) = (bit (bool_decide (p ≠ Finished)) + unfinished l)%nat.
Proof.
  unfold unfinished. rewrite filter_cons.
  destruct (decide (p ≠ Finished)) as [H|H].
  - by rewrite bool_decide_eq_true_2.
  - by rewrite bool_decide_eq_false_2.
Qed.

Lemma unfinished_app l k : unfinished (l ++ k) = (unfinished l + unfinished k)%nat.
Proof. unfold unfinished. by rewrite filter_app, length_app. Qed.

Lemma unfinished_insert l i p q :
  l !! i = Some p →
  (unfinished (<[i := q]> l) + bit (bool_decide (p ≠ Finished))
     = unfinished l + bit (bool_decide (q ≠ Finished)))%nat.
Proof.
  revert i. induction l as [|x l IH]; intros [|i] Hi; simplify_eq/=.
  - rewrite !unfinished_cons. lia.
  - rewrite !unfinished_cons. specialize (IH i Hi). lia.
Qed.

Lemma unfinished_pos l i p :
  l !! i = Some p → p ≠ Finished → (0 < unfinished l)%nat.
Proof.
  revert i. induction l as [|x l IH]; intros [|i] Hi Hp; simplify_eq/=.
  - rewrite unfinished_cons, bool_decide_eq_true_2 by done. simpl. lia.
  - rewrite unfinished_cons. specialize (IH i Hi Hp). lia.
Qed.

Lemma sent_results_app i l k :
  sent_results i (l ++ k) = sent_results i l ++ sent_results (i + length l) k.
Proof.
  revert i. induction l as [|p l IH]; intros i; simpl.
  - by rewrite Nat.add_0_r.
  - rewrite IH. replace (S i + length l)%nat with (i + S (length l))%nat by lia.
    by destruct (has_sent p).
Qed.

(** A move that does not cross the send leaves the sent results as they
    are. *)
Lemma sent_results_insert_same i l j p q :
  l !! j = Some p → has_sent q = has_sent p →
  sent_results i (<[j := q]> l) = sent_results i l.
Proof.
  revert i j. induction l as [|x l IH]; intros i [|j] Hj Hpq; simplify_eq/=.
  - by rewrite Hpq.
  - by rewrite (IH (S i) j).
Qed.

(** The send adds the result of the sending goroutine. *)
Lemma sent_results_insert_send i l j p q :
  l !! j = Some p → has_sent p = false → has_sent q = true →
  sent_results i (<[j := q]> l) ≡ₚ lookup (i + j) :: sent_results i l.
Proof.
  revert i j. induction l as [|x l IH]; intros i [|j] Hj Hp Hq; simplify_eq/=.
  - by rewrite Hp, Hq, Nat.add_0_r.
  - specialize (IH (S i) j Hj Hp Hq).
    replace (S i + j)%nat with (i + S j)%nat in IH by lia.
    destruct (has_sent x); [|done].
    rewrite IH. apply Permutation_swap.
Qed.

(** Once all goroutines have finished, the sent results are the results
    of all of them. *)
Lemma sent_results_all i l :
  unfinished l = 0%nat → sent_results i l = lookup <$> seq i (length l).
Proof.
  revert i. induction l as [|p l IH]; intros i Hl; [done|].
  rewrite unfinished_cons in Hl. simpl.
  destruct (decide (p = Finished)) as [->|Hp].
  - simpl. rewrite IH; [done|]. rewrite bool_decide_eq_false_2 in Hl by auto. done.
  - rewrite bool_decide_eq_true_2 in Hl by done. simpl in Hl. lia.
Qed.

Lemma collect_app a b acc : collect (a ++ b) acc = collect b (collect a acc).
Proof. rewrite !collect_omap, omap_app. by rewrite app_assoc. Qed.

Lemma collection_invariant_init : collection_invariant (init userIDs).
Proof.
  unfold pool.collection_invariant. simpl. split_and!; try done.
  by exists [].
Qed.

(** A goroutine that moves on without sending and without finishing. *)
Lemma collection_invariant_move s i p q :
  collection_invariant s →
  goroutines s !! i = Some p →
  p ≠ Finished → q ≠ Finished → has_sent q = has_sent p →
  ∀ tokens,
    collection_invariant
      {| pending := pending s; goroutines := <[i := q]> (goroutines s);
         semaphore := tokens; resultChan := resultChan s; wg := wg s;
         closed := closed s; emails := emails s; returned := returned s |}.
Proof.
  intros (Hlen & Hwg & Hclosed & Hret & received & Hem & Hperm) Hi Hp Hq Hpq tokens.
  unfold pool.collection_invariant. simpl. split_and!; try done.
  - by rewrite length_insert.
  - pose proof (unfinished_insert _ _ _ q Hi) as H.
    rewrite !bool_decide_eq_true_2 in H by done. lia.
  - exists received. split; [done|]. by rewrite (sent_results_insert_same _ _ _ p).
Qed.

Lemma collection_invariant_step s s' :
  collection_invariant s → step s s' → collection_invariant s'.
Proof.
  intros Hinv Hstep.
  destruct Hstep as [s u rest Hp | s i Hi Hroom | s i Hi | s i Hi Hroom
                    | s i tokens Hi Htok | s i n Hi Hn | s Hp Hn Hc
                    | s r rest Hp Hr Hchan | s Hp Hr Hchan Hc].
  - (* launch *)
    destruct Hinv as (Hlen & Hwg & Hclosed & Hret & received & Hem & Hperm).
    unfold pool.collection_invariant. simpl. split_and!.
    + rewrite length_app. rewrite Hp in Hlen. simpl in *. lia.
    + rewrite unfinished_app, Hwg. change (unfinished [Waiting]) with 1%nat. lia.
    + intros Hc. destruct (Hclosed Hc) as [Hnil _]. congruence.
    + intros Hr. destruct (Hret Hr) as [Hc _].
      destruct (Hclosed Hc) as [Hnil _]. congruence.
    + exists received. split; [done|].
      rewrite sent_results_app. simpl. by rewrite app_nil_r.
  - by apply (collection_invariant_move s i Waiting Calling).
  - by apply (collection_invariant_move s i Calling Returned).
  - (* send *)
    destruct Hinv as (Hlen & Hwg & Hclosed & Hret & received & Hem & Hperm).
    assert (Hopen : closed s = false).
    { destruct (closed s) eqn:Hc; [|done]. destruct (Hclosed eq_refl) as [_ Hz].
      pose proof (unfinished_pos _ _ _ Hi) as Hpos. rewrite <- Hwg in Hpos.
      specialize (Hpos ltac:(done)). lia. }
    unfold pool.collection_invariant. simpl. split_and!.
    + by rewrite length_insert.
    + pose proof (unfinished_insert _ _ _ Sent Hi) as H.
      rewrite !bool_decide_eq_true_2 in H by done. lia.
    + intros Hc. congruence.
    + intros Hr. destruct (Hret Hr) as [Hc _]. congruence.
    + exists received. split; [done|].
      rewrite (sent_results_insert_send _ _ _ Returned Sent) by done.
      rewrite app_assoc, <- Hperm. simpl.
      by rewrite <- Permutation_cons_append.
  - by apply (collection_invariant_move s i Sent Released).
  - (* done *)
    destruct Hinv as (Hlen & Hwg & Hclosed & Hret & received & Hem & Hperm).
    unfold pool.collection_invariant. simpl. split_and!.
    + by rewrite length_insert.
    + pose proof (unfinished_insert _ _ _ Finished Hi) as H.
      rewrite bool_decide_eq_true_2 in H by done.
      rewrite bool_decide_eq_false_2 in H by auto. simpl in H. lia.
    + intros Hc. destruct (Hclosed Hc) as [_ Hz]. lia.
    + intros Hr. destruct (Hret Hr) as [Hc _].
      destruct (Hclosed Hc) as [_ Hz]. lia.
    + exists received. split; [done|].
      by rewrite (sent_results_insert_same _ _ _ Released).
  - (* close *)
    destruct Hinv as (Hlen & Hwg & Hclosed & Hret & received & Hem & Hperm).
    unfold pool.collection_invariant. simpl. split_and!; try done.
    + intros Hr. destruct (Hret Hr) as [_ Hnil]. done.
    + by exists received.
  - (* receive *)
    destruct Hinv as (Hlen & Hwg & Hclosed & Hret & received & Hem & Hperm).
    unfold pool.collection_invariant. split_and!; try done.
    + simpl. intros Hr'. congruence.
    + exists (received ++ [r]). split.
      * cbn [emails]. by rewrite collect_app, <- Hem.
      * cbn [resultChan goroutines]. rewrite <- Hperm, Hchan.
        by rewrite <- app_assoc.
  - (* exit *)
    destruct Hinv as (Hlen & Hwg & Hclosed & Hret & received & Hem & Hperm).
    unfold pool.collection_invariant. simpl. split_and!; try done.
    by exists received.
Qed.

Lemma collection_invariant_reachable s : reachable s → collection_invariant s.
Proof.
  intros Hr.
  apply (rtc_ind_r (R := step) collection_invariant (init userIDs)); [| |exact Hr].
  - apply collection_invariant_init.
  - intros y z _ Hstep IH. by eapply collection_invariant_step.
Qed.

(** X15. When [getUserEmails] returns, the collecting loop has received
    the result of every goroutine exactly once, in some order: the slice it
    returns is [collect] run on a rearrangement of all results. *)
Theorem collects_every_result s :
  reachable s → returned s = true →
  ∃ arrival,
    arrival ≡ₚ lookup <$> seq 0 (length userIDs) ∧
    emails s = collect arrival [].
Proof.
  intros Hr Hret.
  destruct (collection_invariant_reachable s Hr)
    as (Hlen & Hwg & Hclosed & Hreturned & received & Hem & Hperm).
  destruct (Hreturned Hret) as [Hc Hnil].
  destruct (Hclosed Hc) as [Hpend Hz].
  exists received. split; [|done].
  rewrite Hnil, app_nil_r in Hperm. rewrite Hperm.
  rewrite sent_results_all by congruence.
  rewrite Hpend in Hlen. simpl in Hlen. by rewrite <- Hlen, Nat.add_0_r.
Qed.

(** *** Progress *)

Lemma work_insert (l : list pc) i p q :
  l !! i = Some p →
  (sum_list_with work (<[i := q]> l) + work p = sum_list_with work l + work q)%nat.
Proof.
  revert i. induction l as [|x l IH]; intros [|i] Hi; simplify_eq/=.
  - lia.
  - specialize (IH i Hi). lia.
Qed.

(** Every step uses up one unit of the remaining work: no execution has
    more than [remaining (init userIDs)] steps. *)
Lemma step_decreases s s' : step s s' → (remaining s' < remaining s)%nat.
Proof.
  intros Hstep.
  destruct Hstep as [s u rest Hp | s i Hi Hroom | s i Hi | s i Hi Hroom
                    | s i tokens Hi Htok | s i n Hi Hn | s Hp Hn Hc
                    | s r rest Hp Hr Hchan | s Hp Hr Hchan Hc];
    unfold remaining; simpl;
    try (match goal with
         | H : goroutines _ !! _ = Some _ |- context [<[_ := ?q]> _] =>
             pose proof (work_insert _ _ _ q H) as Hw; simpl in Hw
         end).
  - rewrite Hp, sum_list_with_app. simpl. lia.
  - lia.
  - lia.
  - rewrite length_app. simpl. lia.
  - lia.
  - lia.
  - rewrite Hc. simpl. lia.
  - rewrite Hchan. simpl. lia.
  - rewrite Hr. simpl. lia.
Qed.

Lemma holders_pos l i p :
  l !! i = Some p → holds_token p = true → (0 < holders l)%nat.
Proof.
  revert i. induction l as [|x l IH]; intros [|i] Hi Hp; simplify_eq/=.
  - rewrite holders_cons, Hp. simpl. lia.
  - rewrite holders_cons. specialize (IH i Hi Hp). lia.
Qed.

Lemma holders_none l :
  Forall (λ p, p = Waiting ∨ p = Finished) l → holders l = 0%nat.
Proof.
  induction 1 as [|p l [-> | ->] _ IH]; [done| |]; by rewrite holders_cons, IH.
Qed.

Lemma unfinished_none l : Forall (λ p, p = Finished) l → unfinished l = 0%nat.
Proof.
  induction 1 as [|p l -> _ IH]; [done|].
  by rewrite unfinished_cons, IH, bool_decide_eq_false_2 by auto.
Qed.

(** The results sent are at most one per goroutine, and fewer while a
    goroutine has not sent. *)
Lemma sent_results_length i l : (length (sent_results i l) ≤ length l)%nat.
Proof.
  revert i. induction l as [|p l IH]; intros i; simpl; [done|].
  specialize (IH (S i)). destruct (has_sent p); simpl; lia.
Qed.

Lemma sent_results_room i l j p :
  l !! j = Some p → has_sent p = false →
  (length (sent_results i l) < length l)%nat.
Proof.
  revert i j. induction l as [|x l IH]; intros i [|j] Hj Hp; simplify_eq/=.
  - rewrite Hp. pose proof (sent_results_length (S i) l). lia.
  - specialize (IH (S i) j Hj Hp). destruct (has_sent x); simpl; lia.
Qed.

(** No deadlock: until [getUserEmails] has returned, some step is
    enabled.  In particular the send on [resultChan] never blocks. *)
Lemma step_enabled s :
  reachable s → returned s = false → ∃ s', step s s'.
Proof.
  intros Hr Hret.
  destruct (token_invariant_reachable s Hr) as [Hh Hcap].
  destruct (collection_invariant_reachable s Hr)
    as (Hlen & Hwg & Hclosed & _ & received & _ & Hperm).
  destruct (pending s) as [|u rest] eqn:Hp.
  2:{ eexists. by eapply step_launch. }
  destruct (decide (Exists (λ p, p ≠ Waiting ∧ p ≠ Finished) (goroutines s)))
    as [Hbusy|Hidle].
  { apply Exists_exists in Hbusy as (p & Hin & Hw & Hf).
    apply list_elem_of_lookup in Hin as [i Hi].
    destruct p; try done.
    - eexists. by eapply step_return.
    - eexists. eapply step_send; [done|].
      pose proof (sent_results_room 0 _ _ _ Hi eq_refl) as Hroom.
      apply Permutation_length in Hperm. rewrite length_app in Hperm. lia.
    - pose proof (holders_pos _ _ _ Hi eq_refl).
      destruct (semaphore s) as [|tokens] eqn:Hs; [lia|].
      eexists. by eapply step_release.
    - pose proof (unfinished_pos _ _ _ Hi ltac:(done)).
      destruct (wg s) as [|n] eqn:Hn; [lia|].
      eexists. by eapply step_done. }
  assert (Hrest : Forall (λ p, p = Waiting ∨ p = Finished) (goroutines s)).
  { apply Forall_forall. intros p Hin.
    destruct (decide (p = Waiting)); [by left|].
    destruct (decide (p = Finished)); [by right|].
    exfalso. apply Hidle, Exists_exists. eauto. }
  destruct (decide (Exists (λ p, p = Waiting) (goroutines s))) as [Hwait|Hnone].
  { apply Exists_exists in Hwait as (p & Hin & ->).
    apply list_elem_of_lookup in Hin as [i Hi].
    eexists. eapply step_acquire; [done|].
    rewrite <- Hh, holders_none by done. unfold limit. lia. }
  assert (Hfin : Forall (λ p, p = Finished) (goroutines s)).
  { apply Forall_forall. intros p Hin.
    destruct (proj1 (Forall_forall _ _) Hrest p Hin) as [-> | ->]; [|done].
    exfalso. apply Hnone, Exists_exists. eauto. }
  assert (Hzero : wg s = 0%nat) by by rewrite Hwg, unfinished_none.
  destruct (closed s) eqn:Hc.
  2:{ eexists. by eapply step_close. }
  destruct (resultChan s) as [|r rest] eqn:Hchan.
  - eexists. by eapply step_exit.
  - eexists. by eapply step_receive.
Qed.

(** X16. [getUserEmails] returns: from every reachable state the
    goroutines can run on to a state in which the function has returned, and by
    [step_decreases] every run gets there. *)
Theorem returns s :
  reachable s → ∃ s', rtc step s s' ∧ returned s' = true.
Proof.
  remember (remaining s) as n eqn:Hn. revert s Hn.
  induction n as [n IH] using lt_wf_ind. intros s -> Hr.
  destruct (returned s) eqn:Hret; [by exists s|].
  destruct (step_enabled s Hr Hret) as [s1 Hstep].
  destruct (IH (remaining s1) (step_decreases _ _ Hstep) s1 eq_refl) as (s' & Hrun & Hdone).
  { by eapply rtc_r. }
  exists s'. split; [by eapply rtc_l | done].
Qed.

End Pool.

Lemma two_launched_reachable lookup :
  pool.reachable ["U1"; "U2"; "U3"] lookup scenario.two_launched.
Proof.
  unfold pool.reachable.
  eapply rtc_l; [by eapply pool.step_launch|]. simpl.
  eapply rtc_l; [by eapply pool.step_launch|]. simpl.
  eapply rtc_l; [eapply (pool.step_acquire _ _ _ 0%nat); [reflexivity|]|].
  { unfold pool.limit; simpl; lia. }
  apply rtc_refl.
Qed.

(** The bound is attained: with six identifiers, five lookups can be in
    flight at once. *)
Example five_in_flight lookup :
  pool.reachable (scenario.uid <$> seq 0 6) lookup scenario.five_calling ∧
  pool.in_flight scenario.five_calling = 5%nat.
Proof.
  split; [|reflexivity]. unfold pool.reachable.
  do 6 (eapply rtc_l; [by eapply pool.step_launch|]; simpl).
  eapply rtc_l; [eapply (pool.step_acquire _ _ _ 0%nat); [done | cbv; lia]|]; simpl.
  eapply rtc_l; [eapply (pool.step_acquire _ _ _ 1%nat); [done | cbv; lia]|]; simpl.
  eapply rtc_l; [eapply (pool.step_acquire _ _ _ 2%nat); [done | cbv; lia]|]; simpl.
  eapply rtc_l; [eapply (pool.step_acquire _ _ _ 3%nat); [done | cbv; lia]|]; simpl.
  eapply rtc_l; [eapply (pool.step_acquire _ _ _ 4%nat); [done | cbv; lia]|]; simpl.
  apply rtc_refl.
Qed.

Lemma at_most_five_in_flight_witness :
  pool.in_flight scenario.two_launched = 1%nat ∧
  (pool.in_flight scenario.two_launched ≤ 5)%nat.
Proof.
  split; [reflexivity|].
  apply (at_most_five_in_flight ["U1"; "U2"; "U3"]
           (λ i, slack.mkEmailResult "U" "" None) scenario.two_launched).
  apply two_launched_reachable.
Defined.

(** * Further properties *)

(** ** State tokens: issuance, cleanup, independence *)
Section MoreStateTokens.
Import auth.
Implicit Types (states : gmap string OAuthState) (state : string).

Lemma After_false t u : t ≤ u → time.After t u = false.
Proof. intros H. unfold time.After. apply bool_decide_eq_false_2. lia. Qed.

Lemma After_true t u : u < t → time.After t u = true.
Proof. intros H. unfold time.After. by apply bool_decide_eq_true_2. Qed.

Lemma cleanupExpiredStates_lookup now states state :
  cleanupExpiredStates now states !! state
    = d ← states !! state; if time.After now (os_Expiry d) then None else Some d.
Proof.
  unfold cleanupExpiredStates. destruct (states !! state) as [d|] eqn:E; simpl.
  - destruct (time.After now (os_Expiry d)) eqn:Ha.
    + apply map_lookup_filter_None. right. intros d' Hd'. simpl. congruence.
    + apply map_lookup_filter_Some. done.
  - apply map_lookup_filter_None. by left.
Qed.

(** X1. A token issued by [GenerateState] validates, once, for the user
    it was issued for, when it is presented no later than fifteen minutes
    after issuance (the cleanup of the issuing call having run within
    that time as well). *)
Theorem issued_token_validates rnd now now' userID states state states1 now2 :
  GenerateState rnd now now' userID states = ((state, None), states1) →
  now' ≤ now + 15 * time.Minute →
  now2 ≤ now + 15 * time.Minute →
  ValidateState now2 state states1 = ((userID, true), delete state states1).
Proof.
  intros Hg Hsweep Hnow2. destruct rnd as [b|e]; simpl in Hg; [|congruence].
  injection Hg as <- <-.
  unfold ValidateState. rewrite cleanupExpiredStates_lookup, lookup_insert_eq. simpl.
  unfold time.Add. rewrite After_false by lia. simpl.
  by rewrite After_false by lia.
Qed.

Lemma issued_token_validates_witness :
  let s1 := (GenerateState (inl [Byte.x01; Byte.x02; Byte.x03]) 0 2 "owner1"
               NewOAuthStateStore).2 in
  ValidateState (15 * time.Minute) "AQID" s1 = (("owner1", true), delete "AQID" s1).
Proof.
  intros s1.
  apply (issued_token_validates (inl [Byte.x01; Byte.x02; Byte.x03]) 0 2 "owner1"
           NewOAuthStateStore "AQID" s1 (15 * time.Minute)).
  - vm_compute; reflexivity.
  - vm_compute; discriminate.
  - vm_compute; discriminate.
Defined.

(** X2. After a successful [GenerateState] the store holds no entry that
    was expired when its cleanup ran; the entries that were not expired
    then are all still there, and nothing but the new token was added. *)
Theorem GenerateState_sweeps rnd now now' userID states state states1 :
  GenerateState rnd now now' userID states = ((state, None), states1) →
  (∀ k d, states1 !! k = Some d → now' ≤ os_Expiry d) ∧
  (∀ k d, k ≠ state → states !! k = Some d → now' ≤ os_Expiry d →
          states1 !! k = Some d) ∧
  (∀ k d, k ≠ state → states1 !! k = Some d → states !! k = Some d).
Proof.
  intros Hg. destruct rnd as [b|e]; simpl in Hg; [|congruence].
  injection Hg as <- <-. split_and!.
  - intros k d. rewrite cleanupExpiredStates_lookup.
    destruct (_ !! k) as [d'|]; simpl; [|done].
    destruct (time.After now' (os_Expiry d')) eqn:Ha; [done|].
    intros [= <-]. unfold time.After in Ha. apply bool_decide_eq_false_1 in Ha. lia.
  - intros k d Hk Hd Hexp.
    rewrite cleanupExpiredStates_lookup, lookup_insert_ne, Hd by done. simpl.
    by rewrite After_false.
  - intros k d Hk. rewrite cleanupExpiredStates_lookup, lookup_insert_ne by done.
    destruct (states !! k) as [d'|]; simpl; [|done].
    by destruct (time.After now' (os_Expiry d')); intros [= <-].
Qed.

Lemma GenerateState_sweeps_witness :
  let s0 : gmap string OAuthState :=
    {[ "old" := mkOAuthState "owner0" 10; "live" := mkOAuthState "owner2" 500 ]} in
  let s1 := (GenerateState (inl [Byte.x01; Byte.x02; Byte.x03]) 100 100 "owner1" s0).2 in
  (∀ k d, s1 !! k = Some d → 100 ≤ os_Expiry d) ∧
  (∀ k d, k ≠ "AQID" → s0 !! k = Some d → 100 ≤ os_Expiry d → s1 !! k = Some d) ∧
  (∀ k d, k ≠ "AQID" → s1 !! k = Some d → s0 !! k = Some d).
Proof.
  intros s0 s1.
  apply (GenerateState_sweeps (inl [Byte.x01; Byte.x02; Byte.x03]) 100 100 "owner1" s0).
  vm_compute; reflexivity.
Defined.

(** In that store the expired entry is gone and the live one is kept. *)
Example sweep_example :
  let s0 : gmap string OAuthState :=
    {[ "old" := mkOAuthState "owner0" 10; "live" := mkOAuthState "owner2" 500 ]} in
  let s1 := (GenerateState (inl [Byte.x01; Byte.x02; Byte.x03]) 100 100 "owner1" s0).2 in
  s1 !! "old" = None ∧ s1 !! "live" = Some (mkOAuthState "owner2" 500) ∧
  os_UserID <$> s1 !! "AQID" = Some "owner1".
Proof. repeat split; vm_compute; reflexivity. Qed.

Lemma call_step_spares c state d states :
  spares state (os_Expiry d) c →
  states !! state = Some d → call_step states c !! state = Some d.
Proof.
  intros Hc Hs. destruct c as [[b|e] now now' uid | now st]; simpl in *.
  - destruct Hc as [Hne Hexp].
    rewrite cleanupExpiredStates_lookup, lookup_insert_ne, Hs by done. simpl.
    by rewrite After_false.
  - done.
  - unfold ValidateState. destruct (states !! st) as [d'|] eqn:E; [|done].
    destruct (time.After now (os_Expiry d')); simpl; by rewrite lookup_delete_ne.
Qed.

(** X3. Tokens do not interfere: a pending token stays in the store,
    and validates for its user until it expires, whatever other tokens
    are validated meanwhile and whatever other tokens are issued, as long
    as no cleanup runs after its expiry. *)
Theorem pending_token_survives cs state d states :
  states !! state = Some d →
  Forall (spares state (os_Expiry d)) cs →
  run_calls cs states !! state = Some d ∧
  ∀ now, now ≤ os_Expiry d →
    (ValidateState now state (run_calls cs states)).1 = (os_UserID d, true).
Proof.
  intros Hs Hcs.
  assert (Hkept : run_calls cs states !! state = Some d).
  { unfold run_calls. revert states Hs.
    induction Hcs as [|c cs Hc _ IH]; intros states Hs; [done|].
    simpl. apply IH. by apply call_step_spares. }
  split; [done|]. intros now Hnow.
  unfold ValidateState. rewrite Hkept. by rewrite After_false.
Qed.

Lemma pending_token_survives_witness :
  let s1 := (GenerateState (inl [Byte.x01; Byte.x02; Byte.x03]) 0 0 "owner1"
               NewOAuthStateStore).2 in
  let cs := [CallValidate 5 "zzzz"; CallGenerate (inl [Byte.x09]) 7 7 "owner2";
             CallValidate 8 "CQ=="] in
  run_calls cs s1 !! "AQID" = Some (mkOAuthState "owner1" (15 * time.Minute)) ∧
  ∀ now, now ≤ os_Expiry (mkOAuthState "owner1" (15 * time.Minute)) →
    (ValidateState now "AQID" (run_calls cs s1)).1
      = (os_UserID (mkOAuthState "owner1" (15 * time.Minute)), true).
Proof.
  intros s1 cs.
  apply (pending_token_survives cs "AQID" (mkOAuthState "owner1" (15 * time.Minute)) s1).
  - vm_compute; reflexivity.
  - repeat constructor; vm_compute; congruence.
Defined.

End MoreStateTokens.

(** ** Encodings: state tokens and the raw message *)
Section Encodings.
Import auth gmail.

Lemma list_ind3 {A} (P : list A → Prop) :
  P [] → (∀ a, P [a]) → (∀ a b, P [a; b]) →
  (∀ a b c rest, P rest → P (a :: b :: c :: rest)) →
  ∀ l, P l.
Proof.
  intros H0 H1 H2 H3. fix IH 1.
  intros [|a [|b [|c rest]]]; [apply H0 | apply H1 | apply H2 |].
  apply H3, IH.
Qed.

Lemma contains_app a b c :
  strings.contains (a +:+ b) c = strings.contains a c || strings.contains b c.
Proof.
  induction a as [|d a IH]; simpl; [done|].
  rewrite IH. by rewrite orb_assoc.
Qed.

Lemma every_impl (P Q : ascii → bool) s :
  (∀ c, P c = true → Q c = true) →
  strings.every P s = true → strings.every Q s = true.
Proof.
  intros HPQ. induction s as [|c s IH]; simpl; [done|].
  intros [Hc Hs]%andb_prop. by rewrite (HPQ c Hc), IH.
Qed.

Lemma digit_index v : (N.to_nat (N.land v 63) < 64)%nat.
Proof.
  change 63%N with (N.ones 6). rewrite N.land_ones.
  pose proof (N.mod_upper_bound v (2 ^ 6)%N ltac:(done)) as H.
  change (2 ^ 6)%N with 64%N in *. lia.
Qed.

(** Every digit is a character of the URL alphabet. *)
Lemma digit_in_alphabet v : strings.contains base64.encodeURL (base64.digit v) = true.
Proof.
  unfold base64.digit.
  pose proof (digit_index v) as Hlt.
  generalize dependent (N.to_nat (N.land v 63)). intros n Hn.
  do 64 (destruct n as [|n]; [vm_compute; reflexivity|]). lia.
Qed.

Lemma digit_not_padding v : strings.contains "=" (base64.digit v) = false.
Proof.
  unfold base64.digit.
  pose proof (digit_index v) as Hlt.
  generalize dependent (N.to_nat (N.land v 63)). intros n Hn.
  do 64 (destruct n as [|n]; [vm_compute; reflexivity|]). lia.
Qed.

Lemma EncodeToString_length src :
  String.length (base64.EncodeToString src) = (4 * ((length src + 2) / 3))%nat.
Proof.
  induction src as [| | |a b c rest IH] using list_ind3; try reflexivity.
  cbn [base64.EncodeToString String.length length]. rewrite IH.
  replace (S (S (S (length rest))) + 2)%nat with (length rest + 2 + 1 * 3)%nat by lia.
  rewrite Nat.div_add by done. lia.
Qed.

(** The encoding consists of URL-alphabet characters and padding. *)
Lemma EncodeToString_alphabet src :
  strings.every (strings.contains (base64.encodeURL +:+ "="))
    (base64.EncodeToString src) = true.
Proof.
  assert (Hd : ∀ v, strings.contains (base64.encodeURL +:+ "=") (base64.digit v) = true).
  { intros v. by rewrite contains_app, digit_in_alphabet. }
  induction src as [| | |a b c rest IH] using list_ind3;
    cbn [base64.EncodeToString strings.every]; rewrite ?Hd, ?IH; reflexivity.
Qed.

(** X4. The state token made from the 32 random bytes has 44 characters,
    all of them from the URL alphabet of base64 or the padding sign. *)
Theorem state_token_shape b now now' userID states state states1 :
  GenerateState (inl b) now now' userID states = ((state, None), states1) →
  length b = 32%nat →
  String.length state = 44%nat ∧
  strings.every (strings.contains (base64.encodeURL +:+ "=")) state = true.
Proof.
  intros [= <- _] Hb. split; [|apply EncodeToString_alphabet].
  by rewrite EncodeToString_length, Hb.
Qed.

Lemma ReplaceAll_absent s old new :
  strings.every (λ c, negb (bool_decide (c = old))) s = true →
  strings.ReplaceAll s old new = s.
Proof.
  induction s as [|c s IH]; simpl; [done|].
  intros [Hc Hs]%andb_prop. apply negb_true_iff, bool_decide_eq_false_1 in Hc.
  rewrite decide_False by done. by rewrite IH.
Qed.

Lemma TrimRight_keep c s cutset :
  strings.contains cutset c = false →
  strings.TrimRight (String c s) cutset = String c (strings.TrimRight s cutset).
Proof. intros Hc. simpl. rewrite Hc. by destruct (strings.TrimRight s cutset). Qed.

Lemma TrimRight_EncodeToString src :
  strings.every (strings.contains base64.encodeURL)
    (strings.TrimRight (base64.EncodeToString src) "=") = true.
Proof.
  induction src as [| | |a b c rest IH] using list_ind3;
    cbn [base64.EncodeToString];
    rewrite ?TrimRight_keep by apply digit_not_padding;
    cbn [strings.every]; rewrite ?digit_in_alphabet, ?IH; reflexivity.
Qed.

(** X5. The raw message handed to Gmail consists of characters of the
    URL alphabet only: it holds no [+], no [/] and no padding.  The two
    [ReplaceAll] calls of [SendEmail] never change anything, the encoding
    being URL-safe already. *)
Theorem encode_url_safe msg :
  encode msg = strings.TrimRight (base64.EncodeToString (list_byte_of_string msg)) "=" ∧
  strings.every (strings.contains base64.encodeURL) (encode msg) = true ∧
  strings.contains (encode msg) "+" = false ∧
  strings.contains (encode msg) "/" = false ∧
  strings.contains (encode msg) "=" = false.
Proof.
  assert (Henc : encode msg
            = strings.TrimRight (base64.EncodeToString (list_byte_of_string msg)) "=").
  { unfold encode. cbv zeta.
    pose proof (EncodeToString_alphabet (list_byte_of_string msg)) as Ha.
    assert (Hno : ∀ old, strings.contains (base64.encodeURL +:+ "=") old = false →
              ∀ new, strings.ReplaceAll
                       (base64.EncodeToString (list_byte_of_string msg)) old new
                     = base64.EncodeToString (list_byte_of_string msg)).
    { intros old Hold new. apply ReplaceAll_absent.
      eapply every_impl; [|exact Ha]. intros c Hc.
      apply negb_true_iff, bool_decide_eq_false_2. intros ->. congruence. }
    rewrite (Hno "+"%char) by (vm_compute; reflexivity).
    by rewrite (Hno "/"%char) by (vm_compute; reflexivity). }
  split; [exact Henc|]. rewrite Henc.
  pose proof (TrimRight_EncodeToString (list_byte_of_string msg)) as Hsafe.
  split; [exact Hsafe|].
  assert (Hnot : ∀ d, strings.contains base64.encodeURL d = false →
                      strings.contains
                        (strings.TrimRight (base64.EncodeToString (list_byte_of_string msg)) "=")
                        d = false).
  { intros d Hd. revert Hsafe.
    generalize (strings.TrimRight (base64.EncodeToString (list_byte_of_string msg)) "=").
    intros s. induction s as [|c s IH]; [done|].
    cbn [strings.every]. intros [Hc Hs]%andb_prop.
    change (strings.contains (String c s) d)
      with (bool_decide (d = c) || strings.contains s d).
    rewrite (IH Hs), orb_false_r.
    apply bool_decide_eq_false_2. intros ->. congruence. }
  split_and!; apply Hnot; vm_compute; reflexivity.
Qed.

End Encodings.

Lemma state_token_shape_witness :
  let b := replicate 32 Byte.xff in
  let run := auth.GenerateState (inl b) 0 0 "owner1" auth.NewOAuthStateStore in
  String.length run.1.1 = 44%nat ∧
  strings.every (strings.contains (base64.encodeURL +:+ "=")) run.1.1 = true.
Proof.
  intros b run.
  apply (state_token_shape b 0 0 "owner1" auth.NewOAuthStateStore run.1.1 run.2).
  - reflexivity.
  - reflexivity.
Defined.

(** ** The credential manager and the two authorization handlers *)
Section Authorization.
Import auth.
Variable AuthCodeURL : Config → string → string.
Implicit Types (h : Handler) (credentials : gmap string UserCredentials).

#[local] Abbreviation phase1 := (Handler_SaveCredentials AuthCodeURL).

(** X6. What [SaveCredentials] stores is what [GetCredentials] returns
    for that user afterwards, the records of all other users staying as
    they were, and this also when the snapshot could not be written: the
    call then returns an error although the map has changed. *)
Theorem SaveCredentials_GetCredentials io creds credentials :
  let saved := SaveCredentials io creds credentials in
  GetCredentials saved.2 (uc_UserID creds) = (creds, None) ∧
  (∀ userID, userID ≠ uc_UserID creds →
     GetCredentials saved.2 userID = GetCredentials credentials userID) ∧
  (saved.1 = None ↔ io = Persisted).
Proof.
  intros saved. split_and!.
  - unfold GetCredentials. subst saved. by rewrite SaveCredentials_lookup.
  - intros userID Hne. unfold GetCredentials. subst saved.
    by rewrite SaveCredentials_frame.
  - subst saved. destruct io; simpl; split; congruence.
Qed.

Lemma well_keyed_insert creds credentials :
  well_keyed credentials → well_keyed (<[uc_UserID creds := creds]> credentials).
Proof.
  intros Hwk userID v. destruct (decide (uc_UserID creds = userID)) as [<-|Hne].
  - rewrite lookup_insert_eq. congruence.
  - rewrite lookup_insert_ne by done. apply Hwk.
Qed.

Lemma SaveCredentials_insert io creds credentials :
  (SaveCredentials io creds credentials).2 = <[uc_UserID creds := creds]> credentials.
Proof. by destruct io. Qed.

(** The callback in one piece. *)
Lemma GmailOAuthCallback_eq env state code h :
  GmailOAuthCallback env state code h
    = match ValidateState (cb_now env) state (StateStore h) with
      | ((_, false), states) =>
          (http.Error "Invalid state parameter" http.StatusBadRequest,
           with_states h states)
      | ((userID, true), states) =>
          let h := with_states h states in
          match GetCredentials (CredManager h) userID with
          | (_, Some _) => (http.Error "User not found" http.StatusNotFound, h)
          | (userCreds, None) =>
              callbackAfterExchange (cb_exchange env) (cb_persist env) userCreds h
          end
      end.
Proof.
  unfold GmailOAuthCallback, callbackUntilExchange.
  destruct (ValidateState _ _ _) as [[userID [|]] states]; [|done].
  cbv zeta. by destruct (GetCredentials _ _) as [userCreds [e|]].
Qed.

(** What the callback leaves in the credential map. *)
Lemma GmailOAuthCallback_creds env state code h :
  CredManager (GmailOAuthCallback env state code h).2 = CredManager h ∨
  ∃ d old refreshToken,
    StateStore h !! state = Some d ∧ cb_now env ≤ os_Expiry d ∧
    CredManager h !! os_UserID d = Some old ∧
    cb_exchange env = inl refreshToken ∧ refreshToken ≠ "" ∧
    CredManager (GmailOAuthCallback env state code h).2
      = <[uc_UserID old :=
            {| uc_UserID := uc_UserID old;
               uc_GmailClientID := uc_GmailClientID old;
               uc_GmailSecret := uc_GmailSecret old;
               uc_GmailRefreshToken := refreshToken;
               uc_SlackBotToken := uc_SlackBotToken old |}]> (CredManager h).
Proof.
  rewrite GmailOAuthCallback_eq; unfold callbackAfterExchange, ValidateState.
  destruct (StateStore h !! state) as [d|] eqn:Hs; [|by left].
  destruct (time.After (cb_now env) (os_Expiry d)) eqn:Ha; [by left|].
  unfold GetCredentials. simpl.
  destruct (CredManager h !! os_UserID d) as [old|] eqn:Hold; [|by left].
  destruct (cb_exchange env) as [rt|e] eqn:Hx; [|by left].
  destruct (decide (rt ≠ "")) as [Hrt|]; [|by left].
  right. exists d, old, rt. split_and!; try done.
  - unfold time.After in Ha. apply bool_decide_eq_false_1 in Ha. lia.
  - pose proof (SaveCredentials_insert (cb_persist env)
      {| uc_UserID := uc_UserID old; uc_GmailClientID := uc_GmailClientID old;
         uc_GmailSecret := uc_GmailSecret old; uc_GmailRefreshToken := rt;
         uc_SlackBotToken := uc_SlackBotToken old |} (CredManager h)) as Hins.
    destruct (SaveCredentials _ _ _) as [[e|] c]; simpl in *; by subst.
Qed.

(** X7. Both handlers keep every record under the identifier it
    carries: from a credential map keyed that way they only lead to
    maps keyed that way. *)
Theorem handlers_keep_keys h :
  well_keyed (CredManager h) →
  (∀ env method decoded,
     well_keyed (CredManager (sv_handler (phase1 env method decoded h)))) ∧
  (∀ env state code,
     well_keyed (CredManager (GmailOAuthCallback env state code h).2)).
Proof.
  intros Hwk. split.
  - intros env method decoded. unfold Handler_SaveCredentials.
    case_decide; [done|]. destruct decoded as [req|e]; [|done].
    rewrite (surjective_pairing (SaveCredentials _ _ _)), SaveCredentials_insert.
    set (creds := {| uc_UserID := rq_UserID req |}).
    pose proof (well_keyed_insert creds _ Hwk) as Hwk'.
    destruct (SaveCredentials _ _ _).1; [done|].
    case_decide; [destruct (env_registerTeam env)|];
      rewrite ?issueAuthURL_creds; done.
  - intros env state code.
    destruct (GmailOAuthCallback_creds env state code h)
      as [-> | (d & old & rt & _ & _ & _ & _ & _ & ->)]; [done|].
    by apply (well_keyed_insert
      {| uc_UserID := uc_UserID old; uc_GmailClientID := uc_GmailClientID old;
         uc_GmailSecret := uc_GmailSecret old; uc_GmailRefreshToken := rt;
         uc_SlackBotToken := uc_SlackBotToken old |}).
Qed.

(** X8. Phase 1 changes the credentials of no user but the one named in
    the request, and it changes nothing at all (no credentials, no state
    token, no team registration) when the request is not a POST or its
    body does not decode. *)
Theorem phase1_touches_one_user env method decoded h :
  let run := phase1 env method decoded h in
  (∀ userID, (∀ req, decoded = inl req → rq_UserID req ≠ userID) →
     CredManager (sv_handler run) !! userID = CredManager h !! userID) ∧
  (method ≠ http.MethodPost ∨ (∃ e, decoded = inr e) →
     sv_handler run = h ∧ sv_registered run = None ∧
     http.StatusCode (sv_response run)
       = if decide (method ≠ http.MethodPost) then 405 else 400).
Proof.
  intros run. subst run. split.
  - intros userID Hother. unfold Handler_SaveCredentials.
    case_decide as Hm; [done|]. destruct decoded as [req|e]; [|done].
    rewrite (surjective_pairing (SaveCredentials _ _ _)), SaveCredentials_insert.
    specialize (Hother req eq_refl).
    destruct (SaveCredentials _ _ _).1; simpl.
    + by rewrite lookup_insert_ne.
    + case_decide; [destruct (env_registerTeam env)|];
        rewrite ?issueAuthURL_creds; simpl; by rewrite lookup_insert_ne.
  - intros Hbad. unfold Handler_SaveCredentials.
    destruct (decide (method ≠ http.MethodPost)) as [Hm|Hm]; [done|].
    destruct Hbad as [Hbad | [e ->]]; [done|]. done.
Qed.




Lemma GmailOAuthCallback_consumes env state code h :
  StateStore (GmailOAuthCallback env state code h).2 !! state = None.
Proof.
  rewrite GmailOAuthCallback_eq. unfold callbackAfterExchange.
  pose proof (ValidateState_consumes (cb_now env) state (StateStore h)) as Hgone.
  destruct (ValidateState _ _ _) as [[userID [|]] states]; simpl in *; [|done].
  destruct (GetCredentials _ _) as [userCreds [e|]]; [done|].
  destruct (cb_exchange env); [|done].
  case_decide; [|done]. by destruct (SaveCredentials _ _ _) as [[e|] c].
Qed.

(** X10. The callback fails closed: for a state that is not in the store,
    or whose expiry has passed, it answers 400, leaves all credentials
    as they are and leaves the state absent. *)
Theorem callback_fails_closed env state code h :
  (∀ d, StateStore h !! state = Some d → os_Expiry d < cb_now env) →
  let done := GmailOAuthCallback env state code h in
  done.1 = http.Error "Invalid state parameter" http.StatusBadRequest ∧
  CredManager done.2 = CredManager h ∧
  StateStore done.2 !! state = None.
Proof.
  intros Hinvalid done. subst done.
  split_and!; [| |apply GmailOAuthCallback_consumes];
    rewrite GmailOAuthCallback_eq; unfold callbackAfterExchange, ValidateState;
    (destruct (StateStore h !! state) as [d|] eqn:Hs; [|done]);
    by rewrite After_true by auto.
Qed.

(** X11. A state opens the callback at most once: whatever the first
    callback did with it (also when its code exchange failed), a second
    callback presenting the same state is answered 400. *)
Theorem callback_state_single_use env1 env2 state code1 code2 h :
  (GmailOAuthCallback env2 state code2 (GmailOAuthCallback env1 state code1 h).2).1
    = http.Error "Invalid state parameter" http.StatusBadRequest.
Proof.
  pose proof (GmailOAuthCallback_consumes env1 state code1 h) as Hgone.
  rewrite GmailOAuthCallback_eq. unfold ValidateState. by rewrite Hgone.
Qed.

(** X12. What the callback writes is the copy it read before the code
    exchange, with the refresh token replaced and nothing else, under
    the identifier that copy carries, and only when the exchange
    returned a non-empty refresh token; every other entry of the
    credential map, and the state store, are as they are when the
    exchange returns.  The copy is the record the handler held, when
    the callback started, for the user the state was issued for.  So
    whatever another request has stored for that user while the exchange
    was pending is overwritten. *)
Theorem callback_writes_back_its_copy now state h userCreds h1 exchange persist h' :
  callbackUntilExchange now state h = (inr userCreds, h1) →
  let done := callbackAfterExchange exchange persist userCreds h' in
  (∃ d, StateStore h !! state = Some d ∧
        CredManager h !! os_UserID d = Some userCreds) ∧
  (∀ userID, userID ≠ uc_UserID userCreds →
     CredManager done.2 !! userID = CredManager h' !! userID) ∧
  StateStore done.2 = StateStore h' ∧
  match exchange with
  | inl refreshToken =>
      if decide (refreshToken ≠ "") then
        CredManager done.2 !! uc_UserID userCreds
          = Some {| uc_UserID := uc_UserID userCreds;
                    uc_GmailClientID := uc_GmailClientID userCreds;
                    uc_GmailSecret := uc_GmailSecret userCreds;
                    uc_GmailRefreshToken := refreshToken;
                    uc_SlackBotToken := uc_SlackBotToken userCreds |}
      else done.2 = h'
  | inr _ => done.2 = h'
  end.
Proof.
  intros Hread done. split_and!.
  - revert Hread. unfold callbackUntilExchange, ValidateState.
    destruct (StateStore h !! state) as [d|]; [|done].
    destruct (time.After now (os_Expiry d)); [done|]. cbv zeta.
    unfold GetCredentials. simpl.
    destruct (CredManager h !! os_UserID d) as [creds|] eqn:Hcreds; [|done].
    intros [= <- _]. by exists d.
  - intros userID Hne. subst done. unfold callbackAfterExchange.
    destruct exchange as [refreshToken|e]; [|done].
    case_decide; [|done].
    rewrite (surjective_pairing (SaveCredentials _ _ _)).
    destruct (SaveCredentials _ _ _).1; simpl;
      by rewrite SaveCredentials_insert, lookup_insert_ne.
  - subst done. unfold callbackAfterExchange.
    destruct exchange as [refreshToken|e]; [|done].
    case_decide; [|done].
    by destruct (SaveCredentials _ _ _) as [[e|] credentials].
  - subst done. unfold callbackAfterExchange.
    destruct exchange as [refreshToken|e]; [|done].
    case_decide; [|done].
    rewrite (surjective_pairing (SaveCredentials _ _ _)).
    destruct (SaveCredentials _ _ _).1; simpl;
      by rewrite SaveCredentials_insert, lookup_insert_eq.
Qed.

End Authorization.

Lemma h0_well_keyed : auth.well_keyed (auth.CredManager saving.h0).
Proof.
  intros userID creds. simpl. intros [<- <-]%lookup_singleton_Some. reflexivity.
Qed.

Lemma handlers_keep_keys_witness :
  (∀ env method decoded,
     auth.well_keyed (auth.CredManager (auth.sv_handler
       (auth.Handler_SaveCredentials saving.AuthCodeURL env method decoded saving.h0)))) ∧
  (∀ env state code,
     auth.well_keyed (auth.CredManager
       (auth.GmailOAuthCallback env state code saving.h0).2)).
Proof.
  apply (handlers_keep_keys saving.AuthCodeURL saving.h0).
  exact h0_well_keyed.
Defined.


Lemma callback_fails_closed_witness :
  let env := auth.mkCallbackEnv 60 (inl "1//rt") auth.Persisted in
  let done := auth.GmailOAuthCallback env "forged" "4/code" saving.first in
  done.1 = http.Error "Invalid state parameter" http.StatusBadRequest ∧
  auth.CredManager done.2 = auth.CredManager saving.first ∧
  auth.StateStore done.2 !! "forged" = None.
Proof.
  intros env.
  apply (callback_fails_closed env "forged" "4/code" saving.first).
  intros d Hd. vm_compute in Hd. discriminate.
Defined.

(** The same for the right state presented a second too late. *)
Example callback_expired :
  let env := auth.mkCallbackEnv (15 * time.Minute + 1) (inl "1//rt") auth.Persisted in
  let done := auth.GmailOAuthCallback env "AQID" "4/code" saving.first in
  done.1 = http.Error "Invalid state parameter" http.StatusBadRequest ∧
  auth.uc_GmailRefreshToken <$> auth.CredManager done.2 !! "owner1" = Some "".
Proof. split; vm_compute; reflexivity. Qed.

Lemma callback_writes_back_its_copy_witness :
  let done := auth.callbackAfterExchange (inl "1//rt") auth.Persisted
                (auth.mkUserCredentials "owner1" "cid2" "sec2" "" "xoxb-2")
                saving.meanwhile in
  (∃ d, auth.StateStore saving.first !! "AQID" = Some d ∧
        auth.CredManager saving.first !! auth.os_UserID d
          = Some (auth.mkUserCredentials "owner1" "cid2" "sec2" "" "xoxb-2")) ∧
  (∀ userID, userID ≠ "owner1" →
     auth.CredManager done.2 !! userID = auth.CredManager saving.meanwhile !! userID) ∧
  auth.StateStore done.2 = auth.StateStore saving.meanwhile ∧
  auth.CredManager done.2 !! "owner1"
    = Some (auth.mkUserCredentials "owner1" "cid2" "sec2" "1//rt" "xoxb-2").
Proof.
  apply (callback_writes_back_its_copy 60 "AQID" saving.first
           (auth.mkUserCredentials "owner1" "cid2" "sec2" "" "xoxb-2")
           saving.pending.2 (inl "1//rt") auth.Persisted saving.meanwhile).
  vm_compute; reflexivity.
Defined.

(** The lost update: owner1 submits the form again, with another bot
    token, while the exchange is pending; the callback then puts the
    first token back. *)
Example callback_undoes_interleaved_save :
  auth.uc_SlackBotToken <$> auth.CredManager saving.meanwhile !! "owner1" = Some "xoxb-3" ∧
  auth.uc_SlackBotToken
    <$> auth.CredManager
          (auth.callbackAfterExchange (inl "1//rt") auth.Persisted
             (auth.mkUserCredentials "owner1" "cid2" "sec2" "" "xoxb-2")
             saving.meanwhile).2 !! "owner1"
    = Some "xoxb-2".
Proof. split; vm_compute; reflexivity. Qed.

(** ** Member resolution: failures and bounds *)
Section MoreResolution.
Import auth slack.
Variable Sprint : json.value → string.
Variable credentials : gmap string UserCredentials.
Implicit Types (net : Net).

Lemma launch_length userIDs : (length (launch userIDs).1 ≤ length userIDs)%nat.
Proof.
  induction userIDs as [|id rest IH]; simpl; [done|].
  destruct id; simpl; try lia.
  destruct (launch rest) as [started complete]. simpl in *. lia.
Qed.

Lemma all_return_length {A} (os : list (outcome A)) l :
  all_return os = Returns l → length l = length os.
Proof.
  revert l. induction os as [|o os IH]; intros l; simpl.
  - by intros [= <-].
  - destruct o as [a|]; [|done]. destruct (all_return os) as [l'|]; [|done].
    intros [= <-]. simpl. by rewrite (IH l').
Qed.

Lemma published_length results :
  (length (omap published results) ≤ length results)%nat.
Proof.
  induction results as [|r results IH]; [done|].
  change (omap published (r :: results))
    with (match published r with
          | Some e => e :: omap published results
          | None => omap published results
          end).
  destruct (published r); simpl; lia.
Qed.

(** What [getUserEmails] returns is bounded by the lookups it started. *)
Lemma getUserEmails_bounded net ownerID userIDs calls emails err :
  arrival_complete net →
  getUserEmails Sprint credentials net ownerID userIDs = (calls, Returns (emails, err)) →
  (length emails ≤ length calls ≤ length userIDs)%nat ∧ "" ∉ emails.
Proof.
  intros Harr Hrun.
  destruct (getUserEmails_returns_inv _ _ _ _ _ _ _ _ Hrun)
    as (ids & results & -> & -> & Hlen & _ & -> & _).
  rewrite collect_omap. simpl. rewrite !length_fmap. split.
  - pose proof (published_length (arrival net results)) as Hp.
    rewrite (Harr results) in Hp at 2. lia.
  - intros Hin. apply list_elem_of_omap in Hin as (r & _ & Hr).
    by apply published_nonempty in Hr.
Qed.

(** X13. When [GetChannelMembers] returns an error, it has started no
    email lookup and returns no address: every error of the listing
    (missing token, failed call, [ok:false], missing member array) comes
    before the fan-out, and the fan-out itself returns none. *)
Theorem GetChannelMembers_error_before_lookups net userID channelID emails err :
  (GetChannelMembers Sprint credentials net userID channelID).2
    = Returns (emails, Some err) →
  (GetChannelMembers Sprint credentials net userID channelID).1 = [] ∧ emails = [].
Proof.
  destruct (GetChannelMembers Sprint credentials net userID channelID)
    as [calls got] eqn:Hrun. simpl. intros ->. revert Hrun.
  unfold GetChannelMembers.
  destruct (GetSlackToken credentials userID) as [tok [e|]]; [by intros [= <- <- _]|].
  destruct (conversations_members net channelID) as [e|result]; [by intros [= <- <- _]|].
  destruct (json.index result "ok") as [|[]| | | |]; try done; [|by intros [= <- <- _]].
  destruct (json.index result "members") as [| | | |userIDs|]; try by intros [= <- <- _].
  intros Hrun.
  pose proof (getUserEmails_nil_error Sprint credentials net userID
                (if decide (maxUsers < length userIDs)%nat
                 then take maxUsers userIDs else userIDs) emails (Some err)) as Hnil.
  rewrite Hrun in Hnil. by specialize (Hnil eq_refl).
Qed.

(** X14. Whatever the listing holds, [GetChannelMembers] starts at most
    50 lookups and returns at most one address per lookup started, none
    of them empty. *)
Theorem GetChannelMembers_at_most_50 net userID channelID calls emails err :
  arrival_complete net →
  GetChannelMembers Sprint credentials net userID channelID
    = (calls, Returns (emails, err)) →
  (length emails ≤ length calls ≤ 50)%nat ∧ "" ∉ emails.
Proof.
  intros Harr. unfold GetChannelMembers.
  assert (Hnone : (length (@nil string) ≤ length (@nil Call) ≤ 50)%nat ∧ "" ∉ (@nil string)).
  { split; [simpl; lia | apply not_elem_of_nil]. }
  destruct (GetSlackToken credentials userID) as [tok [e|]]; [by intros [= <- <- _]|].
  destruct (conversations_members net channelID) as [e|result]; [by intros [= <- <- _]|].
  destruct (json.index result "ok") as [|[]| | | |]; try done; [|by intros [= <- <- _]].
  destruct (json.index result "members") as [| | | |userIDs|]; try by intros [= <- <- _].
  intros Hrun. apply (getUserEmails_bounded _ _ _ _ _ _ Harr) in Hrun as [Hlen Hne].
  split; [|done].
  assert ((length (if decide (maxUsers < length userIDs)%nat
                   then take maxUsers userIDs else userIDs) ≤ 50)%nat).
  { case_decide; [rewrite length_take|]; unfold maxUsers in *; lia. }
  lia.
Qed.

End MoreResolution.

Lemma GetChannelMembers_error_before_lookups_witness :
  (slack.GetChannelMembers wire.Sprint scenario.credentials scenario.net "owner2" "C1").1
    = [] ∧ (@nil string) = [].
Proof.
  apply (GetChannelMembers_error_before_lookups wire.Sprint scenario.credentials
           scenario.net "owner2" "C1" []
           "failed to get Slack token: no credentials found for user owner2").
  vm_compute; reflexivity.
Defined.

Lemma GetChannelMembers_at_most_50_witness :
  let run := slack.GetChannelMembers wire.Sprint scenario.credentials
               scenario.net_crowd "owner1" "C1" in
  (length ["b@x.com"; "a@x.com"] ≤ length run.1 ≤ 50)%nat ∧
  "" ∉ ["b@x.com"; "a@x.com"].
Proof.
  intros run.
  apply (GetChannelMembers_at_most_50 wire.Sprint scenario.credentials
           scenario.net_crowd "owner1" "C1" run.1 ["b@x.com"; "a@x.com"] None).
  - apply reverse_complete. reflexivity.
  - vm_compute; reflexivity.
Defined.

(** ** The goroutines: length of runs, and what never blocks *)
Section MorePool.
Import slack pool.
Variable userIDs : list string.
Variable lookup : nat → emailResult.

#[local] Abbreviation step := (step userIDs lookup).
#[local] Abbreviation reachable := (reachable userIDs lookup).

(** Every step uses up exactly one unit of [remaining]. *)
Lemma step_remaining s s' : step s s' → remaining s = S (remaining s').
Proof.
  intros Hstep.
  destruct Hstep as [s u rest Hp | s i Hi Hroom | s i Hi | s i Hi Hroom
                    | s i tokens Hi Htok | s i n Hi Hn | s Hp Hn Hc
                    | s r rest Hp Hr Hchan | s Hp Hr Hchan Hc];
    unfold remaining; simpl;
    try (match goal with
         | H : goroutines _ !! _ = Some _ |- context [<[_ := ?q]> _] =>
             pose proof (work_insert _ _ _ q H) as Hw; simpl in Hw
         end).
  - rewrite Hp, sum_list_with_app. simpl. lia.
  - lia.
  - lia.
  - rewrite length_app. simpl. lia.
  - lia.
  - lia.
  - rewrite Hc. simpl. lia.
  - rewrite Hchan. simpl. lia.
  - rewrite Hr. simpl. lia.
Qed.

Lemma nsteps_remaining k s0 s :
  nsteps step k s0 s → (k + remaining s = remaining s0)%nat.
Proof.
  induction 1 as [s|k s0 s1 s Hstep _ IH]; [done|].
  apply step_remaining in Hstep. lia.
Qed.

(** X17. Runs of [getUserEmails] have a fixed length: after [k] steps
    from the start over [n] identifiers, exactly [7n + 2 - k] steps are
    left, under every interleaving; so no run has more than [7n + 2]
    steps, and the runs that reach the return take exactly that many. *)
Theorem run_length k s :
  nsteps step k (init userIDs) s →
  (k + remaining s = 7 * length userIDs + 2)%nat ∧
  (returned s = true → k = 7 * length userIDs + 2)%nat.
Proof.
  intros Hrun. pose proof (nsteps_remaining _ _ _ Hrun) as Hk.
  change (remaining (init userIDs)) with (7 * length userIDs + 0 + 0 + 1 + 1)%nat in Hk.
  split; [lia|]. intros Hret.
  destruct (collection_invariant_reachable userIDs lookup s (rtc_nsteps_2 _ _ _ Hrun))
    as (Hlen & Hwg & Hclosed & Hreturned & received & Hem & Hperm).
  destruct (Hreturned Hret) as [Hc Hnil]. destruct (Hclosed Hc) as [Hpend Hz].
  assert (Hwork : sum_list_with work (goroutines s) = 0%nat).
  { rewrite Hwg in Hz. clear -Hz. induction (goroutines s) as [|p l IH]; [done|].
    rewrite unfinished_cons in Hz. destruct p; simpl in *; lia. }
  unfold remaining in Hk. rewrite Hpend, Hnil, Hc, Hret, Hwork in Hk. simpl in Hk. lia.
Qed.

(** X18. Only the semaphore can make a goroutine wait: in every
    reachable state, a goroutine that has got its token and has not
    finished can take its next step at once.  The send on [resultChan]
    finds room, the receive from [semaphore] finds a token, and
    [wg.Done] finds a positive counter. *)
Theorem token_holder_moves_on s i p :
  reachable s →
  goroutines s !! i = Some p →
  p ≠ Waiting → p ≠ Finished →
  ∃ s' q, step s s' ∧ goroutines s' !! i = Some q ∧ (work q < work p)%nat.
Proof.
  intros Hr Hi Hw Hf.
  destruct (token_invariant_reachable userIDs lookup s Hr) as [Hh Hcap].
  destruct (collection_invariant_reachable userIDs lookup s Hr)
    as (Hlen & Hwg & Hclosed & _ & received & _ & Hperm).
  pose proof (lookup_lt_Some _ _ _ Hi) as Hlt.
  destruct p; try done.
  - eexists _, Returned. split; [by eapply step_return|]. simpl.
    split; [by apply list_lookup_insert_eq | lia].
  - eexists _, Sent. split.
    + eapply step_send; [done|].
      pose proof (sent_results_room lookup 0 _ _ _ Hi eq_refl) as Hroom.
      apply Permutation_length in Hperm. rewrite length_app in Hperm. lia.
    + simpl. split; [by apply list_lookup_insert_eq | lia].
  - pose proof (holders_pos _ _ _ Hi eq_refl).
    destruct (semaphore s) as [|tokens] eqn:Hs; [lia|].
    eexists _, Released. split; [by eapply step_release|]. simpl.
    split; [by apply list_lookup_insert_eq | lia].
  - pose proof (unfinished_pos _ _ _ Hi ltac:(done)).
    destruct (wg s) as [|n] eqn:Hn; [lia|].
    eexists _, Finished. split; [by eapply step_done|]. simpl.
    split; [by apply list_lookup_insert_eq | lia].
Qed.

End MorePool.

(** A complete run over [U1; U2] in which U2's result is sent first. *)
Lemma pair_run :
  nsteps (pool.step ["U1"; "U2"] scenario.pair_lookup) 16
    (pool.init ["U1"; "U2"]) scenario.pair_done.
Proof.
  do 2 (eapply nsteps_l; [by eapply pool.step_launch|]; simpl).
  eapply nsteps_l; [eapply (pool.step_acquire _ _ _ 1%nat); [done | cbv; lia]|]; simpl.
  eapply nsteps_l; [eapply (pool.step_acquire _ _ _ 0%nat); [done | cbv; lia]|]; simpl.
  eapply nsteps_l; [by eapply (pool.step_return _ _ _ 1%nat)|]; simpl.
  eapply nsteps_l; [by eapply (pool.step_return _ _ _ 0%nat)|]; simpl.
  eapply nsteps_l; [eapply (pool.step_send _ _ _ 1%nat); [done | simpl; lia]|]; simpl.
  eapply nsteps_l; [eapply (pool.step_send _ _ _ 0%nat); [done | simpl; lia]|]; simpl.
  eapply nsteps_l; [by eapply (pool.step_release _ _ _ 1%nat)|]; simpl.
  eapply nsteps_l; [by eapply (pool.step_release _ _ _ 0%nat)|]; simpl.
  eapply nsteps_l; [by eapply (pool.step_done _ _ _ 1%nat)|]; simpl.
  eapply nsteps_l; [by eapply (pool.step_done _ _ _ 0%nat)|]; simpl.
  eapply nsteps_l; [by eapply pool.step_close|]; simpl.
  eapply nsteps_l; [by eapply pool.step_receive|]; simpl.
  eapply nsteps_l; [by eapply pool.step_receive|]; simpl.
  eapply nsteps_l; [by eapply pool.step_exit|]; simpl.
  apply nsteps_O.
Qed.

Lemma run_length_witness :
  (16 + pool.remaining scenario.pair_done = 7 * length ["U1"; "U2"] + 2)%nat ∧
  (pool.returned scenario.pair_done = true → 16 = 7 * length ["U1"; "U2"] + 2)%nat.
Proof.
  apply (run_length ["U1"; "U2"] scenario.pair_lookup 16 scenario.pair_done).
  exact pair_run.
Defined.

Lemma collects_every_result_witness :
  ∃ arrival,
    arrival ≡ₚ scenario.pair_lookup <$> seq 0 (length ["U1"; "U2"]) ∧
    pool.emails scenario.pair_done = slack.collect arrival [].
Proof.
  apply (collects_every_result ["U1"; "U2"] scenario.pair_lookup scenario.pair_done).
  - exact (rtc_nsteps_2 _ _ _ pair_run).
  - reflexivity.
Defined.

Lemma returns_witness :
  ∃ s', rtc (pool.step ["U1"; "U2"] scenario.pair_lookup) scenario.two_of_two s'
        ∧ pool.returned s' = true.
Proof.
  apply (returns ["U1"; "U2"] scenario.pair_lookup scenario.two_of_two).
  unfold pool.reachable.
  do 2 (eapply rtc_l; [by eapply pool.step_launch|]; simpl).
  eapply rtc_l; [eapply (pool.step_acquire _ _ _ 1%nat); [done | cbv; lia]|]; simpl.
  apply rtc_refl.
Defined.

Lemma token_holder_moves_on_witness :
  ∃ s' q,
    pool.step ["U1"; "U2"; "U3"] scenario.pair_lookup scenario.two_launched s' ∧
    pool.goroutines s' !! 0%nat = Some q ∧
    (pool.work q < pool.work pool.Calling)%nat.
Proof.
  apply (token_holder_moves_on ["U1"; "U2"; "U3"] scenario.pair_lookup
           scenario.two_launched 0%nat pool.Calling).
  - apply two_launched_reachable.
  - reflexivity.
  - discriminate.
  - discriminate.
Defined.

(** ** The webhook handler: what is ignored, refused and dispatched *)
Section MoreWebhook.
Import auth slack.
Variable Sprint : json.value → string.
Variable Bytes : Type.
Variable Unmarshal_SlackChallenge : Bytes → SlackChallenge + error.
Variable Unmarshal_SlackEvent : Bytes → SlackEvent + error.
Variable credentials : gmap string UserCredentials.
Variable GetUserIDForTeam : string → option string.
Hypothesis type_key : same_type_key Unmarshal_SlackChallenge Unmarshal_SlackEvent.

#[local] Abbreviation HandleWebhook :=
  (HandleWebhook Sprint Bytes Unmarshal_SlackChallenge Unmarshal_SlackEvent
     credentials GetUserIDForTeam).
#[local] Abbreviation handleEvent :=
  (handleEvent Sprint Bytes Unmarshal_SlackEvent credentials GetUserIDForTeam).
#[local] Abbreviation processMessage := (processMessage Sprint credentials).

(** The marker of a bot message or an edit. *)
#[local] Abbreviation from_bot_or_edit event :=
  (ev_BotID (se_Event event) ≠ ""
   ∨ ev_Subtype (se_Event event) = "message_changed"
   ∨ ev_Subtype (se_Event event) = "bot_message").

Lemma callback_of_mapped_team net body event userID :
  Unmarshal_SlackEvent body = inl event →
  se_Type event = "event_callback" →
  se_TeamID event ≠ "" →
  GetUserIDForTeam (se_TeamID event) = Some userID →
  HandleWebhook net (inl body)
    = if decide (ev_Type (se_Event event) = "message") then
        if decide (from_bot_or_edit event)
        then respond (http.mkResponse http.StatusOK http.NoBody)
                     [TeamLookup (se_TeamID event)]
        else processMessage net event userID [TeamLookup (se_TeamID event)]
      else unhandled [TeamLookup (se_TeamID event)].
Proof.
  intros Hev Hty Hteam Huser.
  rewrite (not_challenge Sprint Bytes Unmarshal_SlackChallenge Unmarshal_SlackEvent
             credentials GetUserIDForTeam net body event type_key Hev)
    by (rewrite Hty; done).
  unfold slack.handleEvent. rewrite Hev.
  rewrite decide_True by done. rewrite decide_False by done. by rewrite Huser.
Qed.

(** X19. A message that carries a bot identifier, or whose subtype marks
    an edit or a bot message, is acknowledged with 200 and an empty body:
    apart from the team mapping no collaborator is invoked, nobody is
    looked up and nothing is dispatched. *)
Theorem bot_and_edits_ignored net body event userID :
  Unmarshal_SlackEvent body = inl event →
  se_Type event = "event_callback" →
  se_TeamID event ≠ "" →
  GetUserIDForTeam (se_TeamID event) = Some userID →
  ev_Type (se_Event event) = "message" →
  from_bot_or_edit event →
  HandleWebhook net (inl body)
    = {| response := Some (http.mkResponse 200 http.NoBody);
         calls := [TeamLookup (se_TeamID event)];
         recipients := []; background := None |}.
Proof.
  intros Hev Hty Hteam Huser Hmsg Hbot.
  rewrite (callback_of_mapped_team net body event userID) by done.
  by rewrite !decide_True by done.
Qed.

(** X20. A payload of any outer kind other than "event_callback" (and
    other than a verification challenge) is acknowledged with 200
    "Event received" and nothing else happens: the team mapping is not
    consulted, and a missing team identifier is no error for such a
    payload. *)
Theorem other_kinds_acknowledged net body event :
  Unmarshal_SlackEvent body = inl event →
  se_Type event ≠ "event_callback" →
  se_Type event ≠ "url_verification" →
  HandleWebhook net (inl body)
    = {| response := Some (http.mkResponse 200 (http.Text "Event received"));
         calls := []; recipients := []; background := None |}.
Proof.
  intros Hev Hcb Hch.
  rewrite (not_challenge Sprint Bytes Unmarshal_SlackChallenge Unmarshal_SlackEvent
             credentials GetUserIDForTeam net body event type_key Hev Hch).
  unfold slack.handleEvent. rewrite Hev. by rewrite decide_False by done.
Qed.

(** The path of a message that is neither from a bot nor an edit. *)
Lemma message_of_mapped_team net body event userID :
  Unmarshal_SlackEvent body = inl event →
  se_Type event = "event_callback" →
  se_TeamID event ≠ "" →
  GetUserIDForTeam (se_TeamID event) = Some userID →
  ev_Type (se_Event event) = "message" →
  ¬ from_bot_or_edit event →
  HandleWebhook net (inl body)
    = processMessage net event userID [TeamLookup (se_TeamID event)].
Proof.
  intros Hev Hty Hteam Huser Hmsg Hbot.
  rewrite (callback_of_mapped_team net body event userID) by done.
  rewrite decide_True by done. by rewrite decide_False by done.
Qed.

Lemma resolved_nonempty net userID channelID lookups emails :
  GetChannelMembers Sprint credentials net userID channelID
    = (lookups, Returns (emails, None)) →
  "" ∉ emails.
Proof.
  unfold GetChannelMembers.
  destruct (GetSlackToken credentials userID) as [tok [e|]]; [done|].
  destruct (conversations_members net channelID) as [e|result]; [done|].
  destruct (json.index result "ok") as [|[]| | | |]; try done.
  destruct (json.index result "members") as [| | | |userIDs|]; try done.
  unfold getUserEmails. destruct (launch _) as [started [|]]; [|done].
  destruct (all_return _) as [results|]; [|done].
  intros [= _ <-]. rewrite collect_omap. simpl.
  intros Hin. apply list_elem_of_omap in Hin as (r & _ & Hr).
  by apply published_nonempty in Hr.
Qed.

Lemma filter_keeps_all (P : string → Prop) `{∀ e, Decision (P e)} (l : list string) :
  Forall P l → filter P l = l.
Proof.
  induction 1 as [|e l He _ IH]; [done|].
  rewrite filter_cons, decide_True by done. by rewrite IH.
Qed.

Lemma filter_drops_all (P : string → Prop) `{∀ e, Decision (P e)} (l : list string) :
  Forall (λ e, ¬ P e) l → filter P l = [].
Proof.
  induction 1 as [|e l He _ IH]; [done|].
  by rewrite filter_cons, decide_False.
Qed.

(** X21. When the lookup of the sender fails, the event is processed all
    the same and nobody is excluded: the recipients are exactly the
    addresses the member resolution returned, the sender's own among
    them if the sender is a member whose lookup succeeded there. *)
Theorem sender_failure_excludes_nobody net body event userID senderEmail err lookups emails :
  Unmarshal_SlackEvent body = inl event →
  se_Type event = "event_callback" →
  se_TeamID event ≠ "" →
  GetUserIDForTeam (se_TeamID event) = Some userID →
  ev_Type (se_Event event) = "message" →
  ¬ from_bot_or_edit event →
  getUserEmail Sprint credentials (sender_info net) userID (ev_User (se_Event event))
    = Returns (senderEmail, Some err) →
  GetChannelMembers Sprint credentials net userID (ev_Channel (se_Event event))
    = (lookups, Returns (emails, None)) →
  recipients (HandleWebhook net (inl body)) = emails ∧
  (emails ≠ [] →
   m_to <$> background (HandleWebhook net (inl body)) = Some (Join emails ",")).
Proof.
  intros Hev Hty Hteam Huser Hmsg Hbot Hsender Hmembers.
  rewrite (message_of_mapped_team net body event userID) by done.
  pose proof (getUserEmail_error _ _ _ _ _ _ _ Hsender) as ->.
  pose proof (resolved_nonempty _ _ _ _ _ Hmembers) as Hne.
  unfold slack.processMessage. rewrite Hsender, Hmembers.
  rewrite (excludeSender_filter "" emails []). simpl.
  rewrite filter_keeps_all.
  2:{ apply Forall_forall. intros e He. split; intros ->; done. }
  case_decide as Hlen.
  - split; [done|]. intros Hnil. by destruct emails.
  - by split.
Qed.

(** X22. When every address the member resolution returned is the
    sender's own (or it returned none), the handler answers 200 "No
    recipients to send email to" and dispatches nothing. *)
Theorem no_recipients_no_dispatch net body event userID senderEmail serr lookups emails :
  Unmarshal_SlackEvent body = inl event →
  se_Type event = "event_callback" →
  se_TeamID event ≠ "" →
  GetUserIDForTeam (se_TeamID event) = Some userID →
  ev_Type (se_Event event) = "message" →
  ¬ from_bot_or_edit event →
  getUserEmail Sprint credentials (sender_info net) userID (ev_User (se_Event event))
    = Returns (senderEmail, serr) →
  GetChannelMembers Sprint credentials net userID (ev_Channel (se_Event event))
    = (lookups, Returns (emails, None)) →
  Forall (λ e, e = senderEmail) emails →
  HandleWebhook net (inl body)
    = {| response := Some (http.mkResponse 200
                             (http.Text "No recipients to send email to"));
         calls := [TeamLookup (se_TeamID event);
                   EmailLookup userID (ev_User (se_Event event));
                   MemberListing userID (ev_Channel (se_Event event))] ++ lookups;
         recipients := []; background := None |}.
Proof.
  intros Hev Hty Hteam Huser Hmsg Hbot Hsender Hmembers Hall.
  rewrite (message_of_mapped_team net body event userID) by done.
  unfold slack.processMessage. rewrite Hsender, Hmembers.
  rewrite (excludeSender_filter senderEmail emails []). simpl.
  rewrite filter_drops_all; [done|].
  eapply Forall_impl; [exact Hall|]. intros e -> [Hne _]. done.
Qed.

(** X23. When the member listing fails, the handler answers 500 "Error
    fetching users" and dispatches nothing, although the sender was
    looked up before. *)
Theorem listing_failure_is_500 net body event userID senderEmail serr lookups emails err :
  Unmarshal_SlackEvent body = inl event →
  se_Type event = "event_callback" →
  se_TeamID event ≠ "" →
  GetUserIDForTeam (se_TeamID event) = Some userID →
  ev_Type (se_Event event) = "message" →
  ¬ from_bot_or_edit event →
  getUserEmail Sprint credentials (sender_info net) userID (ev_User (se_Event event))
    = Returns (senderEmail, serr) →
  GetChannelMembers Sprint credentials net userID (ev_Channel (se_Event event))
    = (lookups, Returns (emails, Some err)) →
  HandleWebhook net (inl body)
    = {| response := Some (utils.RespondError 500 "Error fetching users");
         calls := [TeamLookup (se_TeamID event);
                   EmailLookup userID (ev_User (se_Event event));
                   MemberListing userID (ev_Channel (se_Event event))] ++ lookups;
         recipients := []; background := None |}.
Proof.
  intros Hev Hty Hteam Huser Hmsg Hbot Hsender Hmembers.
  rewrite (message_of_mapped_team net body event userID) by done.
  unfold slack.processMessage. by rewrite Hsender, Hmembers.
Qed.

End MoreWebhook.

(** ** The webhook handler: responses and dispatch, for every request *)
Section Responses.
Import auth slack.
Variable Sprint : json.value → string.
Variable Bytes : Type.
Variable Unmarshal_SlackChallenge : Bytes → SlackChallenge + error.
Variable Unmarshal_SlackEvent : Bytes → SlackEvent + error.
Variable credentials : gmap string UserCredentials.
Variable GetUserIDForTeam : string → option string.

#[local] Abbreviation HandleWebhook :=
  (HandleWebhook Sprint Bytes Unmarshal_SlackChallenge Unmarshal_SlackEvent
     credentials GetUserIDForTeam).
#[local] Abbreviation processMessage := (processMessage Sprint credentials).

(** A run that ends in an error response or in a panic has dispatched
    nothing and has computed no recipients. *)
Definition settled (run : Run) : Prop :=
  match response run with
  | None => background run = None ∧ recipients run = []
  | Some r =>
      http.StatusCode r = 200 ∨
      (http.StatusCode r ∈ [400; 404; 500] ∧ background run = None ∧ recipients run = [])
  end.

Lemma respond_settled r cs :
  http.StatusCode r ∈ [200; 400; 404; 500] → settled (respond r cs).
Proof.
  unfold settled. simpl. intros Hin.
  apply elem_of_cons in Hin as [->|Hin]; [by left|]. by right.
Qed.

#[local] Ltac status := rewrite !elem_of_cons; auto 6.

Lemma processMessage_settled net event userID done :
  settled (processMessage net event userID done).
Proof.
  unfold slack.processMessage.
  destruct (getUserEmail _ _ _ _ _) as [[senderEmail serr]|]; [|done].
  destruct (GetChannelMembers _ _ _ _ _) as [lookups [[emails [err|]]|]]; try done.
  - apply respond_settled. status.
  - case_decide; by left.
Qed.

(** X24. Every response of the webhook handler has status 200, 400, 404
    or 500, and a run that answers with an error status, or that ends in
    a panic, has dispatched no mail and has computed no recipients. *)
Theorem errors_never_dispatch net read :
  match response (HandleWebhook net read) with
  | None =>
      background (HandleWebhook net read) = None ∧
      recipients (HandleWebhook net read) = []
  | Some r =>
      http.StatusCode r = 200 ∨
      (http.StatusCode r ∈ [400; 404; 500] ∧
       background (HandleWebhook net read) = None ∧
       recipients (HandleWebhook net read) = [])
  end.
Proof.
  change (settled (HandleWebhook net read)).
  assert (Hev : ∀ body, settled (handleEvent Sprint Bytes Unmarshal_SlackEvent
                                   credentials GetUserIDForTeam net body)).
  { intros body. unfold slack.handleEvent, unhandled.
    destruct (Unmarshal_SlackEvent body) as [event|e];
      [|apply respond_settled; status].
    destruct (decide (se_Type event = "event_callback"));
      [|apply respond_settled; status].
    destruct (decide (se_TeamID event = ""));
      [apply respond_settled; status|].
    destruct (GetUserIDForTeam _); [|apply respond_settled; status].
    destruct (decide (ev_Type (se_Event event) = "message"));
      [|apply respond_settled; status].
    destruct (decide _); [apply respond_settled; status|].
    apply processMessage_settled. }
  unfold slack.HandleWebhook. destruct read as [body|e];
    [|apply respond_settled; status].
  destruct (Unmarshal_SlackChallenge body) as [c|e]; [|apply Hev].
  case_decide; [apply respond_settled; status | apply Hev].
Qed.

(** X25. A mail is dispatched only for a message event that is neither
    from a bot nor an edit, under the identifier of the owner of the
    event's team, to a non-empty list of recipients, with the fixed
    subject and a text naming the sender and quoting the message; the
    handler then answers 200 "Message received and processing". *)
Theorem dispatched_mail net read mail :
  background (HandleWebhook net read) = Some mail →
  ∃ body event,
    read = inl body ∧ Unmarshal_SlackEvent body = inl event ∧
    se_Type event = "event_callback" ∧
    ev_Type (se_Event event) = "message" ∧
    ev_BotID (se_Event event) = "" ∧
    ev_Subtype (se_Event event) ≠ "message_changed" ∧
    ev_Subtype (se_Event event) ≠ "bot_message" ∧
    GetUserIDForTeam (se_TeamID event) = Some (m_userID mail) ∧
    recipients (HandleWebhook net read) ≠ [] ∧
    m_to mail = Join (recipients (HandleWebhook net read)) "," ∧
    m_subject mail = "New Slack Message in Channel" ∧
    m_messageText mail
      = "New Slack message received in channel from user "
          +:+ ev_User (se_Event event) +:+ ":" +:+ LF +:+ LF
          +:+ ev_Text (se_Event event) ∧
    response (HandleWebhook net read)
      = Some (http.mkResponse 200 (http.Text "Message received and processing")).
Proof.
  unfold slack.HandleWebhook. destruct read as [body|e]; [|done].
  assert (Hev : ∀ run, run = handleEvent Sprint Bytes Unmarshal_SlackEvent
                               credentials GetUserIDForTeam net body →
    background run = Some mail →
    ∃ event, Unmarshal_SlackEvent body = inl event ∧
      se_Type event = "event_callback" ∧
      ev_Type (se_Event event) = "message" ∧
      ev_BotID (se_Event event) = "" ∧
      ev_Subtype (se_Event event) ≠ "message_changed" ∧
      ev_Subtype (se_Event event) ≠ "bot_message" ∧
      GetUserIDForTeam (se_TeamID event) = Some (m_userID mail) ∧
      recipients run ≠ [] ∧
      m_to mail = Join (recipients run) "," ∧
      m_subject mail = "New Slack Message in Channel" ∧
      m_messageText mail
        = "New Slack message received in channel from user "
            +:+ ev_User (se_Event event) +:+ ":" +:+ LF +:+ LF
            +:+ ev_Text (se_Event event) ∧
      response run
        = Some (http.mkResponse 200 (http.Text "Message received and processing"))).
  { intros run ->. unfold slack.handleEvent.
    destruct (Unmarshal_SlackEvent body) as [event|e]; [|done].
    destruct (decide (se_Type event = "event_callback")) as [Hty|]; [|done].
    destruct (decide (se_TeamID event = "")); [done|].
    destruct (GetUserIDForTeam (se_TeamID event)) as [userID|] eqn:Hu; [|done].
    destruct (decide (ev_Type (se_Event event) = "message")) as [Hmsg|]; [|done].
    destruct (decide _) as [|Hbot]; [done|].
    unfold slack.processMessage.
    destruct (getUserEmail _ _ _ _ _) as [[senderEmail serr]|]; [|done].
    destruct (GetChannelMembers _ _ _ _ _) as [lookups [[emails [err|]]|]]; try done.
    case_decide as Hlen; [done|]. simpl. intros [= <-]. simpl.
    exists event. split_and!; try done.
    - destruct (decide (ev_BotID (se_Event event) = "")); [done|]. exfalso. auto.
    - intros Heq. auto.
    - intros Heq. auto.
    - intros Hnil. by rewrite Hnil in Hlen. }
  destruct (Unmarshal_SlackChallenge body) as [c|e].
  - case_decide; [done|]. intros Hbg.
    destruct (Hev _ eq_refl Hbg) as (event & Hrest). exists body, event. by split.
  - intros Hbg.
    destruct (Hev _ eq_refl Hbg) as (event & Hrest). exists body, event. by split.
Qed.

End Responses.

Lemma bot_and_edits_ignored_witness :
  scenario.HandleWebhook scenario.net scenario.bot_event
    = {| slack.response := Some (http.mkResponse 200 http.NoBody);
         slack.calls := [slack.TeamLookup "T1"];
         slack.recipients := []; slack.background := None |}.
Proof.
  apply (bot_and_edits_ignored wire.Sprint wire.Bytes wire.Unmarshal_SlackChallenge
           wire.Unmarshal_SlackEvent scenario.credentials scenario.GetUserIDForTeam
           wire_same_type_key scenario.net scenario.bot_event
           (slack.mkSlackEvent "event_callback" "T1"
              (slack.mkInnerEvent "message" "C1" "U1" "hi" "" "B1")) "owner1").
  - vm_compute; reflexivity.
  - reflexivity.
  - simpl; discriminate.
  - reflexivity.
  - reflexivity.
  - left. simpl; discriminate.
Defined.

Lemma other_kinds_acknowledged_witness :
  scenario.HandleWebhook scenario.net scenario.rate_limited
    = {| slack.response := Some (http.mkResponse 200 (http.Text "Event received"));
         slack.calls := []; slack.recipients := []; slack.background := None |}.
Proof.
  apply (other_kinds_acknowledged wire.Sprint wire.Bytes wire.Unmarshal_SlackChallenge
           wire.Unmarshal_SlackEvent scenario.credentials scenario.GetUserIDForTeam
           wire_same_type_key scenario.net scenario.rate_limited
           (slack.mkSlackEvent "app_rate_limited" "T1"
              (slack.mkInnerEvent "" "" "" "" "" ""))).
  - vm_compute; reflexivity.
  - simpl; discriminate.
  - simpl; discriminate.
Defined.

Lemma sender_failure_excludes_nobody_witness :
  slack.recipients (scenario.HandleWebhook scenario.net_sender_down scenario.message_event)
    = ["a@x.com"; "b@x.com"] ∧
  (["a@x.com"; "b@x.com"] ≠ [] →
   slack.m_to <$> slack.background
       (scenario.HandleWebhook scenario.net_sender_down scenario.message_event)
     = Some (slack.Join ["a@x.com"; "b@x.com"] ",")).
Proof.
  apply (sender_failure_excludes_nobody wire.Sprint wire.Bytes
           wire.Unmarshal_SlackChallenge wire.Unmarshal_SlackEvent
           scenario.credentials scenario.GetUserIDForTeam wire_same_type_key
           scenario.net_sender_down scenario.message_event
           (slack.mkSlackEvent "event_callback" "T1"
              (slack.mkInnerEvent "message" "C1" "U1" "hi" "" ""))
           "owner1" "" "ratelimited"
           [slack.EmailLookup "owner1" "U1"; slack.EmailLookup "owner1" "U2";
            slack.EmailLookup "owner1" "U3"]).
  - vm_compute; reflexivity.
  - reflexivity.
  - simpl; discriminate.
  - reflexivity.
  - reflexivity.
  - simpl. intros [H|[H|H]]; [by apply H | discriminate H | discriminate H].
  - vm_compute; reflexivity.
  - vm_compute; reflexivity.
Defined.

Lemma no_recipients_no_dispatch_witness :
  scenario.HandleWebhook scenario.net_alone scenario.message_event
    = {| slack.response := Some (http.mkResponse 200
                                   (http.Text "No recipients to send email to"));
         slack.calls := [slack.TeamLookup "T1"; slack.EmailLookup "owner1" "U1";
                         slack.MemberListing "owner1" "C1"]
                        ++ [slack.EmailLookup "owner1" "U1"];
         slack.recipients := []; slack.background := None |}.
Proof.
  apply (no_recipients_no_dispatch wire.Sprint wire.Bytes
           wire.Unmarshal_SlackChallenge wire.Unmarshal_SlackEvent
           scenario.credentials scenario.GetUserIDForTeam wire_same_type_key
           scenario.net_alone scenario.message_event
           (slack.mkSlackEvent "event_callback" "T1"
              (slack.mkInnerEvent "message" "C1" "U1" "hi" "" ""))
           "owner1" "a@x.com" None [slack.EmailLookup "owner1" "U1"] ["a@x.com"]).
  - vm_compute; reflexivity.
  - reflexivity.
  - simpl; discriminate.
  - reflexivity.
  - reflexivity.
  - simpl. intros [H|[H|H]]; [by apply H | discriminate H | discriminate H].
  - vm_compute; reflexivity.
  - vm_compute; reflexivity.
  - repeat constructor.
Defined.

Lemma listing_failure_is_500_witness :
  scenario.HandleWebhook scenario.net_unlisted scenario.message_event
    = {| slack.response := Some (utils.RespondError 500 "Error fetching users");
         slack.calls := [slack.TeamLookup "T1"; slack.EmailLookup "owner1" "U1";
                         slack.MemberListing "owner1" "C1"] ++ [];
         slack.recipients := []; slack.background := None |}.
Proof.
  apply (listing_failure_is_500 wire.Sprint wire.Bytes
           wire.Unmarshal_SlackChallenge wire.Unmarshal_SlackEvent
           scenario.credentials scenario.GetUserIDForTeam wire_same_type_key
           scenario.net_unlisted scenario.message_event
           (slack.mkSlackEvent "event_callback" "T1"
              (slack.mkInnerEvent "message" "C1" "U1" "hi" "" ""))
           "owner1" "a@x.com" None [] [] "channel_not_found").
  - vm_compute; reflexivity.
  - reflexivity.
  - simpl; discriminate.
  - reflexivity.
  - reflexivity.
  - simpl. intros [H|[H|H]]; [by apply H | discriminate H | discriminate H].
  - vm_compute; reflexivity.
  - vm_compute; reflexivity.
Defined.

(** ** The connection string written to the log *)
Section Redaction.
Import strings database.

Lemma append_nil (s : string) : "" +:+ s = s.
Proof. reflexivity. Qed.

Lemma append_cons x (a b : string) : String x a +:+ b = String x (a +:+ b).
Proof. reflexivity. Qed.

Lemma append_assoc (a b c : string) : (a +:+ b) +:+ c = a +:+ b +:+ c.
Proof.
  induction a as [|x a IH]; [done|]. rewrite !append_cons. by rewrite IH.
Qed.

Lemma append_empty (s : string) : s +:+ "" = s.
Proof. induction s as [|x s IH]; [done|]. by rewrite append_cons, IH. Qed.

(** Appends to the right, string literals spelled out. *)
#[local] Ltac flatten :=
  repeat first [rewrite append_assoc | rewrite append_cons
               | rewrite append_nil | rewrite append_empty].

Lemma len_String c (s : string) : len (String c s) = 1 + len s.
Proof.
  unfold len. change (String.length (String c s)) with (S (String.length s)). lia.
Qed.

Lemma len_empty : len "" = 0.
Proof. reflexivity. Qed.

Lemma len_append (a b : string) : len (a +:+ b) = len a + len b.
Proof.
  induction a as [|x a IH]; [rewrite append_nil, len_empty; lia|].
  rewrite append_cons, !len_String. lia.
Qed.

Lemma len_nonneg (s : string) : 0 ≤ len s.
Proof. unfold len. lia. Qed.

Lemma len_pos (s : string) : s ≠ "" → 0 < len s.
Proof. destruct s; [done|]. rewrite len_String. pose proof (len_nonneg s). lia. Qed.

Lemma prefix_append (sub post : string) : String.prefix sub (sub +:+ post) = true.
Proof.
  induction sub as [|x sub IH]; simpl; [by destruct post|].
  by destruct (ascii_dec x x).
Qed.

Lemma prefix_len (sub s : string) : String.prefix sub s = true → len sub ≤ len s.
Proof.
  revert sub. induction s as [|y s IH]; intros [|x sub] Hp.
  - lia.
  - done.
  - rewrite len_String. pose proof (len_nonneg s). rewrite len_empty. lia.
  - cbn in Hp. destruct (ascii_dec x y); [|done].
    apply IH in Hp. rewrite !len_String. lia.
Qed.

Lemma prefix_split (sub s : string) :
  String.prefix sub s = true → ∃ post, s = sub +:+ post.
Proof.
  revert sub. induction s as [|y s IH]; intros [|x sub]; simpl; try done.
  - by exists "".
  - by exists (String y s).
  - destruct (ascii_dec x y) as [->|]; [|done].
    intros [post ->]%IH. by exists post.
Qed.

Lemma drop_append (pre s : string) n :
  n = String.length pre → drop n (pre +:+ s) = s.
Proof. intros ->. induction pre as [|x pre IH]; simpl; [by destruct s|done]. Qed.

Lemma take_append (b c : string) n :
  n = String.length b → take n (b +:+ c) = b.
Proof. intros ->. induction b as [|x b IH]; simpl; [done|]. by rewrite IH. Qed.

(** The slice that cuts the middle of three parts. *)
Lemma slice_middle (a b c : string) lo hi :
  lo = len a → hi = len a + len b → slice (a +:+ b +:+ c) lo hi = Some b.
Proof.
  intros -> ->. unfold slice.
  pose proof (len_nonneg a). pose proof (len_nonneg b). pose proof (len_nonneg c).
  rewrite !len_append.
  rewrite !andb_true_intro; [|split; [apply andb_true_intro; split|]; lia].
  f_equal. rewrite drop_append by (unfold len; lia).
  apply take_append. unfold len. lia.
Qed.

Lemma slice_len (s : string) lo hi r : slice s lo hi = Some r → len r = hi - lo.
Proof.
  unfold slice. destruct (_ && _) eqn:Hin; [|done]. intros [= <-].
  apply andb_prop in Hin as [[Hlo Hhi]%andb_prop Hlen].
  apply Z.leb_le in Hlo, Hhi, Hlen.
  assert (Hd : ∀ n t, (n ≤ String.length t)%nat →
                String.length (drop n t) = (String.length t - n)%nat).
  { induction n as [|n IH]; intros [|x t]; simpl; try lia. intros. apply IH. lia. }
  assert (Ht : ∀ n t, (n ≤ String.length t)%nat → String.length (take n t) = n).
  { induction n as [|n IH]; intros [|x t]; simpl; try lia. intros. rewrite IH; lia. }
  unfold len in *. rewrite Ht; [lia|]. rewrite Hd; lia.
Qed.

Lemma slice_in_range (s : string) lo hi :
  0 ≤ lo → lo ≤ hi → hi ≤ len s → is_Some (slice s lo hi).
Proof.
  intros. unfold slice.
  rewrite !andb_true_intro; [done|split; [apply andb_true_intro; split|]; lia].
Qed.

(** The suffix [s[lo:]] begins where [drop] says. *)
Lemma slice_suffix (s : string) lo r :
  slice s lo (len s) = Some r → r = drop (Z.to_nat lo) s.
Proof.
  unfold slice. destruct (_ && _) eqn:Hin; [|done]. intros [= <-].
  apply andb_prop in Hin as [[Hlo Hhi]%andb_prop _].
  apply Z.leb_le in Hlo, Hhi.
  assert (Ht : ∀ n t, (String.length t ≤ n)%nat → take n t = t).
  { induction n as [|n IH]; intros [|x t]; simpl; try done; try lia.
    intros. rewrite IH; [done|lia]. }
  assert (Hd : ∀ n t, (n ≤ String.length t)%nat →
                String.length (drop n t) = (String.length t - n)%nat).
  { induction n as [|n IH]; intros [|x t]; simpl; try lia. intros. apply IH. lia. }
  apply Ht. unfold len in *. rewrite Hd; lia.
Qed.

Lemma Index_nil (sub : string) :
  Index "" sub = if String.prefix sub "" then 0 else -1.
Proof. reflexivity. Qed.

Lemma Index_cons y (s sub : string) :
  Index (String y s) sub
    = if String.prefix sub (String y s) then 0
      else if Index s sub <? 0 then -1 else Index s sub + 1.
Proof. reflexivity. Qed.

Lemma Index_lower (s sub : string) : -1 ≤ Index s sub.
Proof.
  induction s as [|y s IH].
  - rewrite Index_nil. destruct (String.prefix sub ""); lia.
  - rewrite Index_cons. destruct (String.prefix sub (String y s)); [lia|].
    destruct (Z.ltb_spec (Index s sub) 0); lia.
Qed.

(** An index that is found leaves room for the substring. *)
Lemma Index_upper (s sub : string) : 0 ≤ Index s sub → Index s sub + len sub ≤ len s.
Proof.
  induction s as [|y s IH].
  - rewrite Index_nil. destruct (String.prefix sub "") eqn:Hp; [|lia].
    intros _. apply prefix_len in Hp. lia.
  - rewrite Index_cons. destruct (String.prefix sub (String y s)) eqn:Hp.
    + intros _. apply prefix_len in Hp. lia.
    + destruct (Z.ltb_spec (Index s sub) 0); [lia|].
      intros _. rewrite len_String. lia.
Qed.

(** The substring is found where [Index] says. *)
Lemma Index_found (s sub : string) :
  0 ≤ Index s sub → String.prefix sub (drop (Z.to_nat (Index s sub)) s) = true.
Proof.
  induction s as [|y s IH].
  - rewrite Index_nil. destruct (String.prefix sub "") eqn:Hp; [done|lia].
  - rewrite Index_cons. destruct (String.prefix sub (String y s)) eqn:Hp; [done|].
    destruct (Z.ltb_spec (Index s sub) 0); [lia|]. intros _.
    replace (Z.to_nat (Index s sub + 1)) with (S (Z.to_nat (Index s sub))) by lia.
    simpl. by apply IH.
Qed.

(** [Index] passes over a prefix that does not hold the first character
    of the substring. *)
Lemma Index_skip (pre : string) c (sub post : string) :
  contains pre c = false →
  Index (pre +:+ String c sub +:+ post) (String c sub) = len pre.
Proof.
  intros Hpre. induction pre as [|x pre IH].
  - rewrite append_nil, append_cons, Index_cons, <- append_cons.
    by rewrite prefix_append.
  - simpl in Hpre. apply orb_false_elim in Hpre as [Hx Hpre].
    apply bool_decide_eq_false in Hx.
    rewrite append_cons, Index_cons. cbn [String.prefix].
    destruct (ascii_dec c x) as [->|_]; [done|].
    rewrite IH by done. rewrite len_String.
    pose proof (len_nonneg pre). destruct (Z.ltb_spec (len pre) 0); lia.
Qed.

(** Lengths of appended strings, for [lia]. *)
#[local] Ltac lens :=
  repeat first [rewrite len_append | rewrite len_String | rewrite len_empty]; lia.

(** X28. For a connection URL with a non-empty scheme free of ":", a
    non-empty user name free of ":" and "@", and a password free of "@",
    the logged string shows eight asterisks in place of the password and
    is otherwise the URL.  Nothing is required of what follows the first
    "@": when the password itself holds an "@", the part of it behind
    that sign is logged. *)
Theorem redact_hides_password (scheme user pass rest : string) :
  scheme ≠ "" → contains scheme ":" = false →
  user ≠ "" → contains user ":" = false → contains user "@" = false →
  contains pass "@" = false →
  redactConnectionString (scheme +:+ "://" +:+ user +:+ ":" +:+ pass +:+ "@" +:+ rest)
    = Some (scheme +:+ "://" +:+ user +:+ ":********@" +:+ rest).
Proof.
  intros Hscheme Hs Huser Hu Hu' Hp.
  set (connStr := scheme +:+ "://" +:+ user +:+ ":" +:+ pass +:+ "@" +:+ rest).
  pose proof (len_pos _ Hscheme). pose proof (len_pos _ Huser).
  pose proof (len_nonneg pass).
  unfold redactConnectionString. fold connStr.
  assert (Hidx : Index connStr "://" = len scheme).
  { apply (Index_skip scheme ":" "//" (user +:+ ":" +:+ pass +:+ "@" +:+ rest) Hs). }
  rewrite Hidx. destruct (Z.ltb_spec 0 (len scheme)); [|lia].
  assert (Htail : slice connStr (len scheme) (len connStr)
                  = Some (("://" +:+ user +:+ ":" +:+ pass) +:+ "@" +:+ rest)).
  { replace connStr
      with (scheme +:+ (("://" +:+ user +:+ ":" +:+ pass) +:+ "@" +:+ rest) +:+ "").
    - apply slice_middle; lens.
    - unfold connStr. by flatten. }
  rewrite Htail. cbn [mbind option_bind].
  rewrite (Index_skip ("://" +:+ user +:+ ":" +:+ pass) "@" "" rest).
  2:{ rewrite !contains_app, Hu', Hp. reflexivity. }
  assert (Hat : len ("://" +:+ user +:+ ":" +:+ pass) = 3 + len user + 1 + len pass).
  { lens. }
  rewrite Hat. destruct (Z.ltb_spec 0 (3 + len user + 1 + len pass)); [|lia].
  assert (HuserPass : slice connStr (len scheme + 3)
                        (len scheme + (3 + len user + 1 + len pass))
                      = Some (user +:+ ":" +:+ pass)).
  { replace connStr
      with ((scheme +:+ "://") +:+ (user +:+ ":" +:+ pass) +:+ "@" +:+ rest).
    - apply slice_middle; lens.
    - unfold connStr. by flatten. }
  rewrite HuserPass. cbn [mbind option_bind].
  rewrite (Index_skip user ":" "" pass Hu).
  destruct (Z.ltb_spec 0 (len user)); [|lia].
  assert (Hhead : slice connStr 0 (len scheme + 3 + len user + 1)
                  = Some (scheme +:+ "://" +:+ user +:+ ":")).
  { replace connStr
      with ("" +:+ (scheme +:+ "://" +:+ user +:+ ":") +:+ pass +:+ "@" +:+ rest).
    - apply slice_middle; lens.
    - unfold connStr. by flatten. }
  rewrite Hhead. cbn [mbind option_bind].
  assert (Hrest : slice connStr (len scheme + (3 + len user + 1 + len pass)) (len connStr)
                  = Some ("@" +:+ rest)).
  { replace connStr
      with ((scheme +:+ "://" +:+ user +:+ ":" +:+ pass) +:+ ("@" +:+ rest) +:+ "").
    - apply slice_middle; lens.
    - unfold connStr. by flatten. }
  rewrite Hrest. cbn [mbind option_bind]. f_equal.
  by flatten.
Qed.

(** X29. [redactConnectionString] never panics: whatever the connection
    string, each of its four slice expressions has its indices in
    range. *)
Theorem redact_never_panics (connStr : string) :
  is_Some (redactConnectionString connStr).
Proof.
  unfold redactConnectionString.
  destruct (Z.ltb_spec 0 (Index connStr "://")) as [Hidx|]; [|done].
  pose proof (Index_upper connStr "://" ltac:(lia)) as Hup.
  change (len "://") with 3 in Hup.
  destruct (slice_in_range connStr (Index connStr "://") (len connStr))
    as [tail Htail]; [lia..|].
  rewrite Htail. cbn [mbind option_bind].
  pose proof (slice_len _ _ _ _ Htail) as Hlen.
  apply slice_suffix in Htail.
  destruct (prefix_split "://" tail) as [post Hpost].
  { rewrite Htail. apply Index_found. lia. }
  destruct (Z.ltb_spec 0 (Index tail "@")) as [Hat|]; [|done].
  pose proof (Index_upper tail "@" ltac:(lia)) as Hatup.
  change (len "@") with 1 in Hatup.
  assert (Hthree : 3 ≤ Index tail "@").
  { revert Hat. rewrite Hpost. rewrite !append_cons, append_nil, !Index_cons.
    cbn [String.prefix]. pose proof (Index_lower post "@").
    repeat match goal with
           | |- context [ascii_dec ?a ?b] => destruct (ascii_dec a b); [done|]
           end.
    destruct (Z.ltb_spec (Index post "@") 0); [by vm_compute|].
    destruct (Z.ltb_spec (Index post "@" + 1) 0); [lia|].
    destruct (Z.ltb_spec (Index post "@" + 1 + 1) 0); lia. }
  destruct (slice_in_range connStr (Index connStr "://" + 3)
              (Index connStr "://" + Index tail "@"))
    as [userPass HuserPass]; [lia..|].
  rewrite HuserPass. cbn [mbind option_bind].
  apply slice_len in HuserPass.
  destruct (Z.ltb_spec 0 (Index userPass ":")) as [Hpass|]; [|done].
  pose proof (Index_upper userPass ":" ltac:(lia)) as Hpassup.
  change (len ":") with 1 in Hpassup.
  destruct (slice_in_range connStr 0 (Index connStr "://" + 3 + Index userPass ":" + 1))
    as [head ->]; [lia..|].
  destruct (slice_in_range connStr (Index connStr "://" + Index tail "@") (len connStr))
    as [rest ->]; [lia..|].
  done.
Qed.

(** A URL without a user name: the password is logged as it is. *)
Example redact_without_user :
  redactConnectionString "postgres://:hunter2@db:5432/relay"
    = Some "postgres://:hunter2@db:5432/relay".
Proof. vm_compute; reflexivity. Qed.

(** The keyword form of a connection string is logged as it is. *)
Example redact_keywords :
  redactConnectionString "host=db user=relay password=hunter2"
    = Some "host=db user=relay password=hunter2".
Proof. vm_compute; reflexivity. Qed.

End Redaction.

Lemma redact_hides_password_witness :
  database.redactConnectionString
      ("postgres" +:+ "://" +:+ "relay" +:+ ":" +:+ "hunter2" +:+ "@" +:+ "db:5432/relay")
    = Some ("postgres" +:+ "://" +:+ "relay" +:+ ":********@" +:+ "db:5432/relay").
Proof.
  apply (redact_hides_password "postgres" "relay" "hunter2" "db:5432/relay");
    first [discriminate | reflexivity].
Defined.

(** ** Delivery for a user without credentials *)
Section MoreDelivery.
Import auth gmail.

(** X27. For a user who has no stored credentials, [SendEmail] runs the
    whole schedule all the same: [GetGmailService] is called three times,
    one and two seconds apart, Google is asked for nothing, and the
    error names the missing credentials. *)
Theorem SendEmail_unknown_user g (credentials : Credentials) userID to subject messageText :
  credentials !! userID = None →
  SendEmail g credentials userID to subject messageText
    = (Err ("unable to retrieve Gmail service after retries: "
              +:+ "failed to get credentials: "
              +:+ "no credentials found for user " +:+ userID),
       [GetService 1; Sleep (1 * time.Second); GetService 2;
        Sleep (2 * time.Second); GetService 3]).
Proof.
  intros Hnone. unfold SendEmail, retry, GetGmailService, GetCredentials.
  rewrite Hnone. reflexivity.
Qed.

End MoreDelivery.

Lemma SendEmail_unknown_user_witness :
  gmail.SendEmail scenario.google_slow scenario.credentials "owner2" "b@x.com" "S" "hi"
    = (gmail.Err ("unable to retrieve Gmail service after retries: "
                    +:+ "failed to get credentials: "
                    +:+ "no credentials found for user " +:+ "owner2"),
       [gmail.GetService 1; gmail.Sleep (1 * time.Second); gmail.GetService 2;
        gmail.Sleep (2 * time.Second); gmail.GetService 3]).
Proof.
  apply (SendEmail_unknown_user scenario.google_slow scenario.credentials "owner2").
  reflexivity.
Defined.

(** ** The handlers as [main] wires them *)
Section Onboarding.
Import auth slack server.
Variable AuthCodeURL : Config → string → string.
Variable Sprint : json.value → string.
Variable Bytes : Type.
Variable Unmarshal_SlackChallenge : Bytes → SlackChallenge + error.
Variable Unmarshal_SlackEvent : Bytes → SlackEvent + error.
Hypothesis type_key : same_type_key Unmarshal_SlackChallenge Unmarshal_SlackEvent.

#[local] Abbreviation SaveCredentials := (server.SaveCredentials AuthCodeURL).
#[local] Abbreviation HandleWebhook :=
  (server.HandleWebhook Sprint Bytes Unmarshal_SlackChallenge Unmarshal_SlackEvent).

(** X30. Once the credentials form of a user that names a Slack team has
    been answered with 200, the server maps that team to that user and
    holds the user's bot token; a message event of the team (not from a
    bot, not an edit) is then processed on behalf of that user, provided
    the team query itself succeeds. *)
Theorem onboarded_team_is_served env req s :
  HasRegisterTeam (authHandler s) = true →
  rq_SlackTeamID req ≠ "" →
  http.StatusCode (SaveCredentials env http.MethodPost (inl req) s).1 = 200 →
  let s' := (SaveCredentials env http.MethodPost (inl req) s).2 in
  database.GetUserIDForTeam None (rq_SlackTeamID req) (integrations s')
    = Some (rq_UserID req) ∧
  GetSlackToken (CredManager (authHandler s')) (rq_UserID req)
    = (rq_SlackBotToken req, None) ∧
  ∀ net body event,
    Unmarshal_SlackEvent body = inl event →
    se_Type event = "event_callback" →
    se_TeamID event = rq_SlackTeamID req →
    ev_Type (se_Event event) = "message" →
    ¬ (ev_BotID (se_Event event) ≠ ""
       ∨ ev_Subtype (se_Event event) = "message_changed"
       ∨ ev_Subtype (se_Event event) = "bot_message") →
    HandleWebhook None s' net (inl body)
      = processMessage Sprint (CredManager (authHandler s')) net event (rq_UserID req)
          [TeamLookup (rq_SlackTeamID req)].
Proof.
  intros Hreg Hteam H200 s'.
  assert (Hs' : integrations s' !! rq_SlackTeamID req = Some (rq_UserID req) ∧
                CredManager (authHandler s') !! rq_UserID req
                  = Some {| uc_UserID := rq_UserID req;
                            uc_GmailClientID := rq_GmailClientID req;
                            uc_GmailSecret := rq_GmailSecret req;
                            uc_GmailRefreshToken := "";
                            uc_SlackBotToken := rq_SlackBotToken req |}).
  { revert H200. unfold s', server.SaveCredentials, Handler_SaveCredentials.
    cbn [fst snd authHandler integrations].
    rewrite decide_False by (intros H; by apply H).
    unfold auth.SaveCredentials. cbn [uc_UserID].
    destruct (env_persist env); cbv beta iota zeta; [|by simpl..].
    rewrite decide_True by (split; [done | exact Hreg]).
    destruct (env_registerTeam env) as [e|]; [by simpl|].
    unfold issueAuthURL.
    destruct (GenerateState _ _ _ _ _) as [[state [e|]] states]; [by simpl|].
    intros _. cbn. split; apply lookup_insert_eq. }
  destruct Hs' as [Hmap Hcreds]. split_and!.
  - done.
  - unfold GetSlackToken, GetCredentials. by rewrite Hcreds.
  - intros net body event Hev Hty Hid Hmsg Hbot.
    unfold server.HandleWebhook. rewrite <- Hid.
    apply (message_of_mapped_team Sprint Bytes Unmarshal_SlackChallenge
             Unmarshal_SlackEvent _ _ type_key); try done.
    + by rewrite Hid.
    + cbn. by rewrite Hid.
Qed.

End Onboarding.

Lemma onboarded_team_is_served_witness :
  let s' := (server.SaveCredentials saving.AuthCodeURL saving.env http.MethodPost
               (inl saving.req) saving.started).2 in
  database.GetUserIDForTeam None "T1" (server.integrations s') = Some "owner1" ∧
  auth.GetSlackToken (auth.CredManager (server.authHandler s')) "owner1"
    = ("xoxb-2", None) ∧
  ∀ net body event,
    wire.Unmarshal_SlackEvent body = inl event →
    slack.se_Type event = "event_callback" →
    slack.se_TeamID event = "T1" →
    slack.ev_Type (slack.se_Event event) = "message" →
    ¬ (slack.ev_BotID (slack.se_Event event) ≠ ""
       ∨ slack.ev_Subtype (slack.se_Event event) = "message_changed"
       ∨ slack.ev_Subtype (slack.se_Event event) = "bot_message") →
    server.HandleWebhook wire.Sprint wire.Bytes wire.Unmarshal_SlackChallenge
        wire.Unmarshal_SlackEvent None s' net (inl body)
      = slack.processMessage wire.Sprint (auth.CredManager (server.authHandler s'))
          net event "owner1" [slack.TeamLookup "T1"].
Proof.
  apply (onboarded_team_is_served saving.AuthCodeURL wire.Sprint wire.Bytes
           wire.Unmarshal_SlackChallenge wire.Unmarshal_SlackEvent wire_same_type_key
           saving.env saving.req saving.started).
  - reflexivity.
  - simpl; discriminate.
  - vm_compute; reflexivity.
Defined.

Lemma dispatched_mail_witness :
  let run := scenario.HandleWebhook scenario.net scenario.message_event in
  let mail := slack.mkMail "owner1" "b@x.com" "New Slack Message in Channel"
                ("New Slack message received in channel from user U1:"
                   +:+ slack.LF +:+ slack.LF +:+ "hi") in
  ∃ body event,
    @inl wire.Bytes string scenario.message_event = inl body ∧
    wire.Unmarshal_SlackEvent body = inl event ∧
    slack.se_Type event = "event_callback" ∧
    slack.ev_Type (slack.se_Event event) = "message" ∧
    slack.ev_BotID (slack.se_Event event) = "" ∧
    slack.ev_Subtype (slack.se_Event event) ≠ "message_changed" ∧
    slack.ev_Subtype (slack.se_Event event) ≠ "bot_message" ∧
    scenario.GetUserIDForTeam (slack.se_TeamID event) = Some (slack.m_userID mail) ∧
    slack.recipients run ≠ [] ∧
    slack.m_to mail = slack.Join (slack.recipients run) "," ∧
    slack.m_subject mail = "New Slack Message in Channel" ∧
    slack.m_messageText mail
      = "New Slack message received in channel from user "
          +:+ slack.ev_User (slack.se_Event event) +:+ ":" +:+ slack.LF +:+ slack.LF
          +:+ slack.ev_Text (slack.se_Event event) ∧
    slack.response run
      = Some (http.mkResponse 200 (http.Text "Message received and processing")).
Proof.
  apply (dispatched_mail wire.Sprint wire.Bytes wire.Unmarshal_SlackChallenge
           wire.Unmarshal_SlackEvent scenario.credentials scenario.GetUserIDForTeam
           scenario.net (inl scenario.message_event)).
  vm_compute; reflexivity.
Defined.
